(** * Rich text line layout and mutation (fyne, package widget)

    A shallow embedding of the wrap engine ([splitLines], [binarySearch],
    [findSpaceIndex], [lineBounds]) and of the rich text container
    ([insertAt], [deleteFromTo], [updateRowBounds], [charMinSize],
    [MinSize]) of richtext.go, with the properties the specification
    states about them. *)

From Stdlib Require Import ZArith Lia String Ascii List Bool.
From stdpp Require Import base tactics list.

Local Open Scope Z_scope.

(** ** Go integers *)

(** Go's [int] on the 64-bit targets: two's complement, arithmetic wraps. *)
Definition intSize : Z := 64.

Definition int_wrap (z : Z) : Z :=
  (z + 2 ^ (intSize - 1)) mod 2 ^ intSize - 2 ^ (intSize - 1).

Definition int_sub (a b : Z) : Z := int_wrap (a - b).

(** ** binarySearch *)

Section BinarySearch.
Variable lessMaxWidth : Z -> Z -> bool.
Variable low : Z.

(** One round of the first loop, after [delta /= 2]:
    [if lessMaxWidth(low, high+delta) { high += delta }]. *)
Definition probe (high delta : Z) : Z :=
  if lessMaxWidth low (high + delta) then high + delta else high.

(** [for delta > 0 { delta /= 2; ... }], by recursion on the binary
    digits of the positive [delta]: halving drops the last digit, and
    the round that halves 1 to 0 still probes (with a zero step). *)
Fixpoint halving (delta : positive) (high : Z) : Z :=
  match delta with
  | xH => probe high 0
  | xO d | xI d => halving d (probe high (Z.pos d))
  end.

(** [for (high < maxHigh) && lessMaxWidth(low, high+1) { high++ }].
    The loop runs at most [maxHigh - high] times, which is the fuel
    [binarySearch] passes. *)
Fixpoint stepping (fuel : nat) (maxHigh high : Z) : Z :=
  match fuel with
  | O => high
  | S fuel' =>
      if (high <? maxHigh) && lessMaxWidth low (high + 1)
      then stepping fuel' maxHigh (high + 1)
      else high
  end.

Definition binarySearch (maxHigh : Z) : Z :=
  if low >=? maxHigh then low
  else if lessMaxWidth low maxHigh then maxHigh
  else
    let high :=
      match int_sub maxHigh low with
      | Z.pos delta => halving delta low
      | _ => low
      end in
    stepping (Z.to_nat (maxHigh - high)) maxHigh high.
End BinarySearch.


(** ** Go strings, runes and rune slices

    A Go [string] is a sequence of bytes: Rocq's [string]. A [rune] is an
    [int32] code point. The conversions [[]rune(s)] and [string(r)] are
    those of the Go runtime, which decode and encode UTF-8 as package
    unicode/utf8 does. *)

Definition rune := Z.

Definition RuneError : rune := 0xFFFD.
Definition MaxRune : rune := 0x10FFFF.
Definition surrogateMin : Z := 0xD800.
Definition surrogateMax : Z := 0xDFFF.

Definition byte_val (c : ascii) : Z := Z.of_N (N_of_ascii c).

(** The conversion [byte(x)] keeps the low eight bits. *)
Definition byte_of (z : Z) : ascii := ascii_of_N (Z.to_N (z mod 256)).

Definition locb : Z := 0x80.
Definition hicb : Z := 0xBF.
Definition maskx : Z := 0x3F.
Definition mask2 : Z := 0x1F.
Definition mask3 : Z := 0x0F.
Definition mask4 : Z := 0x07.

(** The table [first] of unicode/utf8 for a non-ASCII first byte: the
    length of the sequence and the range accepted for the second byte;
    [None] stands for the entry [xx] (not a valid first byte). *)
Definition first (s0 : Z) : option (Z * Z * Z) :=
  if s0 <? 0xC2 then None
  else if s0 <? 0xE0 then Some (2, locb, hicb)
  else if s0 =? 0xE0 then Some (3, 0xA0, hicb)
  else if s0 <? 0xED then Some (3, locb, hicb)
  else if s0 =? 0xED then Some (3, locb, 0x9F)
  else if s0 <? 0xF0 then Some (3, locb, hicb)
  else if s0 =? 0xF0 then Some (4, 0x90, hicb)
  else if s0 <? 0xF4 then Some (4, locb, hicb)
  else if s0 =? 0xF4 then Some (4, locb, 0x8F)
  else None.

(** [utf8.DecodeRuneInString]: the first rune of [s] and its width in
    bytes; an invalid or truncated sequence gives [(RuneError, 1)]. *)
Definition DecodeRune (s : list ascii) : rune * nat :=
  match s with
  | [] => (RuneError, 0%nat)
  | c0 :: t0 =>
      let s0 := byte_val c0 in
      if s0 <? 0x80 then (s0, 1%nat)
      else
        match first s0 with
        | None => (RuneError, 1%nat)
        | Some (sz, lo, hi) =>
            if Z.of_nat (length s) <? sz then (RuneError, 1%nat)
            else
              match t0 with
              | [] => (RuneError, 1%nat)
              | c1 :: t1 =>
                  let s1 := byte_val c1 in
                  if (s1 <? lo) || (hi <? s1) then (RuneError, 1%nat)
                  else if sz <=? 2 then
                    (Z.lor (Z.shiftl (Z.land s0 mask2) 6) (Z.land s1 maskx),
                     2%nat)
                  else
                    match t1 with
                    | [] => (RuneError, 1%nat)
                    | c2 :: t2 =>
                        let s2 := byte_val c2 in
                        if (s2 <? locb) || (hicb <? s2) then (RuneError, 1%nat)
                        else if sz <=? 3 then
                          (Z.lor (Z.lor (Z.shiftl (Z.land s0 mask3) 12)
                                        (Z.shiftl (Z.land s1 maskx) 6))
                                 (Z.land s2 maskx),
                           3%nat)
                        else
                          match t2 with
                          | [] => (RuneError, 1%nat)
                          | c3 :: _ =>
                              let s3 := byte_val c3 in
                              if (s3 <? locb) || (hicb <? s3)
                              then (RuneError, 1%nat)
                              else
                                (Z.lor (Z.lor (Z.lor
                                   (Z.shiftl (Z.land s0 mask4) 18)
                                   (Z.shiftl (Z.land s1 maskx) 12))
                                   (Z.shiftl (Z.land s2 maskx) 6))
                                   (Z.land s3 maskx),
                                 4%nat)
                          end
                    end
              end
        end
  end.

(** The loop [for _, r := range s] that fills the rune slice. Every
    round consumes at least one byte, so the byte length is enough fuel. *)
Fixpoint decode_runes (fuel : nat) (s : list ascii) : list rune :=
  match fuel with
  | O => []
  | S fuel' =>
      match s with
      | [] => []
      | _ :: _ =>
          let '(r, w) := DecodeRune s in
          r :: decode_runes fuel' (drop w s)
      end
  end.

(** [[]rune(s)], as the list of its elements. *)
Definition runes_of_string (s : string) : list rune :=
  let b := list_ascii_of_string s in decode_runes (length b) b.

(** [encoderune]: the UTF-8 bytes of one rune; a surrogate or a value
    outside the Unicode range is written as [RuneError]. *)
Definition three_bytes (r : rune) : list ascii :=
  [ byte_of (Z.lor 0xE0 (byte_val (byte_of (Z.shiftr r 12))));
    byte_of (Z.lor 0x80 (Z.land (byte_val (byte_of (Z.shiftr r 6))) maskx));
    byte_of (Z.lor 0x80 (Z.land (byte_val (byte_of r)) maskx)) ].

Definition EncodeRune (r : rune) : list ascii :=
  let i := r mod 2 ^ 32 in
  if i <=? 0x7F then [byte_of r]
  else if i <=? 0x7FF then
    [ byte_of (Z.lor 0xC0 (byte_val (byte_of (Z.shiftr r 6))));
      byte_of (Z.lor 0x80 (Z.land (byte_val (byte_of r)) maskx)) ]
  else if (MaxRune <? i) || ((surrogateMin <=? i) && (i <=? surrogateMax))
  then three_bytes RuneError
  else if i <=? 0xFFFF then three_bytes r
  else
    [ byte_of (Z.lor 0xF0 (byte_val (byte_of (Z.shiftr r 18))));
      byte_of (Z.lor 0x80 (Z.land (byte_val (byte_of (Z.shiftr r 12))) maskx));
      byte_of (Z.lor 0x80 (Z.land (byte_val (byte_of (Z.shiftr r 6))) maskx));
      byte_of (Z.lor 0x80 (Z.land (byte_val (byte_of r)) maskx)) ].

(** [string(r)] for a rune slice with elements [r]. *)
Definition string_of_runes (r : list rune) : string :=
  string_of_list_ascii (concat (map EncodeRune r)).

(** [len(x)] as an [int]. *)
Definition len {A} (l : list A) : Z := Z.of_nat (length l).

(** [unicode.IsSpace]: the Latin-1 spaces and the other code points with
    the White_Space property. *)
Definition IsSpace (r : rune) : bool :=
  if r <=? 0xFF then
    ((0x09 <=? r) && (r <=? 0x0D)) || (r =? 0x20) || (r =? 0x85) || (r =? 0xA0)
  else
    (r =? 0x1680) || ((0x2000 <=? r) && (r <=? 0x200A)) || (r =? 0x2028)
    || (r =? 0x2029) || (r =? 0x202F) || (r =? 0x205F) || (r =? 0x3000).

(** *** Code that may panic *)

Inductive run (A : Type) : Type :=
  | Returns (a : A)
  | Panics.
Arguments Returns {A} a.
Arguments Panics {A}.

#[global] Instance run_ret : MRet run := fun _ a => Returns a.
#[global] Instance run_bind : MBind run := fun _ _ f m =>
  match m with
  | Returns a => f a
  | Panics => Panics
  end.

(** *** Slices

    A slice is a window on a backing array: [arr] is the array from the
    first element of the slice to the end of its capacity, [slen] the
    length of the slice. *)
Record slice : Type := mkSlice { arr : list rune; slen : Z }.

Definition cap (s : slice) : Z := len (arr s).
Definition elems (s : slice) : list rune := take (Z.to_nat (slen s)) (arr s).

(** [s[lo:hi]]: the bounds are checked against the capacity. *)
Definition reslice (s : slice) (lo hi : Z) : run slice :=
  if (0 <=? lo) && (lo <=? hi) && (hi <=? cap s)
  then Returns (mkSlice (drop (Z.to_nat lo) (arr s)) (hi - lo))
  else Panics.

(** [s[:hi]] and [s[lo:]]. *)
Definition slice_to (s : slice) (hi : Z) : run slice := reslice s 0 hi.
Definition slice_from (s : slice) (lo : Z) : run slice := reslice s lo (slen s).

(** [make([]rune, n)] panics on a negative length. (The length
    [deleteFromTo] asks for is a difference of two [int]s, written
    without [int_wrap]: a difference that wraps around is negative or
    needs a bound that makes the slice expression after it panic, and
    the call panics either way.) *)
Definition make_runes (n : Z) : run (list rune) :=
  if n <? 0 then Panics else Returns (replicate (Z.to_nat n) 0).

(** [copy(dst, src)], as the new contents of [dst]. *)
Definition copy_runes (dst src : list rune) : list rune :=
  take (length dst) src ++ drop (length src) dst.

(** [append(s, x...)], as the elements of the result. The elements [x]
    are read before any is written (the runtime moves memory), so the
    result is the same when [x] shares the backing array of [s]. *)
Definition append_runes (s : slice) (x : list rune) : list rune := elems s ++ x.

(** The runtime chooses the capacity of the slice a conversion
    [[]rune(s)] allocates: at least the number of runes, and more when it
    rounds the allocation up (or uses a stack buffer); the spare elements
    are zero. *)
Class GoRuntime : Type := { runecap : Z -> Z }.

Definition stringtoslicerune `{GoRuntime} (s : string) : slice :=
  let r := runes_of_string s in
  let n := len r in
  mkSlice (r ++ replicate (Z.to_nat (Z.max n (runecap n) - n)) 0) n.

(** A runtime that allocates exactly, and one with the 32-rune stack
    buffer of the gc compiler. *)
Definition exact_runtime : GoRuntime := {| runecap := fun n => n |}.
Definition tmpbuf_runtime : GoRuntime := {| runecap := fun n => Z.max n 32 |}.

(** The expressions [text[low:high]] and [text[i]] on the elements of a
    slice that is only read. Go panics when the bounds or the index are
    out of range; these functions are total and agree with Go in range,
    which is where [lineBounds] uses them: its loops keep
    [0 <= low <= high <= len(text)] (see [wrapBreak_spec] and
    [wrapWord_spec]), and [findSpaceIndex] is called with a fallback
    below the length of its text. *)
Definition subslice {A} (text : list A) (low high : Z) : list A :=
  take (Z.to_nat (high - low)) (drop (Z.to_nat low) text).

Definition index (text : list rune) (i : Z) : rune :=
  nth (Z.to_nat i) text 0.

(** ** Toolkit types (package fyne) *)

(** [float32], with the operations the layout code uses on it. *)
Class Float32 (F : Type) : Type := {
  f_zero : F;
  f_of_int : Z -> F;
  f_le : F -> F -> bool;
  f_eq : F -> F -> bool;
  f_add : F -> F -> F;
  f_sub : F -> F -> F;
  f_mul : F -> F -> F;
  f_max : F -> F -> F
}.

Record Size (F : Type) : Type := NewSize { Width : F; Height : F }.
Arguments NewSize {F} _ _.
Arguments Width {F} _.
Arguments Height {F} _.

Definition Size_Add `{Float32 F} (s v : Size F) : Size F :=
  NewSize (f_add (Width s) (Width v)) (f_add (Height s) (Height v)).

Definition Size_Subtract `{Float32 F} (s v : Size F) : Size F :=
  NewSize (f_sub (Width s) (Width v)) (f_sub (Height s) (Height v)).

Inductive TextAlign : Type :=
  | TextAlignLeading
  | TextAlignCenter
  | TextAlignTrailing.

(** [fyne.TextWrap] is an integer type; [TextWrapOther] stands for a
    value that is none of the four named ones. *)
Inductive TextWrap : Type :=
  | TextWrapOff
  | TextTruncate
  | TextWrapBreak
  | TextWrapWord
  | TextWrapOther.

Record TextStyle : Type := {
  Bold : bool;
  Italic : bool;
  Monospace : bool;
  Symbol : bool;
  TabWidth : Z
}.

(** What the rich text asks of the toolkit: text measurement and the
    theme's sizes. *)
Class Toolkit (F : Type) : Type := {
  MeasureText : string -> F -> TextStyle -> Size F;
  theme_Padding : F;
  theme_TextSize : F;
  theme_Size : string -> F
}.

(** ** Segments *)

Definition passwordChar : string := "•".

Record RichTextStyle : Type := {
  Alignment : TextAlign;
  ColorName : string;
  Inline : bool;
  SizeName : string;
  Style_TextStyle : TextStyle
}.

Record TextSegment : Type := {
  Style : RichTextStyle;
  Text : string;
  concealed : bool
}.

(** A [RichTextSegment] is a [*TextSegment] or a value of another type
    that implements the interface, of which the container uses the
    results of [Inline()] and [Textual()]. The pointers are taken to be
    non-nil and distinct entries of a segment list to be distinct
    objects, so a segment is held by value. [OtherSeg] stands for a
    segment whose [Textual()] returns: the table segments of
    markdown.go, whose [Textual()] panics, are not among them, and a
    statement about [String] or [len] is one about lists without them. *)
Inductive RichTextSegment : Type :=
  | TextSeg (t : TextSegment)
  | OtherSeg (inline : bool) (textual : string).

Definition Segment_Inline (s : RichTextSegment) : bool :=
  match s with
  | TextSeg t => Inline (Style t)
  | OtherSeg i _ => i
  end.

Definition Textual (s : RichTextSegment) : string :=
  match s with
  | TextSeg t => Text t
  | OtherSeg _ x => x
  end.

Definition TextSegment_size `{Toolkit F} (t : TextSegment) : F :=
  if String.eqb (SizeName (Style t)) EmptyString then theme_TextSize
  else theme_Size (SizeName (Style t)).

Record rowBoundary : Type := mkRow {
  seg : TextSegment;
  begin : Z;
  end_ : Z;
  inline : bool
}.

(** ** The wrap engine *)

(** The loop of [splitLines] over the runes from index [i] on. *)
Fixpoint splitLines_loop (s : TextSegment) (text : list rune) (i low : Z)
    (lines : list rowBoundary) : list rowBoundary * Z :=
  match text with
  | [] => (lines, low)
  | c :: rest =>
      if c =? 10
      then splitLines_loop s rest (i + 1) (i + 1) (lines ++ [mkRow s low i false])
      else splitLines_loop s rest (i + 1) low lines
  end.

Definition splitLines (s : TextSegment) : list rowBoundary :=
  let text := runes_of_string (Text s) in
  let length := len text in
  let '(lines, low) := splitLines_loop s text 0 0 [] in
  lines ++ [mkRow s low length true].

(** The loop of [findSpaceIndex]; it runs at most [fallback + 1] times. *)
Fixpoint findSpace_loop (text : list rune) (fuel : nat) (curIndex : Z) : Z :=
  match fuel with
  | O => curIndex
  | S fuel' =>
      if curIndex >=? 0 then
        if IsSpace (index text curIndex) then curIndex
        else findSpace_loop text fuel' (curIndex - 1)
      else curIndex
  end.

Definition findSpaceIndex (text : list rune) (fallback : Z) : Z :=
  let curIndex := findSpace_loop text (Z.to_nat (fallback + 1)) fallback in
  if curIndex <? 0 then fallback else curIndex.

Section LineBounds.
Context `{Float32 F}.
Variable s : TextSegment.
Variable wrap : TextWrap.
Variable maxWidth : F.
Variable measurer : list rune -> F.

Let text : list rune := runes_of_string (Text s).

Definition checker (low high : Z) : bool :=
  f_le (measurer (subslice text low high)) maxWidth.

(** [for low < high { ... }] of the case [TextWrapBreak], for the line
    that ends at [l_end]. [None]: the fuel ran out before the loop
    ended. *)
Fixpoint wrapBreak (fuel : nat) (l_end low high : Z)
    (bounds : list rowBoundary) : option (list rowBoundary) :=
  match fuel with
  | O => None
  | S fuel' =>
      if low <? high then
        if f_le (measurer (subslice text low high)) maxWidth
        then wrapBreak fuel' l_end high l_end (bounds ++ [mkRow s low high false])
        else wrapBreak fuel' l_end low (binarySearch checker low high) bounds
      else Some bounds
  end.

(** [for low < high { ... }] of the case [TextWrapWord]. *)
Fixpoint wrapWord (fuel : nat) (l_end low high : Z)
    (bounds : list rowBoundary) : option (list rowBoundary) :=
  match fuel with
  | O => None
  | S fuel' =>
      if low <? high then
        let sub := subslice text low high in
        if f_le (measurer sub) maxWidth
        then
          let bounds := bounds ++ [mkRow s low high false] in
          let low := high in
          let high := l_end in
          let low :=
            if (low <? high) && IsSpace (index text low) then low + 1 else low in
          wrapWord fuel' l_end low high bounds
        else
          let last := low + len sub - 1 in
          let high :=
            low + findSpaceIndex sub (binarySearch checker low last - low) in
          wrapWord fuel' l_end low high bounds
      else Some bounds
  end.

(** Enough rounds for a wrapping loop on a line of [n] runes: a round
    either moves [low] up or, with [low] fixed, moves [high] down. *)
Definition loop_fuel (n : Z) : nat := Z.to_nat ((n + 1) * (n + 2) + 1).

(** The body of [for _, l := range lines]. *)
Definition lineBounds_step (bounds : list rowBoundary) (l : rowBoundary) : option (list rowBoundary) :=
  let low := begin l in
  let high := end_ l in
  if low =? high then Some (bounds ++ [l])
  else
    match wrap with
    | TextTruncate =>
        let high := binarySearch checker low high in
        Some (bounds ++ [mkRow s low high false])
    | TextWrapBreak => wrapBreak (loop_fuel (high - low)) (end_ l) low high bounds
    | TextWrapWord => wrapWord (loop_fuel (high - low)) (end_ l) low high bounds
    | _ => Some bounds
    end.

Fixpoint lineBounds_loop (lines bounds : list rowBoundary)
    : option (list rowBoundary) :=
  match lines with
  | [] => Some bounds
  | l :: rest =>
      match lineBounds_step bounds l with
      | Some bounds' => lineBounds_loop rest bounds'
      | None => None
      end
  end.

Definition is_off (w : TextWrap) : bool :=
  match w with TextWrapOff => true | _ => false end.

(** [lineBounds]; [None] only if a wrapping loop ran out of fuel, which
    [lineBounds_total] excludes. *)
Definition lineBounds : option (list rowBoundary) :=
  let lines := splitLines s in
  if f_le maxWidth f_zero || is_off wrap then Some lines
  else lineBounds_loop lines [].
End LineBounds.

(** ** The rich text container *)

Record RichText (F : Type) : Type := mkRichText {
  Segments : list RichTextSegment;
  Wrapping : TextWrap;
  size : Size F;
  inset : Size F;
  rowBounds : list rowBoundary
}.
Arguments mkRichText {F} _ _ _ _ _.
Arguments Segments {F} _.
Arguments Wrapping {F} _.
Arguments size {F} _.
Arguments inset {F} _.
Arguments rowBounds {F} _.

Section Container.
Context `{Float32 F} `{Toolkit F} `{GoRuntime}.

Definition with_Segments (t : RichText F) (segs : list RichTextSegment) : RichText F :=
  mkRichText segs (Wrapping t) (size t) (inset t) (rowBounds t).

Definition with_rowBounds (t : RichText F) (bounds : list rowBoundary) : RichText F :=
  mkRichText (Segments t) (Wrapping t) (size t) (inset t) bounds.

(** [String]: the text of all segments (each of which has a text, see
    [RichTextSegment]). *)
Definition RichText_String (t : RichText F) : string :=
  fold_left (fun ret sg => String.append ret (Textual sg)) (Segments t) EmptyString.

(** [len]: the number of runes of all segments (each of which has a
    text, see [RichTextSegment]). *)
Definition RichText_len (t : RichText F) : Z :=
  fold_left (fun ret sg => ret + len (runes_of_string (Textual sg))) (Segments t) 0.

(** [bounds[len(bounds)-1].inline = seg.Inline()]. *)
Definition set_last_inline (bounds : list rowBoundary) (i : bool) : list rowBoundary :=
  match List.rev bounds with
  | [] => bounds
  | b :: front => List.rev front ++ [mkRow (seg b) (begin b) (end_ b) i]
  end.

(** The measurer [updateRowBounds] hands to [lineBounds]. *)
Definition segment_measurer (textSeg : TextSegment) (text : list rune) : F :=
  Width (MeasureText (string_of_runes text) (TextSegment_size textSeg)
                     (Style_TextStyle (Style textSeg))).

(** The loop of [updateRowBounds] over the segments. *)
Fixpoint updateRowBounds_loop (t : RichText F) (segs : list RichTextSegment)
    (bounds : list rowBoundary) : option (list rowBoundary) :=
  match segs with
  | [] => Some bounds
  | OtherSeg _ _ :: rest => updateRowBounds_loop t rest bounds
  | TextSeg textSeg :: rest =>
      let maxWidth := f_sub (Width (size t)) (f_mul (f_of_int 2) theme_Padding) in
      match lineBounds textSeg (Wrapping t) maxWidth (segment_measurer textSeg) with
      | None => None
      | Some lb =>
          let bounds := bounds ++ lb in
          if len bounds =? 0 then updateRowBounds_loop t rest bounds
          else updateRowBounds_loop t rest
                 (set_last_inline bounds (Segment_Inline (TextSeg textSeg)))
      end
  end.

Definition updateRowBounds (t : RichText F) : option (RichText F) :=
  match updateRowBounds_loop t (Segments t) [] with
  | Some bounds => Some (with_rowBounds t bounds)
  | None => None
  end.

(** [Refresh] recomputes the row bounds and then asks the base widget to
    redraw, which is outside this file. Where the wrapping loops of
    [lineBounds] are known to end ([lineBounds_total]) the first branch is
    the one taken. *)
Definition Refresh (t : RichText F) : RichText F :=
  match updateRowBounds t with
  | Some t' => t'
  | None => t
  end.

(** The lookup loop shared by [insertAt] and [deleteFromTo]: the last
    text segment seen and its index, stopping at the first text segment
    whose cumulative end exceeds [pos]. *)
Fixpoint locate (segs : list RichTextSegment) (pos : Z) (i start : Z)
    (found : option (Z * TextSegment)) : option (Z * TextSegment) :=
  match segs with
  | [] => found
  | OtherSeg _ _ :: rest => locate rest pos (i + 1) start found
  | TextSeg ts :: rest =>
      let end' := start + len (runes_of_string (Text ts)) in
      if end' >? pos then Some (i, ts)
      else locate rest pos (i + 1) end' (Some (i, ts))
  end.

Definition with_Text (ts : TextSegment) (text : string) : TextSegment :=
  {| Style := Style ts; Text := text; concealed := concealed ts |}.

(** [into.Text = string(r2); t.Segments[index] = into], for an index the
    loop found. Go writes the text through the pointer; with the segments
    held by value that is the new entry at [index], and the two agree
    when no other entry of the list holds the same [*TextSegment]. *)
Definition store_segment (t : RichText F) (i : Z) (ts : TextSegment) : RichText F :=
  with_Segments t (<[Z.to_nat i := TextSeg ts]> (Segments t)).

Definition insertAt (t : RichText F) (pos : Z) (runes : string)
    : run (RichText F) :=
  match locate (Segments t) pos 0 0 None with
  | None => Returns t
  | Some (i, into) =>
      let r := stringtoslicerune (Text into) in
      front ← slice_to r pos;
      back ← slice_from r pos;
      let r2 := append_runes front (runes_of_string runes ++ elems back) in
      let into := with_Text into (string_of_runes r2) in
      Returns (Refresh (store_segment t i into))
  end.

Definition deleteFromTo (t : RichText F) (lowBound highBound : Z)
    : run (string * RichText F) :=
  match locate (Segments t) lowBound 0 0 None with
  | None => Returns (EmptyString, t)
  | Some (i, from) =>
      deleted ← make_runes (highBound - lowBound);
      let r := stringtoslicerune (Text from) in
      src ← reslice r lowBound highBound;
      let deleted := copy_runes deleted (elems src) in
      let highBound := if highBound >? slen r then slen r else highBound in
      front ← slice_to r lowBound;
      back ← slice_from r highBound;
      let r2 := append_runes front (elems back) in
      let from := with_Text from (string_of_runes r2) in
      Returns (string_of_runes deleted, Refresh (store_segment t i from))
  end.

Definition rows (t : RichText F) : Z := len (rowBounds t).

(** [rowBoundary(row)]: [None] is the nil pointer. *)
Definition RichText_rowBoundary (t : RichText F) (row : Z) : option rowBoundary :=
  if (row <? 0) || (row >=? rows t) then None
  else rowBounds t !! Z.to_nat row.

(** [row(row)]: the runes of the row; the nil slice is the empty list. *)
Definition RichText_row (t : RichText F) (row : Z) : list rune :=
  match RichText_rowBoundary t row with
  | None => []
  | Some bounds =>
      let from := begin bounds in
      let to := end_ bounds in
      let b := runes_of_string (Text (seg bounds)) in
      if (from <? 0) || (to >? len b) then []
      else if to <? from then []
      else subslice b from to
  end.

Definition charMinSize (t : RichText F) (conceal : bool) : run (Size F) :=
  let defaultChar := if conceal then passwordChar else "M"%string in
  match Segments t with
  | [] => Panics
  | OtherSeg _ _ :: _ => Panics
  | TextSeg ts :: _ =>
      Returns (MeasureText defaultChar (TextSegment_size ts)
                           (Style_TextStyle (Style ts)))
  end.

(** One round of the loop of [MinSize], on the pair (width, height). *)
Definition MinSize_step (t : RichText F) (charMin concealedMin : Size F)
    (count : Z) (acc : F * F) (i : Z) : run (F * F) :=
  let '(width, height) := acc in
  let str := string_of_runes (RichText_row t i) in
  match RichText_rowBoundary t i with
  | None => Panics
  | Some bound =>
      let min := MeasureText str (TextSegment_size (seg bound))
                             (Style_TextStyle (Style (seg bound))) in
      let min :=
        if String.eqb str EmptyString then
          if concealed (seg bound) then concealedMin else charMin
        else min in
      let width :=
        if is_off (Wrapping t) then f_max width (Width min) else width in
      let height :=
        if (i =? count - 1) || negb (inline bound)
        then f_add height (Height min) else height in
      Returns (width, height)
  end.

Fixpoint MinSize_loop (t : RichText F) (charMin concealedMin : Size F)
    (count : Z) (todo : nat) (i : Z) (acc : F * F) : run (F * F) :=
  match todo with
  | O => Returns acc
  | S todo' =>
      acc' ← MinSize_step t charMin concealedMin count acc i;
      MinSize_loop t charMin concealedMin count todo' (i + 1) acc'
  end.

Definition MinSize (t : RichText F) : run (Size F) :=
  charMin ← charMinSize t false;
  concealedMin ← charMinSize t true;
  let count := rows t in
  '(width, height) ← MinSize_loop t charMin concealedMin count (Z.to_nat count) 0
                       (f_zero, f_zero);
  let height := if f_eq height f_zero then Height charMin else height in
  let pad := f_mul theme_Padding (f_of_int 4) in
  Returns (Size_Add (NewSize width height)
             (Size_Subtract (Size_Subtract (NewSize pad pad) (inset t)) (inset t))).
End Container.

(** ** Vocabulary of the statements *)

(** [reached fits low h]: the candidate [h] of a search from [low] is
    [low] itself or a point the predicate accepted. *)
Definition reached (fits : Z -> Z -> bool) (low h : Z) : Prop :=
  h = low \/ fits low h = true.

(** The candidate the halving loop hands to the second loop. *)
Definition halved (fits : Z -> Z -> bool) (low maxHigh : Z) : Z :=
  match int_sub maxHigh low with
  | Z.pos delta => halving fits low delta low
  | _ => low
  end.

Definition downward_closed (fits : Z -> Z -> bool) : Prop :=
  forall low h h', fits low h = true -> low <= h' <= h -> fits low h' = true.

(** [r] is the largest [high] in [[low, maxHigh]] that fits. *)
Definition largest_fit (fits : Z -> Z -> bool) (low maxHigh r : Z) : Prop :=
  low <= r <= maxHigh /\ fits low r = true
  /\ forall h, r < h <= maxHigh -> fits low h = false.

(** The contract of [binarySearch] as the specification words it. *)
Definition binarySearch_contract (fits : Z -> Z -> bool) (low maxHigh : Z) : Prop :=
  (low >= maxHigh -> binarySearch fits low maxHigh = low)
  /\ (low < maxHigh -> fits low maxHigh = true ->
      binarySearch fits low maxHigh = maxHigh)
  /\ (low < maxHigh -> fits low maxHigh = false ->
      largest_fit fits low maxHigh (binarySearch fits low maxHigh)).

(** The runes of a row. *)
Definition row_text (text : list rune) (b : rowBoundary) : list rune :=
  subslice text (begin b) (end_ b).

Definition in_bounds (text : list rune) (b : rowBoundary) : Prop :=
  0 <= begin b /\ begin b <= end_ b /\ end_ b <= len text.

(** Rows put back together with a newline between them. *)
Fixpoint join_lines (rows : list (list rune)) : list rune :=
  match rows with
  | [] => []
  | [r] => r
  | r :: rest => r ++ 10 :: join_lines rest
  end.

(** The boundaries the loop of [splitLines] and the final [append] add,
    seen from index [i] with the current line starting at [low]. *)
Fixpoint lines_from (s : TextSegment) (rest : list rune) (i low : Z)
    : list rowBoundary :=
  match rest with
  | [] => [mkRow s low i true]
  | c :: rest' =>
      if c =? 10 then mkRow s low i false :: lines_from s rest' (i + 1) (i + 1)
      else lines_from s rest' (i + 1) low
  end.

(** [pieces text lo rows e]: the rows are pieces of the text in order,
    the first begins at [lo], each next one begins where the one before
    ended or one whitespace rune later, and [e] is where the last one
    ended (after the whitespace rune, if one was skipped). *)
Inductive pieces (text : list rune) : Z -> list rowBoundary -> Z -> Prop :=
  | pieces_nil lo : pieces text lo [] lo
  | pieces_cons lo b nxt rest e :
      begin b = lo ->
      lo <= end_ b ->
      nxt = end_ b \/ (nxt = end_ b + 1 /\ IsSpace (index text (end_ b)) = true) ->
      pieces text nxt rest e ->
      pieces text lo (b :: rest) e.

(** The rows with the runes skipped between them put back, up to [e]. *)
Fixpoint respell (text : list rune) (rows : list rowBoundary) (e : Z) : list rune :=
  match rows with
  | [] => []
  | b :: rest =>
      let nxt := match rest with [] => e | b' :: _ => begin b' end in
      row_text text b ++ subslice text (end_ b) nxt ++ respell text rest e
  end.

(** A row that is one whitespace-free run wider than [maxWidth]. *)
Definition overlong_token `{Float32 F} (text : list rune) (maxWidth : F)
    (measurer : list rune -> F) (b : rowBoundary) : Prop :=
  Forall (fun r => IsSpace r = false) (row_text text b)
  /\ f_le (measurer (row_text text b)) maxWidth = false.

(** Widths as integers: the instance the examples run on. *)
Definition Z_Float32 : Float32 Z := {|
  f_zero := 0;
  f_of_int := fun z => z;
  f_le := Z.leb;
  f_eq := Z.eqb;
  f_add := Z.add;
  f_sub := Z.sub;
  f_mul := Z.mul;
  f_max := Z.max
|}.

Definition plain (text : string) : TextSegment :=
  {| Style := {| Alignment := TextAlignLeading; ColorName := "foreground";
                 Inline := true; SizeName := "text";
                 Style_TextStyle := {| Bold := false; Italic := false;
                                       Monospace := false; Symbol := false;
                                       TabWidth := 0 |} |};
     Text := text; concealed := false |}.

(** A measurer that gives every rune the width 10. *)
Definition ten_per_rune (text : list rune) : Z := 10 * len text.

(** A row a wrapping loop adds for the line part [[lo, hi]]: not empty,
    inside the part, and no wider than [maxWidth]. *)
Definition fitting_row `{Float32 F} (s : TextSegment) (maxWidth : F)
    (measurer : list rune -> F) (lo hi : Z) (b : rowBoundary) : Prop :=
  seg b = s /\ inline b = false
  /\ lo <= begin b /\ begin b < end_ b /\ end_ b <= hi
  /\ f_le (measurer (row_text (runes_of_string (Text s)) b)) maxWidth = true.

(** The mode [lineBounds] works in: a width that is not positive turns
    wrapping off. *)
Definition effective_wrap `{Float32 F} (wrap : TextWrap) (maxWidth : F) : TextWrap :=
  if f_le maxWidth f_zero || is_off wrap then TextWrapOff else wrap.

(** [line_rows s w maxWidth measurer l g]: [g] is what [lineBounds], in
    the mode [w], makes of the physical line [l]. *)
Definition line_rows `{Float32 F} (s : TextSegment) (w : TextWrap) (maxWidth : F)
    (measurer : list rune -> F) (l : rowBoundary) (g : list rowBoundary) : Prop :=
  let text := runes_of_string (Text s) in
  if is_off w || (begin l =? end_ l) then g = [l]
  else
    match w with
    | TextTruncate =>
        g = [mkRow s (begin l)
               (binarySearch (checker s maxWidth measurer) (begin l) (end_ l)) false]
    | TextWrapBreak =>
        exists e,
          pieces text (begin l) g e /\ e <= end_ l
          /\ Forall (fitting_row s maxWidth measurer (begin l) (end_ l)) g
          /\ concat (map (row_text text) g) = subslice text (begin l) e
          /\ ((forall i, begin l <= i < end_ l ->
                 checker s maxWidth measurer i (i + 1) = true) -> e = end_ l)
    | TextWrapWord =>
        exists e,
          pieces text (begin l) g e /\ e <= end_ l
          /\ Forall (fitting_row s maxWidth measurer (begin l) (end_ l)) g
    | _ => g = []
    end.

(** The round trip as the specification words it: the rows, each
    followed by nothing or by one whitespace rune (a newline is one),
    spell out the text. *)
Definition reconstructs (rows : list (list rune)) (text : list rune) : Prop :=
  exists seps : list (list rune),
    length seps = length rows
    /\ Forall (fun sp => sp = [] \/ exists w, sp = [w] /\ IsSpace w = true) seps
    /\ concat (zip_with app rows seps) = text.

Definition roundtrip_claim `{Float32 F} (s : TextSegment) (wrap : TextWrap)
    (maxWidth : F) (measurer : list rune -> F) : Prop :=
  forall rows, lineBounds s wrap maxWidth measurer = Some rows ->
    reconstructs (map (row_text (runes_of_string (Text s))) rows)
                 (runes_of_string (Text s)).

(** An unbreakable token: a maximal run of runes without whitespace,
    from index [a] up to index [b]. *)
Definition unbreakable_token (text : list rune) (a b : Z) : Prop :=
  0 <= a /\ a < b /\ b <= len text
  /\ Forall (fun r => IsSpace r = false) (subslice text a b)
  /\ (a = 0 \/ IsSpace (index text (a - 1)) = true)
  /\ (b = len text \/ IsSpace (index text b) = true).

(** A measurer that does not shrink when runes are added. *)
Definition monotone_measurer `{Float32 F} (measurer : list rune -> F) : Prop :=
  forall a b : list rune, f_le (measurer a) (measurer (a ++ b)) = true.

(** Word wrap as the specification words it: for a monotone measurer and
    a positive width every row fits or is an unbreakable token, and an
    unbreakable token wider than [maxWidth] occupies a row of its own in
    full. *)
Definition word_wrap_claim `{Float32 F} (s : TextSegment) (maxWidth : F)
    (measurer : list rune -> F) : Prop :=
  monotone_measurer measurer -> f_le maxWidth f_zero = false ->
  exists rows,
    lineBounds s TextWrapWord maxWidth measurer = Some rows
    /\ Forall (fun b =>
         f_le (measurer (row_text (runes_of_string (Text s)) b)) maxWidth = true
         \/ unbreakable_token (runes_of_string (Text s)) (begin b) (end_ b)) rows
    /\ (forall a b,
          unbreakable_token (runes_of_string (Text s)) a b ->
          f_le (measurer (subslice (runes_of_string (Text s)) a b)) maxWidth = false ->
          exists row, row ∈ rows /\ begin row = a /\ end_ row = b).

(** A rune [string(r)] keeps: a Unicode scalar value. *)
Definition valid_rune (r : rune) : Prop :=
  0 <= r <= MaxRune /\ ~ (surrogateMin <= r <= surrogateMax).

(** A string the conversion to runes and back leaves as it is: valid
    UTF-8. *)
Definition valid_utf8 (s : string) : Prop :=
  string_of_runes (runes_of_string s) = s.

Definition is_text (sg : RichTextSegment) : bool :=
  match sg with
  | TextSeg _ => true
  | OtherSeg _ _ => false
  end.

(** The segment list holds no [*TextSegment] (it may be empty). *)
Definition no_text_segment (segs : list RichTextSegment) : Prop :=
  Forall (fun sg => is_text sg = false) segs.

Definition first_is_text (segs : list RichTextSegment) : Prop :=
  exists ts rest, segs = TextSeg ts :: rest.

(** A toolkit for the examples: ten units a byte, lines twenty high. *)
Definition test_toolkit : Toolkit Z := {|
  MeasureText := fun str _ _ => NewSize (10 * Z.of_nat (String.length str)) 20;
  theme_Padding := 4;
  theme_TextSize := 14;
  theme_Size := fun _ => 14
|}.

(** A rich text with the given segments, wrapping off, 200 wide. *)
Definition test_text (segs : list RichTextSegment) : RichText Z :=
  mkRichText segs TextWrapOff (NewSize 200 100) (NewSize 0 0) [].

(** The string of the single byte 0xFF, which is not valid UTF-8. *)
Definition invalid_string : string := String (ascii_of_nat 255) EmptyString.

(** The round trip of insertion and deletion as the specification words
    it, for a rich text [t] whose single segment is [ts]. *)
Definition insert_delete_claim `{Float32 F} `{Toolkit F} `{GoRuntime}
    (t : RichText F) (ts : TextSegment) (pos : Z) (s : string) : Prop :=
  exists t1 t2,
    insertAt t pos s = Returns t1
    /\ deleteFromTo t1 pos (pos + len (runes_of_string s)) = Returns (s, t2)
    /\ map Textual (Segments t2) = [Text ts].

(** ** Vocabulary of the further properties *)

(** Every row ends where the rows after it have not begun yet. *)
Fixpoint ordered_rows (rows : list rowBoundary) : Prop :=
  match rows with
  | [] => True
  | b :: rest => Forall (fun b' => end_ b <= begin b') rest /\ ordered_rows rest
  end.

(** Every line ends before the lines after it begin. *)
Fixpoint separated_lines (lines : list rowBoundary) : Prop :=
  match lines with
  | [] => True
  | l :: rest => Forall (fun l' => end_ l < begin l') rest /\ separated_lines rest
  end.

(** ** Constructors and row queries of the rich text *)

(** The names [theme.ColorNameForeground] and [theme.SizeNameText]. *)
Class ThemeNames : Type := {
  ColorNameForeground : string;
  SizeNameText : string
}.

(** The zero value of [fyne.TextStyle]. *)
Definition TextStyle_zero : TextStyle :=
  {| Bold := false; Italic := false; Monospace := false; Symbol := false;
     TabWidth := 0 |}.

Definition RichTextStyleInline `{ThemeNames} : RichTextStyle :=
  {| Alignment := TextAlignLeading; ColorName := ColorNameForeground;
     Inline := true; SizeName := SizeNameText; Style_TextStyle := TextStyle_zero |}.

Definition RichTextStyleParagraph `{ThemeNames} : RichTextStyle :=
  {| Alignment := TextAlignLeading; ColorName := ColorNameForeground;
     Inline := false; SizeName := SizeNameText; Style_TextStyle := TextStyle_zero |}.

(** [NewRichText]: the other fields have their zero values (wrapping off,
    size zero) when [updateRowBounds] runs. *)
Definition NewRichText `{Float32 F} `{Toolkit F} (segments : list RichTextSegment)
    : RichText F :=
  Refresh (mkRichText segments TextWrapOff (NewSize f_zero f_zero)
             (NewSize f_zero f_zero) []).

Definition NewRichTextWithText `{Float32 F} `{Toolkit F} `{ThemeNames}
    (text : string) : RichText F :=
  NewRichText [TextSeg {| Style := RichTextStyleInline; Text := text;
                          concealed := false |}].

(** [rowLength]. *)
Definition RichText_rowLength {F} (t : RichText F) (row : Z) : Z :=
  len (RichText_row t row).

(** The width [updateRowBounds] wraps at. *)
Definition RichText_maxWidth `{Float32 F} `{Toolkit F} (t : RichText F) : F :=
  f_sub (Width (size t)) (f_mul (f_of_int 2) theme_Padding).

(** The text segments of a segment list, in order. *)
Fixpoint text_segments (segs : list RichTextSegment) : list TextSegment :=
  match segs with
  | [] => []
  | TextSeg ts :: rest => ts :: text_segments rest
  | OtherSeg _ _ :: rest => text_segments rest
  end.

(** The indices [0 .. n-1]. *)
Definition indices (n : Z) : list Z := map Z.of_nat (seq 0 (Z.to_nat n)).

(** ** The renderer's objects *)

(** [s[lo:hi]] on a string: a slice of its bytes, with the bounds checked
    against the length in bytes. *)
Definition byte_slice (s : string) (lo hi : Z) : run string :=
  if (0 <=? lo) && (lo <=? hi) && (hi <=? Z.of_nat (String.length s))
  then Returns (substring (Z.to_nat lo) (Z.to_nat (hi - lo)) s)
  else Panics.

Fixpoint repeat_string (s : string) (n : nat) : string :=
  match n with
  | O => EmptyString
  | S n' => String.append s (repeat_string s n')
  end.

(** [strings.Repeat] panics on a negative count. *)
Definition strings_Repeat (s : string) (count : Z) : run string :=
  if count <? 0 then Panics else Returns (repeat_string s (Z.to_nat count)).

(** The text of the [canvas.Text] the loop of [textRenderer.Refresh] makes
    for a row: [Visual] gives it the text of the segment, the loop cuts it
    to the row and conceals it. *)
Definition row_object_text (bound : rowBoundary) : run string :=
  let txt := Text (seg bound) in
  txt ← (if negb (begin bound =? 0)
            || negb (end_ bound =? len (runes_of_string txt))
         then byte_slice txt (begin bound) (end_ bound)
         else Returns txt);
  if concealed (seg bound)
  then strings_Repeat passwordChar (len (runes_of_string txt))
  else Returns txt.

(** The loop of [textRenderer.Refresh]: the texts of the objects handed
    to [SetObjects]; a nil boundary is dereferenced. *)
Fixpoint Refresh_objects_loop {F} (t : RichText F) (todo : nat) (index : Z)
    (objs : list string) : run (list string) :=
  match todo with
  | O => Returns objs
  | S todo' =>
      match RichText_rowBoundary t index with
      | None => Panics
      | Some bound =>
          txt ← row_object_text bound;
          Refresh_objects_loop t todo' (index + 1) (objs ++ [txt])
      end
  end.

Definition Refresh_objects {F} (t : RichText F) : run (list string) :=
  Refresh_objects_loop t (Z.to_nat (rows t)) 0 [].

(** A string of ASCII bytes. *)
Definition ascii_only (s : string) : Prop :=
  Forall (fun c => byte_val c < 0x80) (list_ascii_of_string s).

(** ** The layout of the renderer *)

(** A call [layoutRow(texts, align, xPos, yPos, lineWidth, lineHeight)]. *)
Record layoutRow_call (A F : Type) : Type := mkCall {
  call_texts : list A;
  call_align : TextAlign;
  call_xPos : F;
  call_yPos : F;
  call_lineWidth : F;
  call_lineHeight : F
}.
Arguments mkCall {A F} _ _ _ _ _ _.
Arguments call_texts {A F} _.
Arguments call_align {A F} _.
Arguments call_xPos {A F} _.
Arguments call_yPos {A F} _.
Arguments call_lineWidth {A F} _.
Arguments call_lineHeight {A F} _.

(** The loop of [textRenderer.Layout] over the objects, as the calls of
    [layoutRow] it makes; [n] is [len(r.Objects())] and [i] the index of
    the first object of [objs]. *)
Fixpoint Layout_loop {A} `{Float32 F} (bounds : list rowBoundary) (n : Z)
    (left lineWidth lineHeight : F) (objs : list A) (i : Z) (rowTexts : list A)
    (rowAlign : TextAlign) (yPos : F) (calls : list (layoutRow_call A F))
    : list (layoutRow_call A F) :=
  match objs with
  | [] => calls
  | obj :: rest =>
      let rowTexts := rowTexts ++ [obj] in
      let bound := if i <? len bounds then bounds !! Z.to_nat i else None in
      let rowAlign :=
        match bound with
        | Some b => if len rowTexts =? 1 then Alignment (Style (seg b)) else rowAlign
        | None => rowAlign
        end in
      if (i <? n - 1) && match bound with None => true | Some b => inline b end
      then Layout_loop bounds n left lineWidth lineHeight rest (i + 1)
             rowTexts rowAlign yPos calls
      else Layout_loop bounds n left lineWidth lineHeight rest (i + 1)
             [] rowAlign (f_add yPos lineHeight)
             (calls ++ [mkCall rowTexts rowAlign left yPos lineWidth lineHeight])
  end.

(** [textRenderer.Layout] on the objects [objs] of the renderer. *)
Definition Layout {A} `{Float32 F} `{Toolkit F} (t : RichText F) (size : Size F)
    (objs : list A) : run (list (layoutRow_call A F)) :=
  let bounds := rowBounds t in
  let left := f_sub (f_mul theme_Padding (f_of_int 2)) (Width (inset t)) in
  let yPos := f_sub (f_mul theme_Padding (f_of_int 2)) (Height (inset t)) in
  charMin ← charMinSize t false;
  let lineHeight := Height charMin in
  let lineWidth := f_sub (Width size) (f_mul yPos (f_of_int 2)) in
  Returns (Layout_loop bounds (len objs) left lineWidth lineHeight objs 0 []
             TextAlignLeading yPos []).

(** [y + h + ... + h], with [k] additions. *)
Fixpoint add_times `{Float32 F} (y h : F) (k : nat) : F :=
  match k with
  | O => y
  | S k' => add_times (f_add y h) h k'
  end.

(** ** The size of a line up to a column *)

(** [canvas.Text.MinSize] for a text, its size and its style. *)
Class Canvas (F : Type) : Type := {
  Text_MinSize : string -> F -> TextStyle -> Size F
}.

(** [row(row)] with the nil slice told apart from an empty row: [None]
    is nil. The conversion [[]rune(s)] and a slice expression on its
    result are never nil. *)
Definition RichText_row_nil {F} (t : RichText F) (row : Z) : option (list rune) :=
  if (row <? 0) || (row >=? rows t) then None
  else
    match rowBounds t !! Z.to_nat row with
    | None => None
    | Some bounds =>
        let from := begin bounds in
        let to := end_ bounds in
        let b := runes_of_string (Text (seg bounds)) in
        if (from <? 0) || (to >? len b) then None
        else if to <? from then None
        else Some (subslice b from to)
    end.

Definition lineSizeToColumn `{Float32 F} `{Toolkit F} `{Canvas F}
    (t : RichText F) (col row : Z) : run (Size F) :=
  match RichText_row_nil t row with
  | None => Returns (NewSize f_zero f_zero)
  | Some line =>
      let col := if col >=? len line then len line else col in
      if col <? 0 then Panics
      else
        let measureText := string_of_runes (take (Z.to_nat col) line) in
        match RichText_rowBoundary t row with
        | None => Panics
        | Some bound =>
            measureText ← (if concealed (seg bound)
                           then strings_Repeat passwordChar col
                           else Returns measureText);
            Returns (Size_Add
                       (Text_MinSize measureText (TextSegment_size (seg bound))
                                     (Style_TextStyle (Style (seg bound))))
                       (NewSize (f_sub theme_Padding (Width (inset t)))
                                f_zero))
        end
  end.

(** ** The table segment (markdown.go) *)

(** The comparison [<] of [float32]. *)
Class Float32Lt (F : Type) : Type := { f_lt : F -> F -> bool }.

(** The step both loops of [resize] make on [heights] and [widths]:
    append when the slice ends before the index, and otherwise keep the
    larger value at the index. *)
Definition raise_at `{Float32Lt F} (xs : list F) (i : Z) (v : F) : run (list F) :=
  if len xs <? i + 1 then Returns (xs ++ [v])
  else
    match xs !! Z.to_nat i with
    | None => Panics
    | Some x => Returns (if f_lt x v then <[Z.to_nat i := v]> xs else xs)
    end.

(** The inner loop of [resize] over the cells of row [i], from column
    [j]; a cell is given by its content. *)
Fixpoint resize_cells `{Float32 F} `{Toolkit F} `{Float32Lt F}
    (cells : list (RichText F)) (i j : Z) (acc : list F * list F)
    : run (list F * list F) :=
  match cells with
  | [] => Returns acc
  | cell :: rest =>
      let '(widths, heights) := acc in
      w ← MinSize cell;
      h ← MinSize cell;
      heights ← raise_at heights i (Height h);
      widths ← raise_at widths j (Width w);
      resize_cells rest i (j + 1) (widths, heights)
  end.

Fixpoint resize_rows `{Float32 F} `{Toolkit F} `{Float32Lt F}
    (rows : list (list (RichText F))) (i : Z) (acc : list F * list F)
    : run (list F * list F) :=
  match rows with
  | [] => Returns acc
  | row :: rest =>
      acc ← resize_cells row i 0 acc;
      resize_rows rest (i + 1) acc
  end.

(** What [resize] sets: the heights handed to [SetRowHeight], the widths
    handed to [SetColumnWidth], and the size of the segment. *)
Record table_layout (F : Type) : Type := mkTableLayout {
  row_heights : list F;
  column_widths : list F;
  table_size : Size F
}.
Arguments mkTableLayout {F} _ _ _.
Arguments row_heights {F} _.
Arguments column_widths {F} _.
Arguments table_size {F} _.

Definition TableSegment_resize `{Float32 F} `{Toolkit F} `{Float32Lt F}
    (rows : list (list (RichText F))) : run (table_layout F) :=
  '(widths, heights) ← resize_rows rows 0 ([], []);
  let height := fold_left (fun acc h => f_add acc (f_add h (f_of_int 4)))
                          heights f_zero in
  let width := fold_left (fun acc w => f_add acc (f_add w (f_of_int 16)))
                         widths f_zero in
  Returns (mkTableLayout heights (map (fun w => f_add w (f_of_int 8)) widths)
                         (NewSize width height)).

(** [bounds_all seen xs]: [seen k x] says that the value [x] was met for
    the index [k]; every entry of [xs] is a value met for its index, and
    no value met for an index is above the entry there. *)
Definition bounds_all `{Float32Lt F} (seen : nat -> F -> Prop) (xs : list F) : Prop :=
  (forall k x, seen k x -> exists w, xs !! k = Some w /\ f_lt w x = false)
  /\ (forall k w, xs !! k = Some w -> seen k w).

(** The heights met in row [k] and the widths met in column [k] of a
    table. *)
Definition row_height_of `{Float32 F} `{Toolkit F}
    (rows : list (list (RichText F))) (k : nat) (x : F) : Prop :=
  exists row c v, rows !! k = Some row /\ c ∈ row
                  /\ MinSize c = Returns v /\ Height v = x.

Definition column_width_of `{Float32 F} `{Toolkit F}
    (rows : list (list (RichText F))) (k : nat) (x : F) : Prop :=
  exists row c v, row ∈ rows /\ row !! k = Some c
                  /\ MinSize c = Returns v /\ Width v = x.

(** The order of the integers, for the examples. *)
Definition Z_Float32Lt : Float32Lt Z := {| f_lt := Z.ltb |}.

(** * Properties *)

(** ** binarySearch *)

Lemma int_wrap_le (z : Z) : 0 <= z -> int_wrap z <= z.
Proof.
  intros Hz. unfold int_wrap, intSize.
  pose proof (Z.mod_le (z + 2 ^ (64 - 1)) (2 ^ 64)) as Hle.
  change (2 ^ (64 - 1)) with 9223372036854775808 in *.
  change (2 ^ 64) with 18446744073709551616 in *.
  lia.
Qed.

Lemma int_wrap_small (z : Z) : - 2 ^ 63 <= z < 2 ^ 63 -> int_wrap z = z.
Proof.
  intros Hz. unfold int_wrap, intSize.
  change (2 ^ (64 - 1)) with 9223372036854775808 in *.
  change (2 ^ 63) with 9223372036854775808 in *.
  change (2 ^ 64) with 18446744073709551616 in *.
  rewrite Z.mod_small; lia.
Qed.

Section BinarySearchFacts.
Variable fits : Z -> Z -> bool.
Variable low : Z.


Lemma probe_cases (high delta : Z) :
  (probe fits low high delta = high + delta /\ fits low (high + delta) = true)
  \/ probe fits low high delta = high.
Proof. unfold probe. destruct (fits low (high + delta)) eqn:E; auto. Qed.

Lemma halving_range (delta : positive) (high : Z) :
  high <= halving fits low delta high <= high + Z.pos delta - 1.
Proof.
  revert high. induction delta as [d IH | d IH |]; intros high; cbn [halving].
  - specialize (IH (probe fits low high (Z.pos d))).
    destruct (probe_cases high (Z.pos d)) as [[E _] | E]; rewrite E in *; lia.
  - specialize (IH (probe fits low high (Z.pos d))).
    destruct (probe_cases high (Z.pos d)) as [[E _] | E]; rewrite E in *; lia.
  - destruct (probe_cases high 0) as [[-> _] | ->]; lia.
Qed.

Lemma probe_reached (high delta : Z) :
  reached fits low high -> reached fits low (probe fits low high delta).
Proof.
  intros Hr. destruct (probe_cases high delta) as [[-> Hf] | ->]; [by right|done].
Qed.

Lemma halving_reached (delta : positive) (high : Z) :
  reached fits low high -> reached fits low (halving fits low delta high).
Proof.
  revert high. induction delta; intros high Hr; simpl;
    auto using probe_reached.
Qed.

Lemma stepping_ge (fuel : nat) (maxHigh high : Z) :
  high <= stepping fits low fuel maxHigh high.
Proof.
  revert high. induction fuel as [|n IH]; intros high; simpl; [lia|].
  destruct ((high <? maxHigh) && fits low (high + 1)); [|lia].
  specialize (IH (high + 1)). lia.
Qed.

Lemma stepping_le (fuel : nat) (maxHigh high : Z) :
  high <= maxHigh -> stepping fits low fuel maxHigh high <= maxHigh.
Proof.
  revert high. induction fuel as [|n IH]; intros high Hle; simpl; [lia|].
  destruct (high <? maxHigh) eqn:E; simpl; [|lia].
  destruct (fits low (high + 1)); [|lia].
  apply IH. lia.
Qed.

Lemma stepping_reached (fuel : nat) (maxHigh high : Z) :
  reached fits low high -> reached fits low (stepping fits low fuel maxHigh high).
Proof.
  revert high. induction fuel as [|n IH]; intros high Hr; simpl; [done|].
  destruct (high <? maxHigh); simpl; [|done].
  destruct (fits low (high + 1)) eqn:E; [|done].
  apply IH. by right.
Qed.

(** With the fuel [binarySearch] gives it, the second loop stops only
    where its condition fails. *)
Lemma stepping_stops (fuel : nat) (maxHigh high : Z) :
  (Z.to_nat (maxHigh - high) <= fuel)%nat ->
  stepping fits low fuel maxHigh high < maxHigh ->
  fits low (stepping fits low fuel maxHigh high + 1) = false.
Proof.
  revert high. induction fuel as [|n IH]; intros high Hfuel Hlt; simpl in *.
  - lia.
  - destruct (high <? maxHigh) eqn:E; simpl in *; [|lia].
    destruct (fits low (high + 1)) eqn:E'; [|done].
    apply IH; [lia|done].
Qed.

Lemma halved_range (maxHigh : Z) :
  low < maxHigh -> low <= halved fits low maxHigh < maxHigh.
Proof.
  intros Hlt. unfold halved, int_sub.
  pose proof (int_wrap_le (maxHigh - low)) as Hw.
  destruct (int_wrap (maxHigh - low)) as [|d|d] eqn:E; try lia.
  pose proof (halving_range d low). lia.
Qed.

Lemma halved_reached (maxHigh : Z) : reached fits low (halved fits low maxHigh).
Proof.
  unfold halved. destruct (int_sub maxHigh low); try by left.
  apply halving_reached. by left.
Qed.

Lemma binarySearch_low (maxHigh : Z) :
  low >= maxHigh -> binarySearch fits low maxHigh = low.
Proof.
  intros Hge. unfold binarySearch.
  destruct (low >=? maxHigh) eqn:E; [done|lia].
Qed.

Lemma binarySearch_whole (maxHigh : Z) :
  low < maxHigh -> fits low maxHigh = true ->
  binarySearch fits low maxHigh = maxHigh.
Proof.
  intros Hlt Hf. unfold binarySearch.
  destruct (low >=? maxHigh) eqn:E; [lia|]. by rewrite Hf.
Qed.

Lemma binarySearch_search (maxHigh : Z) :
  low < maxHigh -> fits low maxHigh = false ->
  binarySearch fits low maxHigh =
    stepping fits low (Z.to_nat (maxHigh - halved fits low maxHigh)) maxHigh (halved fits low maxHigh).
Proof.
  intros Hlt Hf. unfold binarySearch.
  destruct (low >=? maxHigh) eqn:E; [lia|]. by rewrite Hf.
Qed.

(** The result lies in the range searched, whatever the predicate. *)
Lemma binarySearch_range (maxHigh : Z) :
  low <= maxHigh -> low <= binarySearch fits low maxHigh <= maxHigh.
Proof.
  intros Hle.
  destruct (Z_lt_ge_dec low maxHigh) as [Hlt | Hge].
  - destruct (fits low maxHigh) eqn:Hf.
    + rewrite binarySearch_whole by done. lia.
    + rewrite binarySearch_search by done.
      pose proof (halved_range maxHigh Hlt).
      pose proof (stepping_ge (Z.to_nat (maxHigh - halved fits low maxHigh)) maxHigh (halved fits low maxHigh)).
      pose proof (stepping_le (Z.to_nat (maxHigh - halved fits low maxHigh)) maxHigh (halved fits low maxHigh)).
      lia.
  - rewrite binarySearch_low by done. lia.
Qed.

(** The result is [low] or a point the predicate accepts. *)
Lemma binarySearch_reached (maxHigh : Z) :
  reached fits low (binarySearch fits low maxHigh).
Proof.
  destruct (Z_lt_ge_dec low maxHigh) as [Hlt | Hge].
  - destruct (fits low maxHigh) eqn:Hf.
    + rewrite binarySearch_whole by done. by right.
    + rewrite binarySearch_search by done.
      apply stepping_reached, halved_reached.
  - rewrite binarySearch_low by done. by left.
Qed.

(** When the whole range does not fit the result is strictly below
    [maxHigh], and the next point does not fit. *)
Lemma binarySearch_below (maxHigh : Z) :
  low < maxHigh -> fits low maxHigh = false ->
  binarySearch fits low maxHigh < maxHigh
  /\ fits low (binarySearch fits low maxHigh + 1) = false.
Proof.
  intros Hlt Hf. rewrite binarySearch_search by done.
  set (h := halved fits low maxHigh).
  set (r := stepping fits low (Z.to_nat (maxHigh - h)) maxHigh h).
  pose proof (halved_range maxHigh Hlt) as Hh. fold h in Hh.
  pose proof (stepping_le (Z.to_nat (maxHigh - h)) maxHigh h) as Hle.
  pose proof (stepping_reached (Z.to_nat (maxHigh - h)) maxHigh h
                (halved_reached maxHigh)) as Hr.
  pose proof (stepping_ge (Z.to_nat (maxHigh - h)) maxHigh h) as Hge.
  fold r in Hle, Hr, Hge.
  assert (r < maxHigh) as Hrlt.
  { destruct (Z.eq_dec r maxHigh) as [Heq|]; [|lia].
    destruct Hr as [Hr | Hr]; [lia|]. rewrite Heq in Hr. congruence. }
  split; [done|]. by apply stepping_stops.
Qed.
End BinarySearchFacts.

(** The search reads the predicate only at [low] and at points of the
    range: two predicates that agree there give the same result. *)
Lemma halving_ext (f g : Z -> Z -> bool) (low : Z) (delta : positive) (high : Z) :
  (forall h, high <= h <= high + Z.pos delta - 1 -> f low h = g low h) ->
  halving f low delta high = halving g low delta high.
Proof.
  revert high.
  induction delta as [d IH | d IH |]; intros high Hfg; cbn [halving]; unfold probe.
  - rewrite <- (Hfg (high + Z.pos d)) by lia.
    destruct (f low (high + Z.pos d)); apply IH; intros h Hh; apply Hfg; lia.
  - rewrite <- (Hfg (high + Z.pos d)) by lia.
    destruct (f low (high + Z.pos d)); apply IH; intros h Hh; apply Hfg; lia.
  - rewrite <- (Hfg (high + 0)) by lia. done.
Qed.

Lemma stepping_ext (f g : Z -> Z -> bool) (low : Z) (fuel : nat) (maxHigh high : Z) :
  (forall h, high < h <= maxHigh -> f low h = g low h) ->
  stepping f low fuel maxHigh high = stepping g low fuel maxHigh high.
Proof.
  revert high. induction fuel as [|n IH]; intros high Hfg; simpl; [done|].
  destruct (high <? maxHigh) eqn:E; simpl; [|done].
  rewrite <- (Hfg (high + 1)) by lia.
  destruct (f low (high + 1)); [|done].
  apply IH. intros h Hh. apply Hfg. lia.
Qed.

Lemma binarySearch_ext (f g : Z -> Z -> bool) (low maxHigh : Z) :
  (forall h, low <= h <= maxHigh -> f low h = g low h) ->
  binarySearch f low maxHigh = binarySearch g low maxHigh.
Proof.
  intros Hfg. unfold binarySearch.
  destruct (low >=? maxHigh) eqn:E; [done|].
  rewrite <- (Hfg maxHigh) by lia.
  destruct (f low maxHigh) eqn:Hf; [done|].
  assert (halved f low maxHigh = halved g low maxHigh) as Hh.
  { unfold halved, int_sub.
    pose proof (int_wrap_le (maxHigh - low)) as Hw.
    destruct (int_wrap (maxHigh - low)) as [|d|d]; try done.
    apply halving_ext. intros h Hh. apply Hfg. lia. }
  fold (halved f low maxHigh). fold (halved g low maxHigh). rewrite <- Hh.
  apply stepping_ext. intros h Hh'. apply Hfg.
  pose proof (halved_range f low maxHigh). lia.
Qed.

(** When the whole range does not fit and the predicate is downward
    closed, nothing above the result fits. *)
Lemma binarySearch_above (fits : Z -> Z -> bool) (low maxHigh : Z) :
  downward_closed fits ->
  low < maxHigh -> fits low maxHigh = false ->
  forall h, binarySearch fits low maxHigh < h <= maxHigh -> fits low h = false.
Proof.
  intros Hdc Hlt Hf h Hh.
  destruct (binarySearch_below fits low maxHigh Hlt Hf) as [_ Hnext].
  pose proof (binarySearch_range fits low maxHigh) as Hrange.
  destruct (fits low h) eqn:E; [|done].
  rewrite (Hdc low h (binarySearch fits low maxHigh + 1) E) in Hnext; [done|lia].
Qed.

(** C2, as stated, fails: for a predicate that accepts nothing (which is
    downward closed) the search returns [low], and [low] does not fit,
    so the result is not the largest fitting point. *)
Lemma binarySearch_contract_fails :
  ~ (forall fits low maxHigh,
       downward_closed fits -> binarySearch_contract fits low maxHigh).
Proof.
  intros Hc.
  destruct (Hc (fun _ _ => false) 0 3) as (_ & _ & Hlargest).
  - intros low h h' Hf. discriminate.
  - destruct Hlargest as (_ & Hf & _); [lia | reflexivity | discriminate].
Qed.

(** C2, amended: for a downward-closed predicate, [binarySearch] returns
    [low] when [low >= maxHigh], [maxHigh] when the whole range fits, and
    otherwise the largest fitting point of [[low, maxHigh]] provided the
    empty range [fits low low] is accepted, and [low] when it is not (then
    nothing fits); the result is determined by the values of the
    predicate on the range. *)
Theorem binarySearch_spec (fits : Z -> Z -> bool) (low maxHigh : Z) :
  downward_closed fits ->
  (low >= maxHigh -> binarySearch fits low maxHigh = low)
  /\ (low < maxHigh -> fits low maxHigh = true ->
      binarySearch fits low maxHigh = maxHigh)
  /\ (low < maxHigh -> fits low maxHigh = false ->
      (fits low low = true ->
       largest_fit fits low maxHigh (binarySearch fits low maxHigh))
      /\ (fits low low = false -> binarySearch fits low maxHigh = low))
  /\ (forall fits' : Z -> Z -> bool,
        (forall h, low <= h <= maxHigh -> fits' low h = fits low h) ->
        binarySearch fits' low maxHigh = binarySearch fits low maxHigh).
Proof.
  intros Hdc. split; [apply binarySearch_low|].
  split; [apply binarySearch_whole|].
  split; [|intros fits' Hfg; by apply binarySearch_ext].
  intros Hlt Hf.
  pose proof (binarySearch_range fits low maxHigh) as Hrange.
  pose proof (binarySearch_reached fits low maxHigh) as Hreached.
  split.
  - intros Hlow. split; [lia|]. split.
    + destruct Hreached as [-> | Hr]; done.
    + by apply binarySearch_above.
  - intros Hlow. destruct Hreached as [Hr | Hr]; [done|].
    rewrite (Hdc low _ low Hr) in Hlow; [done|lia].
Qed.

Lemma binarySearch_spec_witness :
  let fits := fun l h => h - l <=? 3 in
  downward_closed fits
  /\ binarySearch fits 2 10 = 5
  /\ largest_fit fits 2 10 (binarySearch fits 2 10).
Proof.
  intros fits.
  assert (downward_closed fits) as Hdc.
  { intros l h h' Hf Hh. unfold fits in *. apply Z.leb_le. apply Z.leb_le in Hf. lia. }
  split; [exact Hdc|]. split; [reflexivity|].
  destruct (binarySearch_spec fits 2 10 Hdc) as (_ & _ & Hsearch & _).
  destruct Hsearch as [Hlargest _]; [lia | reflexivity |].
  apply Hlargest. reflexivity.
Defined.

(** ** Slices of a rune list *)

Lemma len_nonneg {A} (l : list A) : 0 <= len l.
Proof. unfold len. lia. Qed.

Lemma len_app {A} (l k : list A) : len (l ++ k) = len l + len k.
Proof. unfold len. rewrite length_app. lia. Qed.

Lemma len_cons {A} (x : A) (l : list A) : len (x :: l) = 1 + len l.
Proof. unfold len. simpl. lia. Qed.

Lemma subslice_length {A} (text : list A) (low high : Z) :
  0 <= low -> low <= high -> high <= len text ->
  len (subslice text low high) = high - low.
Proof.
  intros Hlow Hle Hhigh. unfold subslice, len in *.
  rewrite length_take, length_drop. lia.
Qed.

Lemma subslice_app {A} (text : list A) (low mid high : Z) :
  0 <= low -> low <= mid -> mid <= high ->
  subslice text low mid ++ subslice text mid high = subslice text low high.
Proof.
  intros Hlow Hmid Hhigh. unfold subslice.
  replace (Z.to_nat (high - low))
    with (Z.to_nat (mid - low) + Z.to_nat (high - mid))%nat by lia.
  rewrite <- take_take_drop, drop_drop.
  replace (Z.to_nat low + Z.to_nat (mid - low))%nat with (Z.to_nat mid) by lia.
  done.
Qed.

Lemma subslice_empty {A} (text : list A) (low : Z) : subslice text low low = [].
Proof. unfold subslice. by rewrite Z.sub_diag. Qed.

Lemma subslice_full {A} (text : list A) : subslice text 0 (len text) = text.
Proof.
  unfold subslice, len. simpl. rewrite Z.sub_0_r, Nat2Z.id. apply firstn_all.
Qed.

Lemma subslice_prefix {A} (text : list A) (high : Z) :
  subslice text 0 high = take (Z.to_nat high) text.
Proof. unfold subslice. by rewrite Z.sub_0_r. Qed.

Lemma subslice_suffix {A} (text : list A) (low : Z) :
  0 <= low -> subslice text low (len text) = drop (Z.to_nat low) text.
Proof.
  intros Hlow. unfold subslice, len. apply take_ge. rewrite length_drop. lia.
Qed.

Lemma subslice_tail {A} (text : list A) (i : Z) (c : A) (rest : list A) :
  0 <= i -> subslice text i (len text) = c :: rest ->
  subslice text i (i + 1) = [c] /\ subslice text (i + 1) (len text) = rest
  /\ i < len text.
Proof.
  intros Hi Hsub.
  assert (i < len text) as Hlt.
  { destruct (Z_lt_ge_dec i (len text)) as [|Hge]; [done|].
    unfold subslice in Hsub. rewrite Z2Nat.inj_sub in Hsub by lia.
    replace (Z.to_nat (len text) - Z.to_nat i)%nat with 0%nat in Hsub by lia.
    done. }
  pose proof (subslice_app text i (i + 1) (len text)) as Happ.
  rewrite Hsub in Happ.
  assert (len (subslice text i (i + 1)) = 1) as Hone.
  { rewrite subslice_length; lia. }
  destruct (subslice text i (i + 1)) as [|x [|y l]] eqn:E;
    unfold len in Hone; simpl in Hone; try lia.
  simpl in Happ. specialize (Happ ltac:(lia) ltac:(lia) ltac:(lia)).
  by injection Happ as -> ->.
Qed.

Lemma subslice_index (text : list rune) (i : Z) :
  0 <= i -> i < len text -> subslice text i (i + 1) = [index text i].
Proof.
  intros Hi Hlt. unfold subslice, index, len in *.
  replace (Z.to_nat (i + 1 - i)) with 1%nat by lia.
  assert (Z.to_nat i < length text)%nat as Hn by lia.
  revert Hn. generalize (Z.to_nat i). clear.
  induction text as [|c text IH]; intros [|n] Hn; simpl in *; try lia.
  - by destruct text.
  - apply IH. lia.
Qed.

(** ** splitLines *)

Lemma splitLines_loop_lines_from (s : TextSegment) (text : list rune)
    (i low : Z) (lines : list rowBoundary) :
  (splitLines_loop s text i low lines).1
    ++ [mkRow s (splitLines_loop s text i low lines).2 (i + len text) true]
  = lines ++ lines_from s text i low.
Proof.
  revert i low lines. induction text as [|c text IH]; intros i low lines; simpl.
  - unfold len. simpl. by rewrite Z.add_0_r.
  - rewrite len_cons.
    replace (i + (1 + len text)) with (i + 1 + len text) by lia.
    destruct (c =? 10).
    + rewrite IH. by rewrite <- app_assoc.
    + by rewrite IH.
Qed.

Lemma splitLines_lines_from (s : TextSegment) :
  splitLines s = lines_from s (runes_of_string (Text s)) 0 0.
Proof.
  unfold splitLines.
  pose proof (splitLines_loop_lines_from s (runes_of_string (Text s)) 0 0 []) as Hl.
  destruct (splitLines_loop s (runes_of_string (Text s)) 0 0 []) as [lines low].
  simpl in Hl. exact Hl.
Qed.

Section LinesFrom.
Variable s : TextSegment.
Variable text : list rune.

Lemma lines_from_length (rest : list rune) (i low : Z) :
  length (lines_from s rest i low) = S (count_occ Z.eq_dec rest 10).
Proof.
  revert i low. induction rest as [|c rest IH]; intros i low; simpl; [done|].
  destruct (Z.eqb_spec c 10) as [->|Hne].
  - destruct (Z.eq_dec 10 10); [|done]. simpl. by rewrite IH.
  - destruct (Z.eq_dec c 10); [done|]. by rewrite IH.
Qed.

Lemma lines_from_inline (rest : list rune) (i low : Z) :
  map inline (lines_from s rest i low)
  = replicate (count_occ Z.eq_dec rest 10) false ++ [true].
Proof.
  revert i low. induction rest as [|c rest IH]; intros i low; simpl; [done|].
  destruct (Z.eqb_spec c 10) as [->|Hne].
  - destruct (Z.eq_dec 10 10); [|done]. simpl. by rewrite IH.
  - destruct (Z.eq_dec c 10); [done|]. by rewrite IH.
Qed.

Lemma lines_from_rows (rest : list rune) (i low : Z) :
  0 <= low -> low <= i -> i <= len text ->
  subslice text i (len text) = rest ->
  Forall (fun r => r <> 10) (subslice text low i) ->
  Forall (fun l => seg l = s /\ low <= begin l /\ in_bounds text l
                   /\ Forall (fun r => r <> 10) (row_text text l))
         (lines_from s rest i low).
Proof.
  revert i low. induction rest as [|c rest IH]; intros i low Hlow Hi Hlen Hsub Hnl.
  - simpl. constructor; [|constructor]. unfold in_bounds, row_text. simpl.
    repeat split; (lia || done).
  - destruct (subslice_tail text i c rest ltac:(lia) Hsub) as (Hc & Hrest & Hlt).
    simpl. destruct (Z.eqb_spec c 10) as [->|Hne].
    + constructor.
      * unfold in_bounds, row_text. simpl. repeat split; (lia || done).
      * eapply Forall_impl.
        -- apply IH; try lia; [done|]. rewrite subslice_empty. constructor.
        -- intros l (Hs & Hb & Hin & Hrow). split; [done|]. split; [lia|done].
    + apply IH; try lia; [done|].
      rewrite <- (subslice_app text low i (i + 1)) by lia.
      rewrite Hc. apply Forall_app. split; [done|]. by constructor.
Qed.

Lemma lines_from_join (rest : list rune) (i low : Z) :
  0 <= low -> low <= i -> i <= len text ->
  subslice text i (len text) = rest ->
  join_lines (map (row_text text) (lines_from s rest i low))
  = subslice text low (len text).
Proof.
  revert i low. induction rest as [|c rest IH]; intros i low Hlow Hi Hlen Hsub.
  - simpl. unfold row_text. simpl.
    rewrite <- (subslice_app text low i (len text)) by lia.
    by rewrite Hsub, app_nil_r.
  - destruct (subslice_tail text i c rest ltac:(lia) Hsub) as (Hc & Hrest & Hlt).
    rewrite <- (subslice_app text low i (len text)) by lia.
    rewrite <- (subslice_app text i (i + 1) (len text)) by lia.
    simpl. destruct (Z.eqb_spec c 10) as [->|Hne].
    + pose proof (lines_from_length rest (i + 1) (i + 1)) as Hlength.
      simpl. destruct (lines_from s rest (i + 1) (i + 1)) as [|l ls] eqn:E;
        [done|].
      rewrite <- E. change (map (row_text text) (l :: ls))
        with (row_text text l :: map (row_text text) ls).
      rewrite <- (IH (i + 1) (i + 1)) by (lia || done). rewrite E, Hc.
      unfold row_text at 1. simpl. done.
    + rewrite (IH (i + 1) low) by (lia || done).
      rewrite <- (subslice_app text low (i + 1) (len text)) by lia.
      rewrite <- (subslice_app text low i (i + 1)) by lia.
      rewrite <- (subslice_app text (i + 1) (i + 1) (len text)) by lia.
      rewrite subslice_empty, Hc. simpl. by rewrite <- app_assoc.
Qed.
End LinesFrom.

(** ** findSpaceIndex *)

Lemma findSpace_loop_range (text : list rune) (fuel : nat) (curIndex : Z) :
  -1 <= curIndex ->
  Z.max (-1) (curIndex - Z.of_nat fuel) <= findSpace_loop text fuel curIndex
  /\ findSpace_loop text fuel curIndex <= curIndex.
Proof.
  revert curIndex. induction fuel as [|n IH]; intros cur Hcur; simpl; [lia|].
  destruct (cur >=? 0) eqn:E; [|lia].
  destruct (IsSpace (index text cur)); [lia|].
  specialize (IH (cur - 1) ltac:(lia)). lia.
Qed.

Lemma findSpaceIndex_range (text : list rune) (fallback : Z) :
  0 <= fallback -> 0 <= findSpaceIndex text fallback <= fallback.
Proof.
  intros Hfb. unfold findSpaceIndex.
  pose proof (findSpace_loop_range text (Z.to_nat (fallback + 1)) fallback
                ltac:(lia)) as Hr.
  destruct (findSpace_loop text (Z.to_nat (fallback + 1)) fallback <? 0) eqn:E;
    lia.
Qed.

(** ** The wrapping loops *)

Lemma pieces_ge (text : list rune) (lo : Z) (rows : list rowBoundary) (e : Z) :
  pieces text lo rows e -> lo <= e.
Proof. induction 1; lia. Qed.

Lemma pieces_respell (text : list rune) (lo : Z) (rows : list rowBoundary) (e : Z) :
  pieces text lo rows e -> 0 <= lo ->
  respell text rows e = subslice text lo e.
Proof.
  induction 1 as [|lo b nxt rest e Hb Hle Hnxt Hrest IH]; intros Hlo.
  { by rewrite subslice_empty. }
  pose proof (pieces_ge _ _ _ _ Hrest) as Hge.
  cbn [respell]. unfold row_text. rewrite Hb.
  destruct rest as [|b' rest'].
  - inversion Hrest; subst. simpl. rewrite app_nil_r.
    apply subslice_app; lia.
  - rewrite IH by lia.
    assert (begin b' = nxt) as -> by (by inversion Hrest).
    rewrite (subslice_app text (end_ b) nxt e) by lia.
    apply subslice_app; lia.
Qed.

Section WrapFacts.
Context `{Float32 F}.
Variable s : TextSegment.
Variable maxWidth : F.
Variable measurer : list rune -> F.

Lemma checker_row (low high : Z) (i : bool) :
  checker s maxWidth measurer low high
  = f_le (measurer (row_text (runes_of_string (Text s)) (mkRow s low high i)))
         maxWidth.
Proof. reflexivity. Qed.

Lemma wrapBreak_spec (N : Z) (fuel : nat) :
  forall l_end low high bounds,
  0 <= low -> low <= high -> high <= l_end -> l_end - low <= N ->
  (l_end - low) * (N + 2) + (high - low) + 1 <= Z.of_nat fuel ->
  exists new e,
    wrapBreak s maxWidth measurer fuel l_end low high bounds = Some (bounds ++ new)
    /\ pieces (runes_of_string (Text s)) low new e
    /\ e <= l_end
    /\ Forall (fitting_row s maxWidth measurer low l_end) new
    /\ concat (map (row_text (runes_of_string (Text s))) new)
       = subslice (runes_of_string (Text s)) low e
    /\ ((forall i, low <= i < l_end ->
           checker s maxWidth measurer i (i + 1) = true) ->
        high = l_end \/ low < high -> e = l_end).
Proof.
  induction fuel as [|n IH]; intros l_end low high bounds Hlow Hle Hhigh HN Hfuel.
  { exfalso. nia. }
  cbn [wrapBreak]. destruct (Z.ltb_spec low high) as [Hlt|Hge].
  - fold (checker s maxWidth measurer low high).
    destruct (checker s maxWidth measurer low high) eqn:Hfit.
    + destruct (IH l_end high l_end (bounds ++ [mkRow s low high false]))
        as (new & e & Hrun & Hp & He & Hrows & Hcat & Hall); try lia.
      { nia. }
      exists (mkRow s low high false :: new), e.
      pose proof (pieces_ge _ _ _ _ Hp) as Hge.
      repeat split.
      * rewrite Hrun. by rewrite <- app_assoc.
      * eapply pieces_cons; eauto; simpl; lia.
      * done.
      * constructor.
        -- unfold fitting_row. simpl. repeat split; try lia; try done.
        -- eapply Forall_impl; [exact Hrows|].
           intros b (? & ? & ? & ? & ? & ?). unfold fitting_row.
           repeat split; try lia; done.
      * simpl. rewrite Hcat. unfold row_text. simpl. apply subslice_app; lia.
      * intros Hone _. apply Hall; [|by left].
        intros i Hi. apply Hone. lia.
    + pose proof (binarySearch_range (checker s maxWidth measurer) low high
                    ltac:(lia)) as Hrange.
      destruct (binarySearch_below (checker s maxWidth measurer) low high Hlt Hfit)
        as [Hbelow Hnext].
      destruct (IH l_end low (binarySearch (checker s maxWidth measurer) low high)
                  bounds) as (new & e & Hrun & Hp & He & Hrows & Hcat & Hall);
        try lia.
      exists new, e. repeat split; try done.
      intros Hone _. apply Hall; [done|]. right.
      destruct (Z.eq_dec (binarySearch (checker s maxWidth measurer) low high) low)
        as [Heq|]; [|lia].
      rewrite Heq in Hnext. rewrite Hone in Hnext; [done|lia].
  - exists [], low. repeat split.
    + by rewrite app_nil_r.
    + constructor.
    + lia.
    + constructor.
    + simpl. by rewrite subslice_empty.
    + intros _ [?|?]; lia.
Qed.

Lemma wrapWord_spec (N : Z) (fuel : nat) :
  forall l_end low high bounds,
  0 <= low -> low <= high -> high <= l_end ->
  l_end <= len (runes_of_string (Text s)) -> l_end - low <= N ->
  (l_end - low) * (N + 2) + (high - low) + 1 <= Z.of_nat fuel ->
  exists new e,
    wrapWord s maxWidth measurer fuel l_end low high bounds = Some (bounds ++ new)
    /\ pieces (runes_of_string (Text s)) low new e
    /\ e <= l_end
    /\ Forall (fitting_row s maxWidth measurer low l_end) new.
Proof.
  induction fuel as [|n IH];
    intros l_end low high bounds Hlow Hle Hhigh Hlen HN Hfuel.
  { exfalso. nia. }
  cbn [wrapWord]. destruct (Z.ltb_spec low high) as [Hlt|Hge].
  - cbv zeta. fold (checker s maxWidth measurer low high).
    destruct (checker s maxWidth measurer low high) eqn:Hfit.
    + set (low' := if (high <? l_end) && IsSpace (index (runes_of_string (Text s)) high)
                   then high + 1 else high).
      assert (high <= low' <= l_end
              /\ (low' = high \/ (low' = high + 1
                   /\ IsSpace (index (runes_of_string (Text s)) high) = true)))
        as [Hlow' Hskip].
      { unfold low'. destruct (Z.ltb_spec high l_end);
          destruct (IsSpace (index (runes_of_string (Text s)) high)); simpl;
          split; try lia; auto. }
      destruct (IH l_end low' l_end (bounds ++ [mkRow s low high false]))
        as (new & e & Hrun & Hp & He & Hrows); try lia.
      { nia. }
      exists (mkRow s low high false :: new), e. repeat split.
      * rewrite Hrun. by rewrite <- app_assoc.
      * eapply pieces_cons; eauto; simpl; lia.
      * done.
      * constructor.
        -- unfold fitting_row. simpl. repeat split; try lia; try done.
        -- eapply Forall_impl; [exact Hrows|].
           intros b (? & ? & ? & ? & ? & ?). unfold fitting_row.
           repeat split; try lia; done.
    + rewrite subslice_length by lia.
      set (last := low + (high - low) - 1).
      assert (low <= last) as Hlast by (unfold last; lia).
      pose proof (binarySearch_range (checker s maxWidth measurer) low last Hlast)
        as Hrange.
      assert (0 <= binarySearch (checker s maxWidth measurer) low last - low)
        as Hfb by lia.
      pose proof (findSpaceIndex_range
                    (subslice (runes_of_string (Text s)) low high) _ Hfb) as Hspace.
      destruct (IH l_end low
                  (low + findSpaceIndex
                           (subslice (runes_of_string (Text s)) low high)
                           (binarySearch (checker s maxWidth measurer) low last - low))
                  bounds) as (new & e & Hrun & Hp & He & Hrows);
        try (unfold last in *; lia).
      exists new, e. repeat split; done.
  - exists [], low. repeat split.
    + by rewrite app_nil_r.
    + constructor.
    + lia.
    + constructor.
Qed.
End WrapFacts.

(** ** lineBounds *)

Lemma loop_fuel_enough (n N : Z) :
  0 <= n -> n <= N -> N = n ->
  n * (N + 2) + n + 1 <= Z.of_nat (loop_fuel n).
Proof. intros Hn HN ->. unfold loop_fuel. nia. Qed.

Section LineBoundsFacts.
Context `{Float32 F}.
Variable s : TextSegment.
Variable wrap : TextWrap.
Variable maxWidth : F.
Variable measurer : list rune -> F.

Lemma splitLines_rows :
  Forall (fun l => seg l = s /\ in_bounds (runes_of_string (Text s)) l
                   /\ Forall (fun r => r <> 10)
                        (row_text (runes_of_string (Text s)) l))
         (splitLines s).
Proof.
  rewrite splitLines_lines_from.
  eapply Forall_impl.
  - apply (lines_from_rows s (runes_of_string (Text s))); try lia.
    + apply len_nonneg.
    + apply subslice_full.
    + rewrite subslice_empty. constructor.
  - intros l (? & ? & ? & ?). done.
Qed.

(** What one round of the loop over the lines adds. *)
Lemma lineBounds_step_spec (bounds : list rowBoundary) (l : rowBoundary) :
  is_off wrap = false ->
  seg l = s -> in_bounds (runes_of_string (Text s)) l ->
  exists g,
    lineBounds_step s wrap maxWidth measurer bounds l = Some (bounds ++ g)
    /\ line_rows s wrap maxWidth measurer l g.
Proof.
  intros Hoff Hseg (Hb0 & Hbe & Hlen). unfold lineBounds_step, line_rows.
  rewrite Hoff. simpl. destruct (Z.eqb_spec (begin l) (end_ l)) as [Heq|Hne].
  { by exists [l]. }
  destruct wrap; try done.
  - eexists. split; [reflexivity|done].
  - destruct (wrapBreak_spec s maxWidth measurer (end_ l - begin l)
                (loop_fuel (end_ l - begin l)) (end_ l) (begin l) (end_ l) bounds)
      as (new & e & Hrun & Hp & He & Hrows & Hcat & Hall); try lia.
    { apply loop_fuel_enough; lia. }
    exists new. split; [done|]. exists e. repeat split; try done.
    intros Hone. apply Hall; [done|by left].
  - destruct (wrapWord_spec s maxWidth measurer (end_ l - begin l)
                (loop_fuel (end_ l - begin l)) (end_ l) (begin l) (end_ l) bounds)
      as (new & e & Hrun & Hp & He & Hrows); try lia.
    { apply loop_fuel_enough; lia. }
    exists new. split; [done|]. by exists e.
  - exists []. by rewrite app_nil_r.
Qed.

Lemma lineBounds_loop_spec (lines bounds : list rowBoundary) :
  is_off wrap = false ->
  Forall (fun l => seg l = s /\ in_bounds (runes_of_string (Text s)) l) lines ->
  exists groups,
    lineBounds_loop s wrap maxWidth measurer lines bounds
      = Some (bounds ++ concat groups)
    /\ Forall2 (line_rows s wrap maxWidth measurer) lines groups.
Proof.
  intros Hoff Hlines. revert bounds.
  induction Hlines as [|l lines [Hseg Hin] _ IH]; intros bounds.
  - exists []. simpl. by rewrite app_nil_r.
  - destruct (lineBounds_step_spec bounds l Hoff Hseg Hin) as (g & Hstep & Hg).
    destruct (IH (bounds ++ g)) as (groups & Hloop & Hgroups).
    exists (g :: groups). simpl. rewrite Hstep, Hloop.
    split; [by rewrite <- app_assoc|by constructor].
Qed.

(** [lineBounds] always returns, and its rows are, line by line, the
    rows [line_rows] describes for the effective mode. *)
Lemma lineBounds_groups :
  exists groups,
    lineBounds s wrap maxWidth measurer = Some (concat groups)
    /\ Forall2 (line_rows s (effective_wrap wrap maxWidth) maxWidth measurer)
         (splitLines s) groups.
Proof.
  unfold lineBounds, effective_wrap.
  destruct (f_le maxWidth f_zero || is_off wrap) eqn:Hoff.
  - exists (map (fun l => [l]) (splitLines s)). split.
    + f_equal. induction (splitLines s) as [|l ls IH]; simpl; [done|].
      by rewrite <- IH.
    + induction (splitLines s) as [|l ls IH]; simpl; constructor; [|done].
      by unfold line_rows.
  - apply orb_false_iff in Hoff as [_ Hoff].
    destruct (lineBounds_loop_spec (splitLines s) [] Hoff) as (groups & Hloop & Hg).
    + eapply Forall_impl; [apply splitLines_rows|]. by intros l (? & ? & ?).
    + by exists groups.
Qed.

Lemma lineBounds_total : is_Some (lineBounds s wrap maxWidth measurer).
Proof. destruct lineBounds_groups as (groups & -> & _). by eexists. Qed.

(** The rows of a line lie inside the line, in order. *)
Lemma line_rows_pieces (w : TextWrap) (l : rowBoundary) (g : list rowBoundary) :
  seg l = s -> in_bounds (runes_of_string (Text s)) l ->
  line_rows s w maxWidth measurer l g ->
  (exists e, pieces (runes_of_string (Text s)) (begin l) g e /\ e <= end_ l)
  /\ Forall (fun b => seg b = s /\ begin l <= begin b /\ begin b <= end_ b
                      /\ end_ b <= end_ l) g.
Proof.
  intros Hseg (Hb0 & Hbe & Hlen). unfold line_rows.
  assert ((exists e, pieces (runes_of_string (Text s)) (begin l) [l] e
                    /\ e <= end_ l)
          /\ Forall (fun b => seg b = s /\ begin l <= begin b
                              /\ begin b <= end_ b /\ end_ b <= end_ l) [l])
    as Hself.
  { split.
    - exists (end_ l). split; [|lia].
      eapply pieces_cons; [done|lia|by left|constructor].
    - constructor; [|constructor]. repeat split; (lia || done). }
  destruct (is_off w || (begin l =? end_ l)) eqn:E; [by intros ->|].
  apply orb_false_iff in E as [Hoff Hne]. apply Z.eqb_neq in Hne.
  destruct w.
  - discriminate.
  - intros ->.
    pose proof (binarySearch_range (checker s maxWidth measurer) (begin l) (end_ l)
                  Hbe) as Hrange.
    split.
    + eexists. split; [eapply pieces_cons; [done| |by left|constructor]|];
        simpl; lia.
    + constructor; [|constructor]. simpl. repeat split; (lia || done).
  - intros (e & Hp & He & Hrows & _). split; [by exists e|].
    eapply Forall_impl; [exact Hrows|].
    intros b (? & ? & ? & ? & ? & ?). repeat split; (lia || done).
  - intros (e & Hp & He & Hrows). split; [by exists e|].
    eapply Forall_impl; [exact Hrows|].
    intros b (? & ? & ? & ? & ? & ?). repeat split; (lia || done).
  - intros ->. split; [|constructor]. exists (begin l). split; [constructor|lia].
Qed.
End LineBoundsFacts.

Lemma Forall2_concat_Forall {A B} (P : A -> list B -> Prop) (Q : B -> Prop)
    (R : A -> Prop) (xs : list A) (gs : list (list B)) :
  Forall R xs -> Forall2 P xs gs ->
  (forall x g, R x -> P x g -> Forall Q g) ->
  Forall Q (concat gs).
Proof.
  intros HR HP Himp. revert HR.
  induction HP as [|x g xs gs Hxg _ IH]; intros HR; simpl; [constructor|].
  inversion HR; subst. apply Forall_app. split; eauto.
Qed.

Lemma Forall2_impl_Forall {A B} (P P' : A -> B -> Prop) (R : A -> Prop)
    (xs : list A) (ys : list B) :
  Forall R xs -> Forall2 P xs ys ->
  (forall x y, R x -> P x y -> P' x y) ->
  Forall2 P' xs ys.
Proof.
  intros HR HP Himp. revert HR.
  induction HP as [|x y xs ys Hxy _ IH]; intros HR; [constructor|].
  inversion HR; subst. constructor; eauto.
Qed.

Lemma Forall2_concat_elem {A} (P : A -> list A -> Prop) (xs : list A)
    (gs : list (list A)) (x : A) :
  Forall2 P xs gs -> x ∈ xs -> (forall g, P x g -> g = [x]) -> x ∈ concat gs.
Proof.
  intros HP Hx Himp. induction HP as [|y g xs gs Hyg _ IH]; simpl.
  - by apply elem_of_nil in Hx.
  - apply elem_of_app. apply elem_of_cons in Hx as [<-|Hx].
    + left. rewrite (Himp g Hyg). by apply list_elem_of_singleton.
    + right. by apply IH.
Qed.

Lemma set_last_inline_Forall (Q : rowBoundary -> Prop) (bounds : list rowBoundary)
    (i : bool) :
  (forall b, Q b -> Q (mkRow (seg b) (begin b) (end_ b) i)) ->
  Forall Q bounds -> Forall Q (set_last_inline bounds i).
Proof.
  intros HQ Hb. unfold set_last_inline.
  destruct (List.rev bounds) as [|b front] eqn:E; [done|].
  assert (bounds = List.rev front ++ [b]) as ->.
  { rewrite <- (rev_involutive bounds), E. done. }
  apply Forall_app in Hb as [Hfront Hlast]. apply Forall_app. split; [done|].
  inversion Hlast; subst. constructor; [by apply HQ|constructor].
Qed.

Section RowBoundsInvariant.
Context `{Float32 F} `{Toolkit F}.

Lemma lineBounds_rows_in_bounds (s : TextSegment) (wrap : TextWrap) (maxWidth : F)
    (measurer : list rune -> F) :
  exists rows,
    lineBounds s wrap maxWidth measurer = Some rows
    /\ Forall (fun b => seg b = s /\ in_bounds (runes_of_string (Text s)) b) rows
    /\ (forall l, l ∈ splitLines s -> begin l = end_ l -> l ∈ rows).
Proof.
  destruct (lineBounds_groups s wrap maxWidth measurer) as (groups & Hrun & Hg).
  exists (concat groups). split; [done|]. split.
  - eapply (Forall2_concat_Forall _ _ _ _ _ (splitLines_rows s) Hg).
    intros l g (Hseg & Hin & _) Hrows.
    destruct (line_rows_pieces s maxWidth measurer _ l g Hseg Hin Hrows)
      as [_ Hall].
    eapply Forall_impl; [exact Hall|].
    intros b (? & ? & ? & ?). destruct Hin as (? & ? & ?).
    unfold in_bounds. repeat split; (lia || done).
  - intros l Hl Hempty.
    apply (Forall2_concat_elem _ _ _ _ Hg Hl).
    intros g. unfold line_rows. apply Z.eqb_eq in Hempty. rewrite Hempty.
    by rewrite orb_true_r.
Qed.

Lemma updateRowBounds_loop_in_bounds (t : RichText F) (segs : list RichTextSegment)
    (bounds : list rowBoundary) :
  Forall (fun b => in_bounds (runes_of_string (Text (seg b))) b) bounds ->
  exists bounds',
    updateRowBounds_loop t segs bounds = Some bounds'
    /\ Forall (fun b => in_bounds (runes_of_string (Text (seg b))) b) bounds'.
Proof.
  revert bounds. induction segs as [|sg segs IH]; intros bounds Hb; simpl.
  - by exists bounds.
  - destruct sg as [textSeg|i x]; [|by apply IH].
    destruct (lineBounds_rows_in_bounds textSeg (Wrapping t)
                (f_sub (Width (size t)) (f_mul (f_of_int 2) theme_Padding))
                (segment_measurer textSeg)) as (rows & -> & Hrows & _).
    assert (Forall (fun b => in_bounds (runes_of_string (Text (seg b))) b)
                   (bounds ++ rows)) as Hall.
    { apply Forall_app. split; [done|].
      eapply Forall_impl; [exact Hrows|]. by intros b [-> ?]. }
    destruct (len (bounds ++ rows) =? 0); apply IH; [done|].
    by apply set_last_inline_Forall.
Qed.

(** [Refresh] is the recomputation of the row bounds. *)
Lemma Refresh_updateRowBounds (t : RichText F) :
  updateRowBounds t = Some (Refresh t) /\ Segments (Refresh t) = Segments t.
Proof.
  unfold Refresh, updateRowBounds.
  destruct (updateRowBounds_loop_in_bounds t (Segments t) [])
    as (bounds & -> & _); [constructor|]. done.
Qed.

(** C8: every row [lineBounds] produces, in any mode and for any width
    and measurer, has [0 <= begin <= end <= len(runes(Text))], and so has
    every row [updateRowBounds] stores; the empty physical lines are kept
    as rows. *)
Theorem row_bounds_invariant :
  (forall (s : TextSegment) (wrap : TextWrap) (maxWidth : F)
          (measurer : list rune -> F),
     exists rows,
       lineBounds s wrap maxWidth measurer = Some rows
       /\ Forall (fun b => seg b = s
                           /\ 0 <= begin b /\ begin b <= end_ b
                           /\ end_ b <= len (runes_of_string (Text s))) rows
       /\ (forall l, l ∈ splitLines s -> begin l = end_ l -> l ∈ rows))
  /\ (forall t : RichText F,
        exists t',
          updateRowBounds t = Some t'
          /\ Segments t' = Segments t
          /\ Forall (fun b => 0 <= begin b /\ begin b <= end_ b
                              /\ end_ b <= len (runes_of_string (Text (seg b))))
                    (rowBounds t')).
Proof.
  split.
  - intros s wrap maxWidth measurer.
    apply lineBounds_rows_in_bounds.
  - intros t. unfold updateRowBounds.
    destruct (updateRowBounds_loop_in_bounds t (Segments t) [])
      as (bounds & -> & Hb); [constructor|].
    eexists. split; [reflexivity|]. split; [reflexivity|]. exact Hb.
Qed.

End RowBoundsInvariant.

Section WrapClaims.
Context `{Float32 F}.
Variable s : TextSegment.
Variable maxWidth : F.
Variable measurer : list rune -> F.

Lemma effective_wrap_on (wrap : TextWrap) :
  f_le maxWidth f_zero = false -> is_off wrap = false ->
  effective_wrap wrap maxWidth = wrap.
Proof. intros Hpos Hoff. unfold effective_wrap. by rewrite Hpos, Hoff. Qed.

(** C1, amended: with a positive [maxWidth], word wrap produces no row
    wider than [maxWidth], for any measurer (monotone or not), other
    than the empty row of an empty physical line, when the measurer
    gives the empty text a width above [maxWidth]. Every row that holds
    runes fits: an unbreakable token wider than [maxWidth] never
    occupies a row in full. *)
Theorem word_wrap_rows_fit :
  f_le maxWidth f_zero = false ->
  exists rows,
    lineBounds s TextWrapWord maxWidth measurer = Some rows
    /\ Forall (fun b =>
         f_le (measurer (row_text (runes_of_string (Text s)) b)) maxWidth = true
         \/ (overlong_token (runes_of_string (Text s)) maxWidth measurer b
             /\ begin b = end_ b)) rows.
Proof.
  intros Hpos.
  destruct (lineBounds_groups s TextWrapWord maxWidth measurer)
    as (groups & Hrun & Hg).
  rewrite effective_wrap_on in Hg by done.
  exists (concat groups). split; [done|].
  eapply (Forall2_concat_Forall _ _ _ _ _ (splitLines_rows s) Hg).
  intros l g _. unfold line_rows. simpl.
  destruct (Z.eqb_spec (begin l) (end_ l)) as [Heq|Hne].
  - intros ->. constructor; [|constructor].
    destruct (f_le (measurer (row_text (runes_of_string (Text s)) l)) maxWidth)
      eqn:E; [by left|right].
    split; [|done]. split; [|done].
    unfold row_text. rewrite Heq, subslice_empty. constructor.
  - intros (e & _ & _ & Hrows). eapply Forall_impl; [exact Hrows|].
    intros b (_ & _ & _ & _ & _ & Hfit). by left.
Qed.

(** [splitLines] alone: one boundary for each physical line, no row with
    a newline, all boundaries but the last with [inline = false], and
    the rows joined by newlines are the text. *)
Lemma splitLines_joins :
  let text := runes_of_string (Text s) in
  let lines := splitLines s in
  length lines = S (count_occ Z.eq_dec text 10)
  /\ Forall (fun l => Forall (fun r => r <> 10) (row_text text l)) lines
  /\ map inline lines = replicate (count_occ Z.eq_dec text 10) false ++ [true]
  /\ join_lines (map (row_text text) lines) = text.
Proof.
  intros text lines. unfold lines. rewrite splitLines_lines_from. fold text.
  split; [apply lines_from_length|].
  split.
  { rewrite <- splitLines_lines_from. eapply Forall_impl; [apply splitLines_rows|].
    by intros l (_ & _ & ?). }
  split; [apply lines_from_inline|].
  rewrite (lines_from_join s text text 0 0); try lia.
  - apply subslice_full.
  - apply len_nonneg.
  - apply subslice_full.
Qed.

(** In break mode the rows of a line are consecutive and fit, and they
    cover the whole line when every single rune of the line fits. *)
Lemma wrap_break_consumes :
  f_le maxWidth f_zero = false ->
  exists groups,
    lineBounds s TextWrapBreak maxWidth measurer = Some (concat groups)
    /\ Forall2 (fun l g =>
         Forall (fun b => begin b = end_ b
                          \/ checker s maxWidth measurer (begin b) (end_ b) = true) g
         /\ ((forall i, begin l <= i < end_ l ->
                checker s maxWidth measurer i (i + 1) = true) ->
             concat (map (row_text (runes_of_string (Text s))) g)
             = row_text (runes_of_string (Text s)) l))
         (splitLines s) groups.
Proof.
  intros Hpos.
  destruct (lineBounds_groups s TextWrapBreak maxWidth measurer)
    as (groups & Hrun & Hg).
  rewrite effective_wrap_on in Hg by done.
  exists groups. split; [done|].
  eapply Forall2_impl; [exact Hg|].
  intros l g. unfold line_rows. simpl.
  destruct (Z.eqb_spec (begin l) (end_ l)) as [Heq|Hne].
  - intros ->. split; [constructor; [by left|constructor]|].
    intros _. simpl. by rewrite app_nil_r.
  - intros (e & _ & _ & Hrows & Hcat & Hall). split.
    + eapply Forall_impl; [exact Hrows|].
      intros b (_ & _ & _ & _ & _ & Hfit). by right.
    + intros Hone. rewrite Hcat, (Hall Hone). done.
Qed.
End WrapClaims.

#[local] Existing Instance Z_Float32.

Lemma word_wrap_rows_fit_witness :
  f_le (90 : Z) f_zero = false
  /\ exists rows,
       lineBounds (plain "The quick brown fox") TextWrapWord 90 ten_per_rune
         = Some rows
       /\ Forall (fun b =>
            f_le (ten_per_rune
                    (row_text (runes_of_string "The quick brown fox") b)) 90 = true
            \/ (overlong_token (runes_of_string "The quick brown fox") 90
                  ten_per_rune b /\ begin b = end_ b)) rows.
Proof.
  split; [reflexivity|].
  apply (word_wrap_rows_fit (plain "The quick brown fox") 90 ten_per_rune).
  reflexivity.
Defined.

Example word_wrap_scenario :
  lineBounds (plain "The quick brown fox") TextWrapWord 90 ten_per_rune
  = Some [mkRow (plain "The quick brown fox") 0 9 false;
          mkRow (plain "The quick brown fox") 10 19 false].
Proof. vm_compute. reflexivity. Qed.

(** Word wrap cuts a run without whitespace that is wider than
    [maxWidth] at the break-anywhere offsets. *)
Example word_wrap_long_token :
  lineBounds (plain "abcdefghij") TextWrapWord 30 ten_per_rune
  = Some [mkRow (plain "abcdefghij") 0 3 false;
          mkRow (plain "abcdefghij") 3 6 false;
          mkRow (plain "abcdefghij") 6 9 false;
          mkRow (plain "abcdefghij") 9 10 false].
Proof. vm_compute. reflexivity. Qed.

(** C1, as stated, fails. A run of ten runes without whitespace, at a
    width of three runes, is an unbreakable token wider than [maxWidth]:
    it is cut into four rows and no row holds it in full. And for a
    measurer that gives every text, the empty one too, the width 100,
    the row of an empty line is wider than [maxWidth] and is no token. *)
Lemma word_wrap_claim_fails :
  ~ word_wrap_claim (plain "abcdefghij") 30 ten_per_rune
  /\ ~ word_wrap_claim (plain EmptyString) 30 (fun _ : list rune => 100).
Proof.
  split; intros Hc.
  - destruct Hc as (rows & Hrun & _ & Htoken).
    + intros a b. unfold ten_per_rune. apply Z.leb_le.
      rewrite len_app. pose proof (len_nonneg b). lia.
    + reflexivity.
    + vm_compute in Hrun. injection Hrun as <-.
      destruct (Htoken 0 10) as (row & Hin & Hb & He).
      * unfold unbreakable_token.
        split; [lia|]. split; [lia|]. split; [by vm_compute|].
        split; [vm_compute; repeat constructor|].
        split; [by left|]. left. by vm_compute.
      * by vm_compute.
      * repeat (apply elem_of_cons in Hin as [->|Hin]; [simpl in Hb, He; lia|]).
        by apply elem_of_nil in Hin.
  - destruct Hc as (rows & Hrun & Hrows & _).
    + intros a b. reflexivity.
    + reflexivity.
    + vm_compute in Hrun. injection Hrun as <-.
      apply Forall_cons in Hrows as [[Hfit|Htoken] _].
      * vm_compute in Hfit. discriminate.
      * destruct Htoken as (_ & Hlt & _). simpl in Hlt. lia.
Qed.

(** C3 at the failing input: in word mode, a line that begins with a
    whitespace rune followed by a run wider than [maxWidth]. The first
    round finds the whitespace at index 0 of the line, [high] falls back
    to [low] and the loop ends: there is no row, and the rows cannot
    spell the text. Without the leading whitespace the same run is cut
    into two rows that spell it. *)
Theorem word_wrap_loses_line :
  splitLines (plain " abcdef") = [mkRow (plain " abcdef") 0 7 true]
  /\ findSpaceIndex (runes_of_string " abcdef")
       (binarySearch (checker (plain " abcdef") 30 ten_per_rune) 0 6 - 0) = 0
  /\ lineBounds (plain " abcdef") TextWrapWord 30 ten_per_rune = Some []
  /\ ~ roundtrip_claim (plain " abcdef") TextWrapWord 30 ten_per_rune
  /\ lineBounds (plain "abcdef") TextWrapWord 30 ten_per_rune
     = Some [mkRow (plain "abcdef") 0 3 false; mkRow (plain "abcdef") 3 6 false]
  /\ roundtrip_claim (plain "abcdef") TextWrapWord 30 ten_per_rune.
Proof.
  split; [by vm_compute|]. split; [by vm_compute|]. split; [by vm_compute|].
  split; [|split; [by vm_compute|]].
  - intros Hc. destruct (Hc []) as (seps & Hlen & Hseps & Hcat); [by vm_compute|].
    destruct seps; [|discriminate]. vm_compute in Hcat. discriminate.
  - intros rows Hrun. vm_compute in Hrun. injection Hrun as <-.
    exists [[]; []]. split; [done|]. split.
    + repeat constructor.
    + by vm_compute.
Qed.

(** C7 at the failing input: a line of two runes, each wider than
    [maxWidth]. The loop ends after one round with [low = 0 < 2] and no
    row: nothing of the line is consumed. *)
Theorem wrap_break_drops_wide_runes :
  lineBounds (plain "ab") TextWrapBreak 5 ten_per_rune = Some []
  /\ binarySearch (checker (plain "ab") 5 ten_per_rune) 0 2 = 0
  /\ row_text (runes_of_string "ab") (mkRow (plain "ab") 0 2 true) <> [].
Proof. vm_compute. repeat split; discriminate. Qed.

(** ** UTF-8: decoding what was encoded *)

Lemma byte_val_range (c : ascii) : 0 <= byte_val c < 256.
Proof.
  unfold byte_val. pose proof (N_ascii_bounded c). lia.
Qed.

Lemma byte_val_byte_of (z : Z) : byte_val (byte_of z) = z mod 256.
Proof.
  unfold byte_val, byte_of.
  pose proof (Z.mod_pos_bound z 256 ltac:(lia)) as Hm.
  rewrite N_ascii_embedding by lia. lia.
Qed.

Lemma byte_val_small (z : Z) : 0 <= z < 256 -> byte_val (byte_of z) = z.
Proof. intros Hz. rewrite byte_val_byte_of. by apply Z.mod_small. Qed.

Lemma lor_low (a b n : Z) :
  0 <= n -> 0 <= b < 2 ^ n -> Z.lor (a * 2 ^ n) b = a * 2 ^ n + b.
Proof.
  intros Hn Hb. rewrite <- Z.add_lor_land.
  assert (Z.land (a * 2 ^ n) b = 0) as ->; [|lia].
  apply Z.bits_inj'. intros m Hm. rewrite Z.land_spec, Z.bits_0.
  destruct (Z_lt_ge_dec m n) as [Hlt|Hge].
  - by rewrite Z.mul_pow2_bits_low.
  - rewrite <- (Z.mod_small b (2 ^ n)) by lia.
    rewrite Z.mod_pow2_bits_high by lia. apply andb_false_r.
Qed.

Lemma land_mask (a : Z) (n : Z) (m : Z) :
  0 <= n -> m = 2 ^ n - 1 -> Z.land a m = a mod 2 ^ n.
Proof.
  intros Hn ->. rewrite <- Z.land_ones by lia. f_equal.
  rewrite Z.ones_equiv. lia.
Qed.

Ltac arith := Z.div_mod_to_equations; lia.

Lemma lor_add (x b n : Z) :
  0 <= n -> 0 <= b < 2 ^ n -> x mod 2 ^ n = 0 -> Z.lor x b = x + b.
Proof.
  intros Hn Hb Hx.
  rewrite (Z.div_mod x (2 ^ n)) at 1 2 by lia. rewrite Hx, Z.add_0_r.
  rewrite (Z.mul_comm (2 ^ n)). by apply lor_low.
Qed.

(* value composed by the decoder, in arithmetic form *)
Lemma compose2 (s0 s1 : Z) :
  Z.lor (Z.shiftl (Z.land s0 mask2) 6) (Z.land s1 maskx)
  = (s0 mod 32) * 64 + s1 mod 64.
Proof.
  rewrite (land_mask s0 5 mask2), (land_mask s1 6 maskx) by done.
  rewrite Z.shiftl_mul_pow2 by lia.
  apply lor_low; [lia|]. apply Z.mod_pos_bound. lia.
Qed.

Lemma compose3 (s0 s1 s2 : Z) :
  Z.lor (Z.lor (Z.shiftl (Z.land s0 mask3) 12) (Z.shiftl (Z.land s1 maskx) 6))
        (Z.land s2 maskx)
  = (s0 mod 16) * 4096 + (s1 mod 64) * 64 + s2 mod 64.
Proof.
  rewrite (land_mask s0 4 mask3), (land_mask s1 6 maskx),
    (land_mask s2 6 maskx) by done.
  rewrite !Z.shiftl_mul_pow2 by lia.
  change (2 ^ 12) with 4096. change (2 ^ 6) with 64. change (2 ^ 4) with 16.
  rewrite (lor_add _ (s1 mod 64 * 64) 12); [|lia|arith|arith].
  rewrite (lor_add _ (s2 mod 64) 6); [|lia|arith|arith].
  done.
Qed.

Lemma compose4 (s0 s1 s2 s3 : Z) :
  Z.lor (Z.lor (Z.lor (Z.shiftl (Z.land s0 mask4) 18)
                      (Z.shiftl (Z.land s1 maskx) 12))
               (Z.shiftl (Z.land s2 maskx) 6))
        (Z.land s3 maskx)
  = (s0 mod 8) * 262144 + (s1 mod 64) * 4096 + (s2 mod 64) * 64 + s3 mod 64.
Proof.
  rewrite (land_mask s0 3 mask4), (land_mask s1 6 maskx),
    (land_mask s2 6 maskx), (land_mask s3 6 maskx) by done.
  rewrite !Z.shiftl_mul_pow2 by lia.
  change (2 ^ 18) with 262144. change (2 ^ 12) with 4096.
  change (2 ^ 6) with 64. change (2 ^ 3) with 8.
  rewrite (lor_add _ (s1 mod 64 * 4096) 18); [|lia|arith|arith].
  rewrite (lor_add _ (s2 mod 64 * 64) 12); [|lia|arith|arith].
  rewrite (lor_add _ (s3 mod 64) 6); [|lia|arith|arith].
  done.
Qed.

(* bytes written by the encoder, in arithmetic form *)
Lemma lead_byte (t x : Z) (n : Z) :
  0 <= n -> t mod 2 ^ n = 0 -> 0 <= t -> 0 <= x < 2 ^ n -> t + x < 256 ->
  byte_val (byte_of (Z.lor t (byte_val (byte_of x)))) = t + x.
Proof.
  intros Hn Ht Ht0 Hx Hsum.
  rewrite (byte_val_small x) by lia.
  rewrite (lor_add t x n) by done. apply byte_val_small. lia.
Qed.

Lemma cont_byte (x : Z) :
  byte_val (byte_of (Z.lor 0x80 (Z.land (byte_val (byte_of x)) maskx)))
  = 0x80 + x mod 64.
Proof.
  rewrite !byte_val_byte_of, (land_mask _ 6 maskx) by done.
  change (2 ^ 6) with 64.
  replace (x mod 256 mod 64) with (x mod 64) by arith.
  rewrite (lor_add 0x80 _ 6); [|lia|arith|done].
  arith.
Qed.

Lemma mod_offset (t x m : Z) :
  0 < m -> t mod m = 0 -> 0 <= x < m -> (t + x) mod m = x.
Proof.
  intros Hm Ht Hx. rewrite (Z.div_mod t m) by lia. rewrite Ht, Z.add_0_r.
  rewrite Z.add_comm, Z.mul_comm, Z.mod_add by lia. by apply Z.mod_small.
Qed.

Ltac decide_cmp :=
  repeat match goal with
  | |- context [?a <? ?b] =>
      first [ rewrite (proj2 (Z.ltb_lt a b)) by arith
            | rewrite (proj2 (Z.ltb_ge a b)) by arith ]
  | |- context [?a <=? ?b] =>
      first [ rewrite (proj2 (Z.leb_le a b)) by arith
            | rewrite (proj2 (Z.leb_gt a b)) by arith ]
  | |- context [?a =? ?b] =>
      first [ rewrite (proj2 (Z.eqb_eq a b)) by arith
            | rewrite (proj2 (Z.eqb_neq a b)) by arith ]
  end.

Ltac pow2 :=
  change (2 ^ 6) with 64 in *; change (2 ^ 12) with 4096 in *;
  change (2 ^ 18) with 262144 in *; change (2 ^ 32) with 4294967296 in *.

Ltac split_cmp :=
  match goal with
  | |- context [?a =? ?b] => destruct (Z.eqb_spec a b)
  | |- context [?a <? ?b] => destruct (Z.ltb_spec a b)
  | |- context [?a <=? ?b] => destruct (Z.leb_spec a b)
  end.

Ltac crunch :=
  repeat (decide_cmp; cbv beta iota; cbn [orb andb]; try split_cmp).

Ltac utf8_consts :=
  unfold first, locb, hicb, MaxRune, surrogateMin, surrogateMax, RuneError in *.

Lemma DecodeRune_encode (v : rune) (rest : list ascii) :
  valid_rune v ->
  DecodeRune (EncodeRune v ++ rest) = (v, length (EncodeRune v))
  /\ (1 <= length (EncodeRune v))%nat.
Proof.
  intros [Hrange Hsur]. utf8_consts.
  assert (v mod 2 ^ 32 = v) as Hmod by (apply Z.mod_small; lia).
  destruct (Z_le_gt_dec v 0x7F) as [H1|H1];
    [|destruct (Z_le_gt_dec v 0x7FF) as [H2|H2];
      [|destruct (Z_le_gt_dec v 0xFFFF) as [H3|H3]]].
  - unfold EncodeRune. cbv zeta. rewrite Hmod. decide_cmp.
    cbn [app length]. split; [|lia].
    unfold DecodeRune. cbv zeta. rewrite byte_val_small by lia. by decide_cmp.
  - unfold EncodeRune. cbv zeta. rewrite Hmod. decide_cmp.
    cbn [app length]. split; [|lia].
    unfold DecodeRune. cbv zeta. utf8_consts.
    rewrite !cont_byte, !Z.shiftr_div_pow2 by lia. pow2.
    rewrite (lead_byte 0xC0 _ 5) by (done || arith).
    cbn [length]. crunch.
    rewrite compose2. f_equal.
    rewrite (mod_offset 192 _ 32), (mod_offset 128 _ 64) by (done || arith). arith.
  - assert (v < 0xD800 \/ 0xDFFF < v) as Hside by lia.
    unfold EncodeRune. cbv zeta. rewrite Hmod. utf8_consts.
    assert ((1114111 <? v) || (55296 <=? v) && (v <=? 57343) = false) as ->.
    { destruct Hside; decide_cmp; done. }
    decide_cmp. unfold three_bytes.
    cbn [app length]. split; [|lia].
    unfold DecodeRune. cbv zeta. utf8_consts.
    rewrite !cont_byte, !Z.shiftr_div_pow2 by lia. pow2.
    rewrite (lead_byte 0xE0 _ 4) by (done || arith).
    cbn [length]. crunch.
    all: rewrite compose3; f_equal.
    all: rewrite (mod_offset 224 _ 16), !(mod_offset 128 _ 64) by (done || arith).
    all: arith.
  - unfold EncodeRune. cbv zeta. rewrite Hmod. utf8_consts. decide_cmp.
    cbn [orb andb]. decide_cmp. cbn [orb andb].
    cbn [app length]. split; [|lia].
    unfold DecodeRune. cbv zeta. utf8_consts.
    rewrite !cont_byte, !Z.shiftr_div_pow2 by lia. pow2.
    rewrite (lead_byte 0xF0 _ 3) by (done || arith).
    cbn [length]. crunch.
    all: rewrite compose4; f_equal.
    all: rewrite (mod_offset 240 _ 8), !(mod_offset 128 _ 64) by (done || arith).
    all: arith.
Qed.

Lemma valid_RuneError : valid_rune RuneError.
Proof. unfold valid_rune. utf8_consts. lia. Qed.

Lemma DecodeRune_valid (s : list ascii) :
  valid_rune (DecodeRune s).1
  /\ (s <> [] -> (1 <= (DecodeRune s).2 <= length s)%nat).
Proof.
  destruct s as [|c0 t0]; [split; [apply valid_RuneError|done]|].
  pose proof (byte_val_range c0).
  assert (forall v w,
    valid_rune v -> (1 <= w <= length (c0 :: t0))%nat ->
    valid_rune (v, w).1 /\ (c0 :: t0 <> [] -> (1 <= (v, w).2 <= length (c0 :: t0))%nat))
    as Hfin by (intros; split; done).
  unfold DecodeRune. cbv zeta. utf8_consts.
  destruct t0 as [|c1 [|c2 [|c3 t]]];
    [|pose proof (byte_val_range c1)
     |pose proof (byte_val_range c1); pose proof (byte_val_range c2)
     |pose proof (byte_val_range c1); pose proof (byte_val_range c2);
      pose proof (byte_val_range c3)].
  all: cbn [length] in *.
  all: crunch.
  all: apply Hfin; [|lia].
  all: try apply valid_RuneError.
  all: unfold valid_rune; utf8_consts; rewrite ?compose2, ?compose3, ?compose4.
  all: arith.
Qed.

Lemma decode_runes_valid (fuel : nat) (s : list ascii) :
  Forall valid_rune (decode_runes fuel s).
Proof.
  revert s. induction fuel as [|n IH]; intros s; simpl; [constructor|].
  destruct s as [|c t]; [constructor|].
  destruct (DecodeRune (c :: t)) as [r w] eqn:E.
  constructor; [|apply IH].
  pose proof (DecodeRune_valid (c :: t)) as [Hv _]. by rewrite E in Hv.
Qed.

Lemma runes_of_string_valid (s : string) : Forall valid_rune (runes_of_string s).
Proof. apply decode_runes_valid. Qed.

Lemma decode_runes_encode (l : list rune) (fuel : nat) :
  Forall valid_rune l ->
  (length (concat (map EncodeRune l)) <= fuel)%nat ->
  decode_runes fuel (concat (map EncodeRune l)) = l.
Proof.
  intros Hl. revert fuel. induction Hl as [|v l Hv _ IH]; intros fuel Hfuel.
  - by destruct fuel.
  - simpl in *. rewrite length_app in Hfuel.
    destruct (DecodeRune_encode v (concat (map EncodeRune l)) Hv) as [Hdec Hlen].
    destruct fuel as [|fuel]; [lia|]. simpl.
    destruct (EncodeRune v ++ concat (map EncodeRune l)) as [|c t] eqn:E.
    { apply (f_equal length) in E. rewrite length_app in E. simpl in E. lia. }
    rewrite Hdec. rewrite <- E, drop_app_length. f_equal. apply IH. lia.
Qed.

(** Converting runes to a string and back gives the runes again, when
    every one is a Unicode scalar value. *)
Lemma runes_of_string_of_runes (l : list rune) :
  Forall valid_rune l -> runes_of_string (string_of_runes l) = l.
Proof.
  intros Hl. unfold runes_of_string, string_of_runes. cbv zeta.
  rewrite list_ascii_of_string_of_list_ascii. by apply decode_runes_encode.
Qed.

(** ** Rune slices *)

Lemma reslice_Returns (r : slice) (lo hi : Z) :
  0 <= lo -> lo <= hi -> hi <= cap r ->
  reslice r lo hi = Returns (mkSlice (drop (Z.to_nat lo) (arr r)) (hi - lo)).
Proof.
  intros Hlo Hle Hhi. unfold reslice.
  rewrite (proj2 (Z.leb_le 0 lo)), (proj2 (Z.leb_le lo hi)),
    (proj2 (Z.leb_le hi (cap r))) by done. done.
Qed.

Lemma reslice_Panics (r : slice) (lo hi : Z) :
  lo < 0 \/ hi < lo \/ cap r < hi -> reslice r lo hi = Panics.
Proof.
  intros Hbad. unfold reslice.
  destruct (Z.leb_spec 0 lo); [|done].
  destruct (Z.leb_spec lo hi); [|done].
  destruct (Z.leb_spec hi (cap r)); [lia|done].
Qed.

Lemma copy_runes_all (dst src : list rune) :
  length dst = length src -> copy_runes dst src = src.
Proof.
  intros Hlen. unfold copy_runes.
  rewrite Hlen, firstn_all, <- Hlen, drop_all. apply app_nil_r.
Qed.

Section SliceOfString.
Context `{GoRuntime}.
Variable str : string.

Lemma stringtoslicerune_slen :
  slen (stringtoslicerune str) = len (runes_of_string str).
Proof. reflexivity. Qed.

Lemma stringtoslicerune_cap :
  cap (stringtoslicerune str)
  = Z.max (len (runes_of_string str)) (runecap (len (runes_of_string str))).
Proof.
  unfold cap, stringtoslicerune. cbn [arr]. unfold len.
  rewrite length_app, length_replicate. lia.
Qed.

(** A slice expression inside the length reads the runes of the string. *)
Lemma stringtoslicerune_reslice (lo hi : Z) :
  0 <= lo -> lo <= hi -> hi <= len (runes_of_string str) ->
  exists sl,
    reslice (stringtoslicerune str) lo hi = Returns sl
    /\ elems sl = subslice (runes_of_string str) lo hi.
Proof.
  intros Hlo Hle Hhi. eexists. split.
  - apply reslice_Returns; [done|done|]. rewrite stringtoslicerune_cap. lia.
  - unfold elems, subslice, stringtoslicerune. cbn [arr slen].
    unfold len in Hhi.
    rewrite drop_app_le by lia. rewrite take_app_le; [done|].
    rewrite length_drop. lia.
Qed.

(** One that ends beyond the length, inside the capacity, reads the
    zeros of the spare capacity. *)
Lemma stringtoslicerune_reslice_spare (lo hi : Z) :
  0 <= lo -> lo <= len (runes_of_string str) ->
  len (runes_of_string str) < hi -> hi <= cap (stringtoslicerune str) ->
  exists sl,
    reslice (stringtoslicerune str) lo hi = Returns sl
    /\ elems sl = drop (Z.to_nat lo) (runes_of_string str)
                  ++ replicate (Z.to_nat (hi - len (runes_of_string str))) 0.
Proof.
  intros Hlo Hle Hlt Hhi. eexists. split.
  - apply reslice_Returns; [done|lia|done].
  - rewrite stringtoslicerune_cap in Hhi.
    unfold elems, stringtoslicerune. cbn [arr slen]. unfold len in *.
    rewrite drop_app_le by lia.
    rewrite take_app_ge by (rewrite length_drop; lia).
    f_equal. rewrite length_drop, take_replicate. f_equal. lia.
Qed.
End SliceOfString.

(** ** insertAt and deleteFromTo *)

Lemma locate_no_text (segs : list RichTextSegment) (pos i start : Z)
    (found : option (Z * TextSegment)) :
  no_text_segment segs -> locate segs pos i start found = found.
Proof.
  intros Hno. revert i. induction Hno as [|sg segs Hsg _ IH]; intros i; [done|].
  destruct sg; [done|]. simpl. apply IH.
Qed.

Lemma locate_single (ts : TextSegment) (pos : Z) :
  locate [TextSeg ts] pos 0 0 None = Some (0, ts).
Proof. simpl. by destruct (_ >? _). Qed.

Lemma with_Text_same (ts : TextSegment) : with_Text ts (Text ts) = ts.
Proof. by destruct ts. Qed.

Section ContainerFacts.
Context `{Float32 F} `{Toolkit F} `{GoRuntime}.

Lemma store_segment_Segments (t : RichText F) (i : Z) (ts : TextSegment) :
  Segments (Refresh (store_segment t i ts))
  = <[Z.to_nat i := TextSeg ts]> (Segments t).
Proof. by rewrite (proj2 (Refresh_updateRowBounds _)). Qed.

(** [insertAt] on the segment the lookup found: the position is used as
    an index into the runes of that segment. *)
Lemma insertAt_located (t : RichText F) (pos : Z) (runes : string)
    (i : Z) (into : TextSegment) :
  locate (Segments t) pos 0 0 None = Some (i, into) ->
  0 <= pos -> pos <= len (runes_of_string (Text into)) ->
  insertAt t pos runes
  = Returns (Refresh (store_segment t i
      (with_Text into (string_of_runes
         (take (Z.to_nat pos) (runes_of_string (Text into))
          ++ runes_of_string runes
          ++ drop (Z.to_nat pos) (runes_of_string (Text into))))))).
Proof.
  intros Hloc Hpos Hlen. unfold insertAt. rewrite Hloc.
  destruct (stringtoslicerune_reslice (Text into) 0 pos) as (front & Hf & Hfe);
    try lia.
  destruct (stringtoslicerune_reslice (Text into) pos
              (len (runes_of_string (Text into)))) as (back & Hb & Hbe); try lia.
  unfold slice_to, slice_from. rewrite Hf. cbn [mbind run_bind].
  rewrite stringtoslicerune_slen, Hb. cbn [mbind run_bind].
  unfold append_runes. rewrite Hfe, Hbe.
  by rewrite subslice_prefix, subslice_suffix.
Qed.

Lemma insertAt_out_of_range (t : RichText F) (pos : Z) (runes : string)
    (i : Z) (into : TextSegment) :
  locate (Segments t) pos 0 0 None = Some (i, into) ->
  pos < 0 \/ len (runes_of_string (Text into)) < pos ->
  insertAt t pos runes = Panics.
Proof.
  intros Hloc Hbad. unfold insertAt. rewrite Hloc.
  unfold slice_to, slice_from.
  destruct (reslice (stringtoslicerune (Text into)) 0 pos) as [front|] eqn:Hf;
    [|done].
  cbn [mbind run_bind]. rewrite reslice_Panics; [done|].
  rewrite stringtoslicerune_slen. lia.
Qed.

(** [deleteFromTo] with both bounds inside the segment found. *)
Lemma deleteFromTo_located (t : RichText F) (lowBound highBound : Z)
    (i : Z) (from : TextSegment) :
  locate (Segments t) lowBound 0 0 None = Some (i, from) ->
  0 <= lowBound -> lowBound <= highBound ->
  highBound <= len (runes_of_string (Text from)) ->
  deleteFromTo t lowBound highBound
  = Returns
      (string_of_runes (subslice (runes_of_string (Text from)) lowBound highBound),
       Refresh (store_segment t i
         (with_Text from (string_of_runes
            (take (Z.to_nat lowBound) (runes_of_string (Text from))
             ++ drop (Z.to_nat highBound) (runes_of_string (Text from))))))).
Proof.
  intros Hloc Hlow Hle Hhigh. unfold deleteFromTo. rewrite Hloc.
  unfold make_runes. rewrite (proj2 (Z.ltb_ge _ _)) by lia.
  cbn [mbind run_bind].
  destruct (stringtoslicerune_reslice (Text from) lowBound highBound)
    as (src & Hs & Hse); try lia.
  rewrite Hs. cbn [mbind run_bind]. rewrite stringtoslicerune_slen.
  rewrite Z.gtb_ltb, (proj2 (Z.ltb_ge _ _)) by lia.
  destruct (stringtoslicerune_reslice (Text from) 0 lowBound)
    as (front & Hf & Hfe); try lia.
  destruct (stringtoslicerune_reslice (Text from) highBound
              (len (runes_of_string (Text from)))) as (back & Hb & Hbe); try lia.
  unfold slice_to, slice_from. rewrite Hf. cbn [mbind run_bind].
  rewrite stringtoslicerune_slen, Hb. cbn [mbind run_bind].
  unfold append_runes. rewrite Hfe, Hbe, Hse.
  rewrite copy_runes_all.
  - by rewrite subslice_prefix, subslice_suffix by lia.
  - rewrite length_replicate.
    pose proof (subslice_length (runes_of_string (Text from)) lowBound highBound
                  Hlow Hle Hhigh) as Hl.
    unfold len in Hl. lia.
Qed.
End ContainerFacts.

Section ContainerClaims.
Context `{Float32 F} `{Toolkit F} `{GoRuntime}.

(** C9: on a rich text with no text segment (an empty segment list
    included) [insertAt] returns without a change and [deleteFromTo]
    returns the empty string without a change; neither panics. *)
Theorem mutation_without_text_is_noop (t : RichText F) (pos : Z) (runes : string)
    (lowBound highBound : Z) :
  no_text_segment (Segments t) ->
  insertAt t pos runes = Returns t
  /\ deleteFromTo t lowBound highBound = Returns (EmptyString, t).
Proof.
  intros Hno. unfold insertAt, deleteFromTo.
  by rewrite !locate_no_text.
Qed.

Lemma MinSize_loop_returns (t : RichText F) (charMin concealedMin : Size F)
    (todo : nat) (i : Z) (acc : F * F) :
  0 <= i -> i + Z.of_nat todo <= rows t ->
  exists acc', MinSize_loop t charMin concealedMin (rows t) todo i acc = Returns acc'.
Proof.
  revert i acc. induction todo as [|n IH]; intros i acc Hi Hle; simpl.
  - by eexists.
  - unfold MinSize_step. destruct acc as [width height].
    unfold RichText_rowBoundary.
    destruct (Z.ltb_spec i 0); [lia|]. destruct (Z.geb_spec i (rows t)); [lia|].
    simpl. destruct (lookup_lt_is_Some_2 (rowBounds t) (Z.to_nat i)) as [b Hb].
    { unfold rows, len in *. lia. }
    rewrite Hb. cbn [mbind run_bind]. apply IH; lia.
Qed.

(** C10: [charMinSize], and with it [MinSize], panics when the segment
    list is empty or its first segment is not a text segment; [MinSize]
    returns a size exactly when the first segment is a text segment. *)
Theorem MinSize_needs_first_text (t : RichText F) :
  (forall conceal,
     ~ first_is_text (Segments t) -> charMinSize t conceal = Panics)
  /\ (~ first_is_text (Segments t) -> MinSize t = Panics)
  /\ (first_is_text (Segments t) <-> exists v, MinSize t = Returns v).
Proof.
  assert (forall conceal,
            ~ first_is_text (Segments t) -> charMinSize t conceal = Panics)
    as Hchar.
  { intros conceal Hno. unfold charMinSize.
    destruct (Segments t) as [|[ts|i x] rest]; [done| |done].
    destruct Hno. by exists ts, rest. }
  assert (~ first_is_text (Segments t) -> MinSize t = Panics) as Hmin.
  { intros Hno. unfold MinSize. rewrite (Hchar false) by done. reflexivity. }
  split; [done|]. split; [done|]. split.
  - intros (ts & rest & Hsegs). unfold MinSize, charMinSize. rewrite Hsegs.
    cbn [mbind run_bind].
    destruct (MinSize_loop_returns t
                (MeasureText "M" (TextSegment_size ts) (Style_TextStyle (Style ts)))
                (MeasureText passwordChar (TextSegment_size ts)
                   (Style_TextStyle (Style ts)))
                (Z.to_nat (rows t)) 0 (f_zero, f_zero))
      as ([width height] & ->); [lia|unfold rows, len; lia|].
    cbn [mbind run_bind]. by eexists.
  - intros [v Hv].
    destruct (Segments t) as [|[ts|i x] rest] eqn:Hsegs.
    + rewrite Hmin in Hv; [done|]. by intros (? & ? & ?).
    + by exists ts, rest.
    + rewrite Hmin in Hv; [done|]. by intros (? & ? & ?).
Qed.

(** C4 at the failing input: two text segments "ab" and "cd". Position 2
    is where "cd" begins; the lookup finds "cd" and the runes go in at
    index 2 of "cd", that is at its end. Position 3 is beyond the two
    runes of "cd" and the slice expression panics. *)
Theorem insertAt_second_segment (wrap : TextWrap) (sz ins : Size F)
    (bounds : list rowBoundary) :
  let t := mkRichText [TextSeg (plain "ab"); TextSeg (plain "cd")]
             wrap sz ins bounds in
  (exists t',
     insertAt t 2 "X" = Returns t'
     /\ Segments t' = [TextSeg (plain "ab"); TextSeg (plain "cdX")]
     /\ RichText_String t' = "abcdX"%string)
  /\ insertAt t 3 "X" = Panics.
Proof.
  intros t. split.
  - eexists. split.
    + apply (insertAt_located t 2 "X" 1 (plain "cd")); [reflexivity| |];
        vm_compute; discriminate.
    + split.
      * rewrite store_segment_Segments. reflexivity.
      * unfold RichText_String. rewrite store_segment_Segments. reflexivity.
  - apply (insertAt_out_of_range t 3 "X" 1 (plain "cd")); [reflexivity|].
    right. reflexivity.
Qed.

Lemma string_of_runes_app_ne (a b : list rune) :
  b <> [] -> string_of_runes (a ++ b) <> string_of_runes a.
Proof.
  intros Hb Heq. unfold string_of_runes in Heq.
  apply (f_equal list_ascii_of_string) in Heq.
  rewrite !list_ascii_of_string_of_list_ascii, map_app, concat_app in Heq.
  rewrite <- (app_nil_r (concat (map EncodeRune a))) in Heq at 2.
  apply app_inv_head in Heq.
  destruct b as [|v b]; [done|]. simpl in Heq.
  apply (f_equal length) in Heq. rewrite length_app in Heq. simpl in Heq.
  assert (1 <= length (EncodeRune v))%nat; [|lia].
  unfold EncodeRune, three_bytes. cbv zeta.
  repeat match goal with |- context [if ?c then _ else _] => destruct c end;
    simpl; lia.
Qed.

(** C5: a single text segment of [n] runes and [lowBound <= n <
    highBound]. The slice expression [r[lowBound:highBound]] is evaluated
    before [highBound] is clamped: beyond the capacity of the rune slice
    it panics, and inside the spare capacity the string returned is the
    deleted runes followed by [highBound - n] zero runes. *)
Theorem deleteFromTo_overrun (t : RichText F) (ts : TextSegment)
    (lowBound highBound : Z) :
  Segments t = [TextSeg ts] ->
  0 <= lowBound -> lowBound <= len (runes_of_string (Text ts)) ->
  len (runes_of_string (Text ts)) < highBound ->
  let n := len (runes_of_string (Text ts)) in
  (Z.max n (runecap n) < highBound -> deleteFromTo t lowBound highBound = Panics)
  /\ (highBound <= Z.max n (runecap n) ->
      exists deleted t',
        deleteFromTo t lowBound highBound = Returns (deleted, t')
        /\ deleted = string_of_runes
                       (drop (Z.to_nat lowBound) (runes_of_string (Text ts))
                        ++ replicate (Z.to_nat (highBound - n)) 0)
        /\ deleted <> string_of_runes
                        (drop (Z.to_nat lowBound) (runes_of_string (Text ts)))
        /\ Segments t'
           = [TextSeg (with_Text ts (string_of_runes
                (take (Z.to_nat lowBound) (runes_of_string (Text ts)))))]).
Proof.
  intros Hsegs Hlow Hle Hlt n.
  unfold deleteFromTo. rewrite Hsegs, locate_single.
  unfold make_runes. rewrite (proj2 (Z.ltb_ge _ _)) by lia.
  cbn [mbind run_bind]. split.
  - intros Hcap. rewrite reslice_Panics; [done|].
    rewrite stringtoslicerune_cap. fold n. lia.
  - intros Hcap.
    destruct (stringtoslicerune_reslice_spare (Text ts) lowBound highBound)
      as (src & Hs & Hse); try done.
    { rewrite stringtoslicerune_cap. by fold n. }
    rewrite Hs. cbn [mbind run_bind]. rewrite stringtoslicerune_slen.
    rewrite Z.gtb_ltb, (proj2 (Z.ltb_lt _ _)) by lia.
    destruct (stringtoslicerune_reslice (Text ts) 0 lowBound)
      as (front & Hf & Hfe); try lia.
    destruct (stringtoslicerune_reslice (Text ts)
                (len (runes_of_string (Text ts)))
                (len (runes_of_string (Text ts)))) as (back & Hb & Hbe);
      try lia.
    unfold slice_to, slice_from. rewrite Hf. cbn [mbind run_bind].
    rewrite stringtoslicerune_slen, Hb. cbn [mbind run_bind].
    do 2 eexists. split; [reflexivity|].
    unfold append_runes. rewrite Hfe, Hbe, Hse, subslice_empty, app_nil_r.
    rewrite subslice_prefix.
    fold n. rewrite copy_runes_all.
    2: { rewrite length_app, length_drop, !length_replicate.
         unfold n, len in *. lia. }
    split; [done|]. split.
    + apply string_of_runes_app_ne.
      destruct (Z.to_nat (highBound - n)) eqn:E; [lia|done].
    + rewrite store_segment_Segments, Hsegs. reflexivity.
Qed.

(** C6, amended: with a single text segment holding [T] and a position
    in [[0, len(runes(T))]], [insertAt(pos, s)] followed by
    [deleteFromTo(pos, pos + len(runes(s)))] returns [string([]rune(s))]
    and leaves the text [string([]rune(T))]: these are [s] and [T], byte
    for byte, when [s] and [T] are valid UTF-8. *)
Theorem insert_then_delete (t : RichText F) (ts : TextSegment) (pos : Z)
    (s : string) :
  Segments t = [TextSeg ts] ->
  0 <= pos -> pos <= len (runes_of_string (Text ts)) ->
  exists t1 t2,
    insertAt t pos s = Returns t1
    /\ deleteFromTo t1 pos (pos + len (runes_of_string s))
       = Returns (string_of_runes (runes_of_string s), t2)
    /\ Segments t2
       = [TextSeg (with_Text ts (string_of_runes (runes_of_string (Text ts))))]
    /\ (valid_utf8 s -> valid_utf8 (Text ts) ->
        deleteFromTo t1 pos (pos + len (runes_of_string s)) = Returns (s, t2)
        /\ Segments t2 = [TextSeg ts]).
Proof.
  intros Hsegs Hpos Hlen.
  set (R := runes_of_string (Text ts)) in *.
  set (a := take (Z.to_nat pos) R).
  set (c := drop (Z.to_nat pos) R).
  set (l := a ++ runes_of_string s ++ c).
  assert (Forall valid_rune l) as Hvalid.
  { unfold l, a, c. rewrite !Forall_app. repeat split.
    - apply Forall_take, runes_of_string_valid.
    - apply runes_of_string_valid.
    - apply Forall_drop, runes_of_string_valid. }
  assert (length a = Z.to_nat pos) as Ha.
  { unfold a, len in *. rewrite length_take. lia. }
  assert (a ++ c = R) as Hac by apply take_drop.
  assert (len l = len R + len (runes_of_string s)) as Hl.
  { rewrite <- Hac. unfold l. rewrite !len_app. lia. }
  pose proof (len_nonneg (runes_of_string s)) as Hs.
  set (into := with_Text ts (string_of_runes l)).
  set (t1 := Refresh (store_segment t 0 into)).
  assert (Segments t1 = [TextSeg into]) as Hsegs1.
  { unfold t1. rewrite store_segment_Segments, Hsegs. reflexivity. }
  assert (runes_of_string (Text into) = l) as Hinto.
  { unfold into. simpl. by apply runes_of_string_of_runes. }
  assert (subslice l pos (pos + len (runes_of_string s)) = runes_of_string s)
    as Hdeleted.
  { unfold subslice, l. rewrite <- Ha, drop_app_length.
    replace (Z.to_nat (pos + len (runes_of_string s) - pos))
      with (length (runes_of_string s)) by (unfold len; lia).
    apply take_app_length. }
  assert (take (Z.to_nat pos) l ++ drop (Z.to_nat (pos + len (runes_of_string s))) l
          = R) as Hrest.
  { replace (Z.to_nat (pos + len (runes_of_string s)))
      with (length a + length (runes_of_string s))%nat
      by (unfold len in *; lia).
    rewrite <- Ha. unfold l.
    rewrite drop_app_add, drop_app_length, take_app_length. exact Hac. }
  exists t1, (Refresh (store_segment t1 0
                (with_Text into (string_of_runes R)))).
  assert (deleteFromTo t1 pos (pos + len (runes_of_string s))
          = Returns (string_of_runes (runes_of_string s),
                     Refresh (store_segment t1 0
                       (with_Text into (string_of_runes R))))) as Hdel.
  { rewrite (deleteFromTo_located t1 pos (pos + len (runes_of_string s)) 0 into);
      try lia.
    - by rewrite Hinto, Hdeleted, Hrest.
    - rewrite Hsegs1. apply locate_single.
    - rewrite Hinto. lia. }
  assert (Segments (Refresh (store_segment t1 0 (with_Text into (string_of_runes R))))
          = [TextSeg (with_Text ts (string_of_runes R))]) as Hsegs2.
  { rewrite store_segment_Segments, Hsegs1. reflexivity. }
  split.
  { rewrite (insertAt_located t pos s 0 ts); [done| |done|done].
    rewrite Hsegs. apply locate_single. }
  split; [exact Hdel|]. split; [exact Hsegs2|].
  intros Hvs HvT. unfold valid_utf8 in *. fold R in HvT.
  rewrite Hdel, Hsegs2, Hvs, HvT, with_Text_same. done.
Qed.
End ContainerClaims.

#[local] Existing Instance test_toolkit.
#[local] Existing Instance tmpbuf_runtime.

Lemma mutation_without_text_is_noop_witness :
  no_text_segment (Segments (test_text [OtherSeg true "--"]))
  /\ insertAt (test_text [OtherSeg true "--"]) 1 "x"
     = Returns (test_text [OtherSeg true "--"])
  /\ deleteFromTo (test_text [OtherSeg true "--"]) 0 1
     = Returns (EmptyString, test_text [OtherSeg true "--"]).
Proof.
  assert (no_text_segment (Segments (test_text [OtherSeg true "--"]))) as Hno.
  { repeat constructor. }
  split; [exact Hno|].
  exact (mutation_without_text_is_noop (test_text [OtherSeg true "--"]) 1 "x" 0 1 Hno).
Defined.

Example mutation_on_empty_list :
  insertAt (test_text []) 0 "x" = Returns (test_text [])
  /\ deleteFromTo (test_text []) 0 1 = Returns (EmptyString, test_text []).
Proof. split; reflexivity. Qed.

Lemma deleteFromTo_overrun_witness :
  let t := test_text [TextSeg (plain "ab")] in
  let n := len (runes_of_string "ab") in
  Segments t = [TextSeg (plain "ab")]
  /\ 0 <= 0 /\ 0 <= n /\ n < 40
  /\ (Z.max n (runecap n) < 40 -> deleteFromTo t 0 40 = Panics).
Proof.
  intros t n.
  assert (0 <= n) as Hn by (vm_compute; discriminate).
  assert (n < 40) as Hlt by (vm_compute; reflexivity).
  split; [reflexivity|]. split; [lia|]. split; [exact Hn|]. split; [exact Hlt|].
  exact (proj1 (deleteFromTo_overrun t (plain "ab") 0 40 eq_refl (Z.le_refl 0) Hn Hlt)).
Defined.

(** With the 32-rune buffer: beyond it the call panics, inside it the
    string returned ends in zero runes. *)
Example deleteFromTo_overrun_runs :
  deleteFromTo (test_text [TextSeg (plain "ab")]) 0 40 = Panics
  /\ (exists t', deleteFromTo (test_text [TextSeg (plain "ab")]) 0 5
                 = Returns (String "a" (String "b" (String zero (String zero
                              (String zero EmptyString)))), t')).
Proof.
  split; [by vm_compute|]. eexists. vm_compute. reflexivity.
Qed.

(** C6, as stated, fails: a text that is not valid UTF-8 comes back
    re-encoded; the byte 0xFF becomes the three bytes of U+FFFD. *)
Lemma insert_delete_claim_fails :
  ~ insert_delete_claim (test_text [TextSeg (plain invalid_string)])
      (plain invalid_string) 0 "a".
Proof.
  intros (t1 & t2 & Hins & Hdel & Htext).
  vm_compute in Hins. injection Hins as <-.
  vm_compute in Hdel. injection Hdel as <-.
  vm_compute in Htext. discriminate.
Qed.

Lemma insert_then_delete_witness :
  let t := test_text [TextSeg (plain "héllo")] in
  Segments t = [TextSeg (plain "héllo")]
  /\ 0 <= 2 /\ 2 <= len (runes_of_string "héllo")
  /\ exists t1 t2,
       insertAt t 2 "•" = Returns t1
       /\ deleteFromTo t1 2 (2 + len (runes_of_string "•"))
          = Returns (string_of_runes (runes_of_string "•"), t2)
       /\ Segments t2
          = [TextSeg (with_Text (plain "héllo")
               (string_of_runes (runes_of_string "héllo")))]
       /\ (valid_utf8 "•" -> valid_utf8 "héllo" ->
           deleteFromTo t1 2 (2 + len (runes_of_string "•")) = Returns ("•"%string, t2)
           /\ Segments t2 = [TextSeg (plain "héllo")]).
Proof.
  intros t.
  assert (2 <= len (runes_of_string "héllo")) as Hlen by (vm_compute; discriminate).
  split; [reflexivity|]. split; [lia|]. split; [exact Hlen|].
  exact (insert_then_delete t (plain "héllo") 2 "•" eq_refl ltac:(lia) Hlen).
Defined.

Example valid_utf8_examples :
  valid_utf8 "héllo" /\ valid_utf8 "•" /\ ~ valid_utf8 invalid_string.
Proof.
  repeat split; try (vm_compute; reflexivity).
  intros Hv. vm_compute in Hv. discriminate.
Qed.

(** * Further properties *)
(** ** More on binarySearch and findSpaceIndex *)

(** X1: whatever the predicate (monotone or not), [binarySearch] returns a
    point of the range searched that is [low] itself or is accepted; and
    when the whole range is not accepted the point is below [maxHigh] and
    the next point is not accepted. *)
Theorem binarySearch_any_predicate (fits : Z -> Z -> bool) (low maxHigh : Z) :
  low <= binarySearch fits low maxHigh <= Z.max low maxHigh
  /\ (binarySearch fits low maxHigh = low
      \/ fits low (binarySearch fits low maxHigh) = true)
  /\ (low < maxHigh -> fits low maxHigh = false ->
      binarySearch fits low maxHigh < maxHigh
      /\ fits low (binarySearch fits low maxHigh + 1) = false).
Proof.
  split; [|split].
  - destruct (Z_lt_ge_dec low maxHigh) as [Hlt|Hge].
    + pose proof (binarySearch_range fits low maxHigh ltac:(lia)). lia.
    + rewrite binarySearch_low by done. lia.
  - apply binarySearch_reached.
  - apply binarySearch_below.
Qed.

Lemma findSpace_loop_spec (text : list rune) (fuel : nat) (curIndex : Z) :
  -1 <= curIndex -> curIndex + 1 <= Z.of_nat fuel ->
  let r := findSpace_loop text fuel curIndex in
  -1 <= r <= curIndex
  /\ (forall i, r < i <= curIndex -> IsSpace (index text i) = false)
  /\ (0 <= r -> IsSpace (index text r) = true).
Proof.
  revert curIndex. induction fuel as [|n IH]; intros cur Hcur Hfuel; simpl.
  - repeat split; intros; lia.
  - destruct (Z.geb_spec cur 0) as [Hge|Hlt].
    + destruct (IsSpace (index text cur)) eqn:E.
      * repeat split; intros; (lia || done).
      * destruct (IH (cur - 1) ltac:(lia) ltac:(lia)) as (Hr & Hno & Hsp).
        repeat split; try lia; [|done].
        intros i Hi. destruct (Z.eq_dec i cur) as [->|]; [done|].
        apply Hno. lia.
    + repeat split; intros; lia.
Qed.

(** [findSpaceIndex] with a fallback inside the text. *)
Lemma findSpaceIndex_found (text : list rune) (fallback : Z) :
  0 <= fallback ->
  0 <= findSpaceIndex text fallback <= fallback
  /\ (forall i, findSpaceIndex text fallback < i <= fallback ->
       IsSpace (index text i) = false)
  /\ (IsSpace (index text (findSpaceIndex text fallback)) = true
      \/ (findSpaceIndex text fallback = fallback
          /\ forall i, 0 <= i <= fallback -> IsSpace (index text i) = false)).
Proof.
  intros Hfb. unfold findSpaceIndex.
  destruct (findSpace_loop_spec text (Z.to_nat (fallback + 1)) fallback
              ltac:(lia) ltac:(lia)) as (Hr & Hno & Hsp).
  cbv zeta in *.
  destruct (Z.ltb_spec (findSpace_loop text (Z.to_nat (fallback + 1)) fallback) 0)
    as [Hlt|Hge].
  - split; [lia|]. split; [intros; lia|]. right. split; [done|].
    intros i Hi. apply Hno. lia.
  - split; [lia|]. split; [done|]. left. by apply Hsp.
Qed.

(** X2: [findSpaceIndex] returns the index of the last whitespace rune at
    or before [fallback], and [fallback] itself when there is none there;
    a negative [fallback] comes back as it is. *)
Theorem findSpaceIndex_last_space (text : list rune) (fallback : Z) :
  (fallback < 0 -> findSpaceIndex text fallback = fallback)
  /\ (0 <= fallback < len text ->
      let r := findSpaceIndex text fallback in
      0 <= r <= fallback
      /\ (forall i, r < i <= fallback -> IsSpace (index text i) = false)
      /\ (IsSpace (index text r) = true
          \/ (r = fallback
              /\ forall i, 0 <= i <= fallback -> IsSpace (index text i) = false))).
Proof.
  split.
  - intros Hneg. unfold findSpaceIndex.
    replace (Z.to_nat (fallback + 1)) with 0%nat by lia. simpl.
    destruct (Z.ltb_spec fallback 0); [done|lia].
  - intros [Hfb _]. by apply findSpaceIndex_found.
Qed.
(** ** The rows of each wrap mode *)

Lemma index_subslice (text : list rune) (low high i : Z) :
  0 <= low -> 0 <= i -> i < high - low ->
  index (subslice text low high) i = index text (low + i).
Proof.
  intros Hlow Hi Hlt. unfold index, subslice.
  rewrite nth_firstn, nth_skipn.
  destruct (Nat.ltb_spec (Z.to_nat i) (Z.to_nat (high - low))); [|lia].
  f_equal. lia.
Qed.

Lemma subslice_Forall_index (P : rune -> Prop) (text : list rune) (low high : Z) :
  0 <= low -> high <= len text ->
  (forall i, low <= i < high -> P (index text i)) ->
  Forall P (subslice text low high).
Proof.
  intros Hlow Hhigh HP.
  destruct (Z_lt_ge_dec low high) as [Hlt|Hge].
  - apply (Forall_nth P 0). intros i Hi.
    pose proof (subslice_length text low high Hlow ltac:(lia) Hhigh) as Hl.
    unfold len in Hl.
    pose proof (index_subslice text low high (Z.of_nat i) Hlow ltac:(lia)
                  ltac:(lia)) as Hidx.
    unfold index in Hidx at 1. rewrite Nat2Z.id in Hidx. rewrite Hidx.
    apply HP. lia.
  - unfold subslice. replace (Z.to_nat (high - low)) with 0%nat by lia.
    constructor.
Qed.

Lemma subslice_Forall_inside {A} (P : A -> Prop) (text : list A) (a b c d : Z) :
  0 <= a -> a <= b -> b <= c -> c <= d ->
  Forall P (subslice text a d) -> Forall P (subslice text b c).
Proof.
  intros Ha Hab Hbc Hcd HP.
  rewrite <- (subslice_app text a b d), <- (subslice_app text b c d) in HP by lia.
  apply Forall_app in HP as [_ HP]. by apply Forall_app in HP as [HP _].
Qed.

Section WrapModes.
Context `{Float32 F}.
Variable s : TextSegment.
Variable maxWidth : F.
Variable measurer : list rune -> F.

(** In break mode a row ends at the end of the line or where one more
    rune would not fit. *)
Lemma wrapBreak_maximal (fuel : nat) :
  forall l_end low high bounds res,
  wrapBreak s maxWidth measurer fuel l_end low high bounds = Some res ->
  high = l_end \/ checker s maxWidth measurer low (high + 1) = false ->
  exists new,
    res = bounds ++ new
    /\ Forall (fun b => end_ b = l_end
                        \/ checker s maxWidth measurer (begin b) (end_ b + 1) = false)
              new.
Proof.
  induction fuel as [|n IH]; intros l_end low high bounds res Hrun Hinv;
    [done|].
  cbn [wrapBreak] in Hrun. destruct (Z.ltb_spec low high) as [Hlt|Hge].
  - fold (checker s maxWidth measurer low high) in Hrun.
    destruct (checker s maxWidth measurer low high) eqn:Hfit.
    + destruct (IH _ _ _ _ _ Hrun) as (new & -> & Hnew); [by left|].
      exists (mkRow s low high false :: new).
      split; [by rewrite <- app_assoc|]. by constructor.
    + destruct (binarySearch_below (checker s maxWidth measurer) low high Hlt Hfit)
        as [_ Hnext].
      destruct (IH _ _ _ _ _ Hrun) as (new & -> & Hnew); [by right|].
      by exists new.
  - injection Hrun as <-. exists []. by rewrite app_nil_r.
Qed.

(** In word mode a row ends at the end of the line, or just before a
    whitespace rune, or it holds no whitespace rune at all. *)
Lemma wrapWord_breaks (fuel : nat) :
  forall l_end low high bounds res,
  wrapWord s maxWidth measurer fuel l_end low high bounds = Some res ->
  0 <= low -> low <= high -> high <= l_end ->
  l_end <= len (runes_of_string (Text s)) ->
  high = l_end \/ IsSpace (index (runes_of_string (Text s)) high) = true
  \/ Forall (fun r => IsSpace r = false)
            (subslice (runes_of_string (Text s)) low high) ->
  exists new,
    res = bounds ++ new
    /\ Forall (fun b =>
         end_ b = l_end
         \/ IsSpace (index (runes_of_string (Text s)) (end_ b)) = true
         \/ Forall (fun r => IsSpace r = false)
                   (row_text (runes_of_string (Text s)) b)) new.
Proof.
  induction fuel as [|n IH];
    intros l_end low high bounds res Hrun Hlow Hle Hhigh Hlen Hinv; [done|].
  cbn [wrapWord] in Hrun. destruct (Z.ltb_spec low high) as [Hlt|Hge].
  - cbv zeta in Hrun. fold (checker s maxWidth measurer low high) in Hrun.
    destruct (checker s maxWidth measurer low high) eqn:Hfit.
    + set (low' := if (high <? l_end)
                        && IsSpace (index (runes_of_string (Text s)) high)
                   then high + 1 else high) in Hrun.
      assert (high <= low' <= l_end) as Hlow'.
      { unfold low'. destruct (Z.ltb_spec high l_end); simpl; [|lia].
        destruct (IsSpace _); lia. }
      edestruct IH as (new & -> & Hnew); [exact Hrun|lia|lia|lia|lia|by left|].
      exists (mkRow s low high false :: new).
      split; [by rewrite <- app_assoc|]. by constructor.
    + rewrite subslice_length in Hrun by lia.
      set (last := low + (high - low) - 1) in Hrun.
      assert (low <= last) as Hlast by (unfold last; lia).
      pose proof (binarySearch_range (checker s maxWidth measurer) low last Hlast)
        as Hrange.
      set (fb := binarySearch (checker s maxWidth measurer) low last - low) in *.
      set (sub := subslice (runes_of_string (Text s)) low high) in *.
      assert (len sub = high - low) as Hsub.
      { unfold sub. apply subslice_length; lia. }
      destruct (findSpaceIndex_found sub fb) as (Hr & _ & Hcase);
        [unfold fb, last in *; lia|].
      assert (fb <= high - low - 1) as Hfb by (unfold fb, last in *; lia).
      clearbody fb last.
      edestruct IH as (new & -> & Hnew);
        [exact Hrun|lia|lia|lia|lia| |by exists new].
      right. destruct Hcase as [Hsp | [Heq Hnone]].
      * left. unfold sub in Hsp at 1. rewrite index_subslice in Hsp;
          [done|lia|lia|lia].
      * right. rewrite Heq. apply subslice_Forall_index; [lia|lia|].
        intros i Hi. specialize (Hnone (i - low) ltac:(lia)).
        unfold sub in Hnone. rewrite index_subslice in Hnone; [|lia|lia|lia].
        by replace (low + (i - low)) with i in Hnone by lia.
  - injection Hrun as <-. exists []. by rewrite app_nil_r.
Qed.

(** The loop over the lines, for any description [P] of what a round
    adds. *)
Lemma lineBounds_loop_rows (wrap : TextWrap) (P : rowBoundary -> list rowBoundary -> Prop)
    (ok : rowBoundary -> Prop) (lines : list rowBoundary) :
  (forall bounds l, ok l ->
     exists g, lineBounds_step s wrap maxWidth measurer bounds l = Some (bounds ++ g)
               /\ P l g) ->
  Forall ok lines ->
  forall bounds,
  exists groups,
    lineBounds_loop s wrap maxWidth measurer lines bounds
      = Some (bounds ++ concat groups)
    /\ Forall2 P lines groups.
Proof.
  intros Hstep Hlines. induction Hlines as [|l lines Hl _ IH]; intros bounds.
  - exists []. simpl. by rewrite app_nil_r.
  - destruct (Hstep bounds l Hl) as (g & Hg & HP).
    destruct (IH (bounds ++ g)) as (groups & Hloop & Hgroups).
    exists (g :: groups). simpl. rewrite Hg, Hloop.
    split; [by rewrite <- app_assoc|by constructor].
Qed.

Lemma lineBounds_wrapping (wrap : TextWrap) :
  f_le maxWidth f_zero = false -> is_off wrap = false ->
  lineBounds s wrap maxWidth measurer
  = lineBounds_loop s wrap maxWidth measurer (splitLines s) [].
Proof. intros Hpos Hoff. unfold lineBounds. by rewrite Hpos, Hoff. Qed.
End WrapModes.
Lemma Forall2_concat_singletons {A B} (Q : A -> B -> Prop) (xs : list A)
    (gs : list (list B)) :
  Forall2 (fun x g => exists b, g = [b] /\ Q x b) xs gs ->
  Forall2 Q xs (concat gs).
Proof.
  induction 1 as [|x g xs gs (b & -> & Hb) _ IH]; simpl; by constructor.
Qed.

Lemma ordered_rows_app (l1 l2 : list rowBoundary) :
  ordered_rows l1 -> ordered_rows l2 ->
  (forall b b', b ∈ l1 -> b' ∈ l2 -> end_ b <= begin b') ->
  ordered_rows (l1 ++ l2).
Proof.
  intros H1 H2 Hcross. induction l1 as [|b l1 IH]; simpl; [done|].
  destruct H1 as [Hb H1]. split.
  - apply Forall_app. split; [done|].
    apply Forall_forall. intros b' Hb'. apply Hcross; [left|done].
  - apply IH; [done|]. intros b1 b' Hb1 Hb'. apply Hcross; [by right|done].
Qed.

Lemma pieces_ordered (text : list rune) (lo : Z) (rows : list rowBoundary) (e : Z) :
  pieces text lo rows e ->
  ordered_rows rows
  /\ Forall (fun b => lo <= begin b /\ begin b <= end_ b /\ end_ b <= e) rows.
Proof.
  induction 1 as [|lo b nxt rest e Hb Hle Hnxt Hrest [IHo IHf]]; [done|].
  pose proof (pieces_ge _ _ _ _ Hrest) as Hge. split.
  - split; [|done]. eapply Forall_impl; [exact IHf|]. intros b' ?. simpl in *. lia.
  - constructor; [lia|].
    eapply Forall_impl; [exact IHf|]. intros b' ?. simpl in *. lia.
Qed.

Lemma lines_from_separated (s : TextSegment) (rest : list rune) (i low : Z) :
  low <= i ->
  Forall (fun l => low <= begin l) (lines_from s rest i low)
  /\ separated_lines (lines_from s rest i low).
Proof.
  revert i low. induction rest as [|c rest IH]; intros i low Hle; simpl.
  - repeat split; repeat constructor. simpl. lia.
  - destruct (c =? 10).
    + destruct (IH (i + 1) (i + 1) ltac:(lia)) as (Hlow & Hchain).
      repeat split.
      * constructor; [simpl; lia|].
        eapply Forall_impl; [exact Hlow|]. intros l ?. simpl in *. lia.
      * eapply Forall_impl; [exact Hlow|]. intros l ?. simpl in *. lia.
      * exact Hchain.
    + apply IH. lia.
Qed.
Section WrapModeClaims.
Context `{Float32 F}.
Variable s : TextSegment.
Variable maxWidth : F.
Variable measurer : list rune -> F.

(** X3: in truncate mode, with a positive width, every physical line
    gives exactly one row; the row begins where the line begins, is
    empty or fits, and when it stops short of the end of the line one
    more rune would not fit. *)
Theorem truncate_rows :
  f_le maxWidth f_zero = false ->
  exists rows,
    lineBounds s TextTruncate maxWidth measurer = Some rows
    /\ Forall2 (fun l b =>
         seg b = s /\ begin b = begin l
         /\ begin l <= end_ b /\ end_ b <= end_ l
         /\ (end_ b = begin b
             \/ checker s maxWidth measurer (begin b) (end_ b) = true)
         /\ (end_ b < end_ l ->
             checker s maxWidth measurer (begin b) (end_ b + 1) = false))
         (splitLines s) rows.
Proof.
  intros Hpos.
  destruct (lineBounds_groups s TextTruncate maxWidth measurer)
    as (groups & Hrun & Hg).
  rewrite effective_wrap_on in Hg by done.
  exists (concat groups). split; [done|].
  apply Forall2_concat_singletons.
  eapply (Forall2_impl_Forall _ _ _ _ _ (splitLines_rows s) Hg).
  intros l g (Hseg & (Hb0 & Hbe & Hlen) & _). unfold line_rows. simpl.
  destruct (Z.eqb_spec (begin l) (end_ l)) as [Heq|Hne].
  - intros ->. exists l. split; [done|]. repeat split; try (lia || done).
  - intros ->. eexists. split; [reflexivity|]. simpl.
    pose proof (binarySearch_range (checker s maxWidth measurer) (begin l) (end_ l) Hbe)
      as Hrange.
    pose proof (binarySearch_reached (checker s maxWidth measurer) (begin l) (end_ l))
      as Hreached.
    repeat split; try (lia || done).
    intros Hshort.
    destruct (checker s maxWidth measurer (begin l) (end_ l)) eqn:Hfit.
    + rewrite binarySearch_whole in Hshort; [lia|lia|done].
    + apply binarySearch_below; [lia|done].
Qed.

Lemma lineBounds_step_break (bounds : list rowBoundary) (l : rowBoundary) :
  seg l = s -> in_bounds (runes_of_string (Text s)) l ->
  exists g,
    lineBounds_step s TextWrapBreak maxWidth measurer bounds l = Some (bounds ++ g)
    /\ line_rows s TextWrapBreak maxWidth measurer l g
    /\ Forall (fun b => end_ b = end_ l
                        \/ checker s maxWidth measurer (begin b) (end_ b + 1) = false) g.
Proof.
  intros Hseg Hin.
  destruct (lineBounds_step_spec s TextWrapBreak maxWidth measurer bounds l
              eq_refl Hseg Hin) as (g & Hstep & Hrows).
  exists g. split; [done|]. split; [done|].
  unfold lineBounds_step in Hstep. unfold line_rows in Hrows. simpl in Hrows.
  destruct (Z.eqb_spec (begin l) (end_ l)) as [Heq|Hne].
  - subst g. constructor; [by left|constructor].
  - destruct (wrapBreak_maximal s maxWidth measurer _ _ _ _ _ _ Hstep)
      as (new & Hnew & Hmax); [by left|].
    apply app_inv_head in Hnew. by subst.
Qed.

(** X4: in break mode, with a positive width, the rows of a physical
    line follow one another without a gap from the beginning of the
    line, every row fits, and every row ends at the end of the line or
    where one more rune would not fit; when every single rune of the
    line fits, the rows make up the whole line. *)
Theorem break_rows :
  f_le maxWidth f_zero = false ->
  exists groups,
    lineBounds s TextWrapBreak maxWidth measurer = Some (concat groups)
    /\ Forall2 (fun l g =>
         (exists e, begin l <= e /\ e <= end_ l
            /\ concat (map (row_text (runes_of_string (Text s))) g)
               = subslice (runes_of_string (Text s)) (begin l) e)
         /\ Forall (fun b => begin b = end_ b
                             \/ checker s maxWidth measurer (begin b) (end_ b) = true) g
         /\ Forall (fun b => end_ b = end_ l
                             \/ checker s maxWidth measurer (begin b) (end_ b + 1)
                                = false) g
         /\ ((forall i, begin l <= i < end_ l ->
                checker s maxWidth measurer i (i + 1) = true) ->
             concat (map (row_text (runes_of_string (Text s))) g)
             = row_text (runes_of_string (Text s)) l))
         (splitLines s) groups.
Proof.
  intros Hpos. rewrite lineBounds_wrapping by done.
  destruct (lineBounds_loop_rows s maxWidth measurer TextWrapBreak
              (fun l g => line_rows s TextWrapBreak maxWidth measurer l g
                 /\ Forall (fun b => end_ b = end_ l
                      \/ checker s maxWidth measurer (begin b) (end_ b + 1) = false) g)
              (fun l => seg l = s /\ in_bounds (runes_of_string (Text s)) l)
              (splitLines s)) with (bounds := @nil rowBoundary)
    as (groups & Hrun & Hg).
  { intros bounds l [Hseg Hin].
    destruct (lineBounds_step_break bounds l Hseg Hin) as (g & ? & ? & ?).
    by exists g. }
  { eapply Forall_impl; [apply splitLines_rows|]. by intros l (? & ? & _). }
  exists groups. split; [done|].
  eapply (Forall2_impl_Forall _ _ _ _ _ (splitLines_rows s) Hg).
  intros l g (Hseg & (Hb0 & Hbe & Hlen) & _) [Hrows Hmax].
  split; [|split; [|split; [exact Hmax|]]];
    unfold line_rows in Hrows; simpl in Hrows;
    destruct (Z.eqb_spec (begin l) (end_ l)) as [Heq|Hne].
  - subst g. exists (end_ l). repeat split; try lia. simpl. by rewrite app_nil_r.
  - destruct Hrows as (e & Hp & He & _ & Hcat & _).
    pose proof (pieces_ge _ _ _ _ Hp). by exists e.
  - subst g. constructor; [by left|constructor].
  - destruct Hrows as (e & _ & _ & Hfit & _).
    eapply Forall_impl; [exact Hfit|].
    intros b (_ & _ & _ & _ & _ & ?). by right.
  - subst g. intros _. simpl. by rewrite app_nil_r.
  - destruct Hrows as (e & _ & _ & _ & Hcat & Hall).
    intros Hone. by rewrite Hcat, (Hall Hone).
Qed.

Lemma lineBounds_step_word (bounds : list rowBoundary) (l : rowBoundary) :
  seg l = s -> in_bounds (runes_of_string (Text s)) l ->
  exists g,
    lineBounds_step s TextWrapWord maxWidth measurer bounds l = Some (bounds ++ g)
    /\ Forall (fun b =>
         end_ b = end_ l
         \/ IsSpace (index (runes_of_string (Text s)) (end_ b)) = true
         \/ Forall (fun r => IsSpace r = false)
                   (row_text (runes_of_string (Text s)) b)) g.
Proof.
  intros Hseg Hin.
  destruct (lineBounds_step_spec s TextWrapWord maxWidth measurer bounds l
              eq_refl Hseg Hin) as (g & Hstep & Hrows).
  exists g. split; [done|].
  unfold lineBounds_step in Hstep. unfold line_rows in Hrows. simpl in Hrows.
  destruct Hin as (Hb0 & Hbe & Hlen).
  destruct (Z.eqb_spec (begin l) (end_ l)) as [Heq|Hne].
  - subst g. constructor; [by left|constructor].
  - destruct (wrapWord_breaks s maxWidth measurer _ _ _ _ _ _ Hstep)
      as (new & Hnew & Hbreaks); try lia.
    apply app_inv_head in Hnew. by subst.
Qed.

(** X5: in word mode, with a positive width, every row ends at the end
    of its physical line, or just before a whitespace rune, or holds no
    whitespace rune at all: a run of non-whitespace runes is cut only
    where the row has no whitespace to break at. *)
Theorem word_rows_break_at_whitespace :
  f_le maxWidth f_zero = false ->
  exists groups,
    lineBounds s TextWrapWord maxWidth measurer = Some (concat groups)
    /\ Forall2 (fun l g =>
         Forall (fun b =>
           end_ b = end_ l
           \/ IsSpace (index (runes_of_string (Text s)) (end_ b)) = true
           \/ Forall (fun r => IsSpace r = false)
                     (row_text (runes_of_string (Text s)) b)) g)
         (splitLines s) groups.
Proof.
  intros Hpos. rewrite lineBounds_wrapping by done.
  destruct (lineBounds_loop_rows s maxWidth measurer TextWrapWord
              (fun l g => Forall (fun b =>
                 end_ b = end_ l
                 \/ IsSpace (index (runes_of_string (Text s)) (end_ b)) = true
                 \/ Forall (fun r => IsSpace r = false)
                           (row_text (runes_of_string (Text s)) b)) g)
              (fun l => seg l = s /\ in_bounds (runes_of_string (Text s)) l)
              (splitLines s)) with (bounds := @nil rowBoundary)
    as (groups & Hrun & Hg).
  { intros bounds l [Hseg Hin]. by apply lineBounds_step_word. }
  { eapply Forall_impl; [apply splitLines_rows|]. by intros l (? & ? & _). }
  by exists groups.
Qed.
End WrapModeClaims.
Lemma groups_ordered (lines : list rowBoundary) (groups : list (list rowBoundary)) :
  separated_lines lines ->
  Forall2 (fun l g =>
    ordered_rows g
    /\ Forall (fun b => begin l <= begin b /\ end_ b <= end_ l) g) lines groups ->
  ordered_rows (concat groups).
Proof.
  intros Hsep Hg. induction Hg as [|l g ls gs [Hord Hin] Hrest IH]; [done|].
  destruct Hsep as [Hafter Hsep]. simpl.
  apply ordered_rows_app; [done|by apply IH|].
  intros b b' Hb Hb'.
  assert (Forall (fun b' => end_ l < begin b') (concat gs)) as Hlater.
  { eapply (Forall2_concat_Forall _ _ _ _ _ Hafter Hrest).
    intros l' g' Hl' [_ Hin']. eapply Forall_impl; [exact Hin'|].
    intros b0 ?. simpl in *. lia. }
  rewrite Forall_forall in Hin, Hlater.
  specialize (Hin b Hb). specialize (Hlater b' Hb'). simpl in *. lia.
Qed.

(** X6: in every mode and for every width and measurer, the rows of
    [lineBounds] come in text order without overlap (a row ends where the
    rows after it have not begun), and no row holds a newline rune. *)
Theorem rows_ordered_without_newline `{Float32 F} (s : TextSegment)
    (wrap : TextWrap) (maxWidth : F) (measurer : list rune -> F) :
  exists rows,
    lineBounds s wrap maxWidth measurer = Some rows
    /\ ordered_rows rows
    /\ Forall (fun b => Forall (fun r => r <> 10)
                          (row_text (runes_of_string (Text s)) b)) rows.
Proof.
  destruct (lineBounds_groups s wrap maxWidth measurer) as (groups & Hrun & Hg).
  exists (concat groups). split; [done|]. split.
  - apply (groups_ordered (splitLines s)).
    + rewrite splitLines_lines_from. by apply lines_from_separated.
    + eapply (Forall2_impl_Forall _ _ _ _ _ (splitLines_rows s) Hg).
      intros l g (Hseg & Hin & _) Hrows.
      destruct (line_rows_pieces s maxWidth measurer _ l g Hseg Hin Hrows)
        as [(e & Hp & He) Hall].
      split; [by destruct (pieces_ordered _ _ _ _ Hp)|].
      eapply Forall_impl; [exact Hall|]. intros b (_ & ? & ? & ?). lia.
  - eapply (Forall2_concat_Forall _ _ _ _ _ (splitLines_rows s) Hg).
    intros l g (Hseg & Hin & Hnl) Hrows.
    destruct (line_rows_pieces s maxWidth measurer _ l g Hseg Hin Hrows)
      as [_ Hall].
    eapply Forall_impl; [exact Hall|]. intros b (_ & ? & ? & ?).
    destruct Hin as (? & ? & ?).
    by apply (subslice_Forall_inside _ _ (begin l) (begin b) (end_ b) (end_ l)).
Qed.

(** ** The row cache of the container *)

Lemma set_last_inline_app (front lines : list rowBoundary) (i : bool) :
  lines <> [] ->
  set_last_inline (front ++ lines) i = front ++ set_last_inline lines i.
Proof.
  intros Hne. unfold set_last_inline. rewrite rev_app_distr.
  destruct (rev lines) as [|b rest] eqn:E.
  - apply (f_equal (@rev _)) in E. rewrite rev_involutive in E. done.
  - simpl. rewrite rev_app_distr, rev_involutive. by rewrite app_assoc.
Qed.

Lemma splitLines_nonempty (s : TextSegment) : splitLines s <> [].
Proof.
  rewrite splitLines_lines_from. intros E.
  apply (f_equal (@length _)) in E. rewrite lines_from_length in E. done.
Qed.

Lemma lineBounds_unwrapped `{Float32 F} (s : TextSegment) (wrap : TextWrap)
    (maxWidth : F) (measurer : list rune -> F) :
  effective_wrap wrap maxWidth = TextWrapOff ->
  lineBounds s wrap maxWidth measurer = Some (splitLines s).
Proof.
  unfold effective_wrap, lineBounds.
  destruct (f_le maxWidth f_zero); simpl; [done|].
  destruct wrap; simpl; done.
Qed.

Section RowCache.
Context `{Float32 F} `{Toolkit F}.

Lemma updateRowBounds_loop_unwrapped (t : RichText F) (segs : list RichTextSegment)
    (bounds : list rowBoundary) :
  effective_wrap (Wrapping t) (RichText_maxWidth t) = TextWrapOff ->
  updateRowBounds_loop t segs bounds
  = Some (bounds ++ concat (map (fun ts => set_last_inline (splitLines ts)
                                             (Inline (Style ts)))
                                (text_segments segs))).
Proof.
  intros Hoff. revert bounds.
  induction segs as [|[ts|i x] rest IH]; intros bounds; simpl.
  - by rewrite app_nil_r.
  - unfold RichText_maxWidth in Hoff.
    rewrite (lineBounds_unwrapped _ _ _ _ Hoff).
    pose proof (splitLines_nonempty ts) as Hne.
    destruct (Z.eqb_spec (len (bounds ++ splitLines ts)) 0) as [E|_].
    + unfold len in E. rewrite length_app in E.
      destruct (splitLines ts); [done|simpl in E; lia].
    + rewrite IH, set_last_inline_app by done. by rewrite <- app_assoc.
  - apply IH.
Qed.

(** X7: when wrapping is off, or the widget is no wider than twice the
    padding, [Refresh] caches for each text segment, in order, its physical
    lines with the last one's inline flag set to the segment's; segments
    that are not text add nothing; the number of rows is the number of text
    segments plus the number of newline runes in them. *)
Theorem unwrapped_rows (t : RichText F) :
  effective_wrap (Wrapping t) (RichText_maxWidth t) = TextWrapOff ->
  rowBounds (Refresh t)
  = concat (map (fun ts => set_last_inline (splitLines ts) (Inline (Style ts)))
                (text_segments (Segments t)))
  /\ rows (Refresh t)
     = foldr (fun ts n => 1 + Z.of_nat (count_occ Z.eq_dec
                                          (runes_of_string (Text ts)) 10) + n)
             0 (text_segments (Segments t)).
Proof.
  intros Hoff.
  assert (rowBounds (Refresh t)
          = concat (map (fun ts => set_last_inline (splitLines ts) (Inline (Style ts)))
                        (text_segments (Segments t)))) as Hrows.
  { unfold Refresh, updateRowBounds.
    by rewrite (updateRowBounds_loop_unwrapped t (Segments t) [] Hoff). }
  split; [exact Hrows|].
  unfold rows. rewrite Hrows. clear Hrows.
  induction (text_segments (Segments t)) as [|ts rest IH]; [done|].
  simpl. unfold len in *. rewrite length_app, Nat2Z.inj_add, IH.
  assert (length (set_last_inline (splitLines ts) (Inline (Style ts)))
          = length (splitLines ts)) as ->.
  { unfold set_last_inline.
    destruct (rev (splitLines ts)) as [|b front] eqn:E; [done|].
    rewrite <- (rev_involutive (splitLines ts)), E. simpl.
    by rewrite !length_app, length_rev. }
  rewrite splitLines_lines_from, lines_from_length. lia.
Qed.

End RowCache.

Lemma set_last_inline_splitLines (s : TextSegment) :
  set_last_inline (splitLines s) true = splitLines s.
Proof.
  unfold splitLines, set_last_inline.
  destruct (splitLines_loop s (runes_of_string (Text s)) 0 0 []) as [lines low].
  rewrite rev_app_distr. simpl. by rewrite rev_involutive.
Qed.

Lemma indices_lookup (n : Z) (i : nat) :
  indices n !! i = if decide (i < Z.to_nat n)%nat then Some (Z.of_nat i) else None.
Proof.
  unfold indices. rewrite list_lookup_fmap.
  destruct (decide (i < Z.to_nat n)%nat) as [Hlt|Hge].
  - by rewrite lookup_seq_lt.
  - by rewrite lookup_seq_ge by lia.
Qed.

Section RowQueries.
Context `{Float32 F} `{Toolkit F}.

Lemma rowBoundary_lookup (t : RichText F) (i : nat) (b : rowBoundary) :
  rowBounds t !! i = Some b -> RichText_rowBoundary t (Z.of_nat i) = Some b.
Proof.
  intros Hb. unfold RichText_rowBoundary, rows, len.
  pose proof (lookup_lt_Some _ _ _ Hb) as Hlt.
  destruct (Z.ltb_spec (Z.of_nat i) 0); [lia|].
  destruct (Z.geb_spec (Z.of_nat i) (Z.of_nat (length (rowBounds t)))); [lia|].
  simpl. by rewrite Nat2Z.id.
Qed.

Lemma row_lookup (t : RichText F) (i : nat) (b : rowBoundary) :
  rowBounds t !! i = Some b ->
  in_bounds (runes_of_string (Text (seg b))) b ->
  RichText_row t (Z.of_nat i) = row_text (runes_of_string (Text (seg b))) b.
Proof.
  intros Hb (Hb0 & Hbe & Hlen). unfold RichText_row.
  rewrite (rowBoundary_lookup t i b Hb).
  destruct (Z.ltb_spec (begin b) 0); [lia|].
  destruct (Z.gtb_spec (end_ b) (len (runes_of_string (Text (seg b))))); [lia|].
  simpl. destruct (Z.ltb_spec (end_ b) (begin b)); [lia|]. done.
Qed.

Lemma rows_of_cache (t : RichText F) :
  Forall (fun b => in_bounds (runes_of_string (Text (seg b))) b) (rowBounds t) ->
  map (RichText_row t) (indices (rows t))
  = map (fun b => row_text (runes_of_string (Text (seg b))) b) (rowBounds t).
Proof.
  intros Hall. apply list_eq. intros i.
  change (map ?f ?l) with (f <$> l). rewrite !list_lookup_fmap, indices_lookup.
  unfold rows, len. rewrite Nat2Z.id.
  destruct (decide (i < length (rowBounds t))%nat) as [Hlt|Hge].
  - destruct (lookup_lt_is_Some_2 _ _ Hlt) as [b Hb]. rewrite Hb. simpl.
    f_equal. apply row_lookup; [done|].
    by apply (Forall_lookup_1 _ _ _ _ Hall Hb).
  - by rewrite lookup_ge_None_2 by lia.
Qed.

(** X8: the widget [NewRichTextWithText] builds has one row for each
    physical line of the text, one more than there are newline runes; the
    rows read back with [row] and joined with newlines are the runes of
    the text, and only the last row is flagged inline. *)
Theorem NewRichTextWithText_rows `{ThemeNames} (text : string) :
  rows (NewRichTextWithText text)
  = 1 + Z.of_nat (count_occ Z.eq_dec (runes_of_string text) 10)
  /\ join_lines (map (RichText_row (NewRichTextWithText text))
                     (indices (rows (NewRichTextWithText text))))
     = runes_of_string text
  /\ map inline (rowBounds (NewRichTextWithText text))
     = replicate (count_occ Z.eq_dec (runes_of_string text) 10) false ++ [true].
Proof.
  set (ts := {| Style := RichTextStyleInline; Text := text; concealed := false |}).
  assert (rowBounds (NewRichTextWithText text)
          = lines_from ts (runes_of_string text) 0 0) as Hrows.
  { unfold NewRichTextWithText, NewRichText, Refresh, updateRowBounds.
    rewrite updateRowBounds_loop_unwrapped.
    - simpl. fold ts. change (Inline (Style ts)) with true.
      rewrite set_last_inline_splitLines, app_nil_r.
      apply splitLines_lines_from.
    - unfold effective_wrap. simpl. by rewrite orb_true_r. }
  split; [|split].
  - unfold rows, len. rewrite Hrows, lines_from_length. lia.
  - rewrite rows_of_cache.
    + rewrite Hrows.
      pose proof (splitLines_rows ts) as Hall.
      rewrite splitLines_lines_from in Hall. simpl in Hall.
      rewrite (map_ext_Forall _ (row_text (runes_of_string text))).
      * rewrite (lines_from_join ts (runes_of_string text)); try lia.
        -- apply subslice_full.
        -- apply len_nonneg.
        -- apply subslice_full.
      * eapply Forall_impl; [exact Hall|]. by intros b (-> & _).
    + rewrite Hrows.
      pose proof (splitLines_rows ts) as Hall.
      rewrite splitLines_lines_from in Hall. simpl in Hall.
      eapply Forall_impl; [exact Hall|]. by intros b (-> & ? & _).
  - rewrite Hrows. apply lines_from_inline.
Qed.

Lemma updateRowBounds_loop_segments (t : RichText F) (all segs : list RichTextSegment)
    (bounds : list rowBoundary) :
  (forall sg, sg ∈ segs -> sg ∈ all) ->
  Forall (fun b => TextSeg (seg b) ∈ all
                   /\ in_bounds (runes_of_string (Text (seg b))) b) bounds ->
  exists bounds',
    updateRowBounds_loop t segs bounds = Some bounds'
    /\ Forall (fun b => TextSeg (seg b) ∈ all
                        /\ in_bounds (runes_of_string (Text (seg b))) b) bounds'.
Proof.
  revert bounds. induction segs as [|sg segs IH]; intros bounds Hsub Hb; simpl.
  - by exists bounds.
  - assert (forall sg', sg' ∈ segs -> sg' ∈ all) as Hsub'.
    { intros sg' Hin. apply Hsub. by right. }
    destruct sg as [textSeg|i x]; [|by apply IH].
    destruct (lineBounds_rows_in_bounds textSeg (Wrapping t)
                (f_sub (Width (size t)) (f_mul (f_of_int 2) theme_Padding))
                (segment_measurer textSeg)) as (rows & -> & Hrows & _).
    assert (Forall (fun b => TextSeg (seg b) ∈ all
                             /\ in_bounds (runes_of_string (Text (seg b))) b)
                   (bounds ++ rows)) as Hall.
    { apply Forall_app. split; [done|].
      eapply Forall_impl; [exact Hrows|]. intros b [-> ?].
      split; [|done]. apply Hsub. by left. }
    destruct (len (bounds ++ rows) =? 0); [by apply IH|].
    apply IH; [done|]. by apply set_last_inline_Forall.
Qed.

(** X9: after [Refresh], in every wrapping mode, a row index outside
    [0 .. rows-1] has no boundary and the nil row; an index inside has a
    boundary whose segment is one of the widget's text segments, [row]
    returns that segment's runes from [begin] to [end], and [rowLength] is
    [end - begin]. *)
Theorem row_after_Refresh (t : RichText F) (row : Z) :
  (row < 0 \/ rows (Refresh t) <= row ->
   RichText_rowBoundary (Refresh t) row = None
   /\ RichText_row (Refresh t) row = []
   /\ RichText_rowLength (Refresh t) row = 0)
  /\ (0 <= row < rows (Refresh t) ->
      exists b,
        RichText_rowBoundary (Refresh t) row = Some b
        /\ TextSeg (seg b) ∈ Segments t
        /\ RichText_row (Refresh t) row
           = subslice (runes_of_string (Text (seg b))) (begin b) (end_ b)
        /\ RichText_rowLength (Refresh t) row = end_ b - begin b).
Proof.
  split.
  - intros Hout.
    assert (RichText_rowBoundary (Refresh t) row = None) as Hnone.
    { unfold RichText_rowBoundary.
      destruct (Z.ltb_spec row 0); [done|].
      destruct (Z.geb_spec row (rows (Refresh t))); [done|lia]. }
    unfold RichText_rowLength, RichText_row. by rewrite Hnone.
  - intros Hin.
    assert (Forall (fun b => TextSeg (seg b) ∈ Segments t
                             /\ in_bounds (runes_of_string (Text (seg b))) b)
                   (rowBounds (Refresh t))) as Hall.
    { unfold Refresh, updateRowBounds.
      destruct (updateRowBounds_loop_segments t (Segments t) (Segments t) [])
        as (bounds & -> & Hb); [done|constructor|]. exact Hb. }
    unfold rows, len in Hin.
    destruct (lookup_lt_is_Some_2 (rowBounds (Refresh t)) (Z.to_nat row))
      as [b Hb]; [lia|].
    destruct (Forall_lookup_1 _ _ _ _ Hall Hb) as [Hseg Hbounds].
    exists b. rewrite <- (Z2Nat.id row) by lia.
    split; [by apply rowBoundary_lookup|]. split; [done|].
    unfold RichText_rowLength.
    rewrite (row_lookup _ _ _ Hb Hbounds). split; [done|].
    unfold row_text. destruct Hbounds as (? & ? & ?).
    rewrite subslice_length; lia.
Qed.

End RowQueries.

(** ** Editing a rich text of several segments *)

Lemma locate_found (segs : list RichTextSegment) (pos i0 start : Z)
    (found : option (Z * TextSegment)) (i : Z) (ts : TextSegment) :
  locate segs pos i0 start found = Some (i, ts) ->
  found = Some (i, ts)
  \/ (i0 <= i /\ segs !! Z.to_nat (i - i0) = Some (TextSeg ts)).
Proof.
  revert i0 start found.
  induction segs as [|[ts'|il x] rest IH]; intros i0 start found Hloc; simpl in Hloc.
  - by left.
  - destruct (_ >? _).
    + injection Hloc as <- <-. right. split; [lia|].
      by rewrite Z.sub_diag.
    + apply IH in Hloc as [Hf|[Hle Hl]].
      * injection Hf as <- <-. right. split; [lia|]. by rewrite Z.sub_diag.
      * right. split; [lia|].
        replace (Z.to_nat (i - i0)) with (S (Z.to_nat (i - (i0 + 1)))) by lia.
        done.
  - apply IH in Hloc as [Hf|[Hle Hl]]; [by left|].
    right. split; [lia|].
    replace (Z.to_nat (i - i0)) with (S (Z.to_nat (i - (i0 + 1)))) by lia.
    done.
Qed.

Lemma locate_lookup (segs : list RichTextSegment) (pos i : Z) (ts : TextSegment) :
  locate segs pos 0 0 None = Some (i, ts) ->
  segs !! Z.to_nat i = Some (TextSeg ts).
Proof.
  intros Hloc. apply locate_found in Hloc as [?|[_ Hl]]; [done|].
  by rewrite Z.sub_0_r in Hl.
Qed.

Lemma locate_text (segs : list RichTextSegment) (pos i0 start : Z)
    (found : option (Z * TextSegment)) :
  if existsb is_text segs
  then exists i ts, locate segs pos i0 start found = Some (i, ts)
  else locate segs pos i0 start found = found.
Proof.
  revert i0 start found.
  induction segs as [|[ts'|il x] rest IH]; intros i0 start found; simpl.
  - done.
  - destruct (_ >? _); [by eauto|].
    specialize (IH (i0 + 1) (start + len (runes_of_string (Text ts')))
                   (Some (i0, ts'))).
    destruct (existsb is_text rest); [done|]. rewrite IH. eauto.
  - apply IH.
Qed.

Lemma no_text_existsb (segs : list RichTextSegment) :
  no_text_segment segs <-> existsb is_text segs = false.
Proof.
  unfold no_text_segment. induction segs as [|sg rest IH]; simpl.
  - split; [done|constructor].
  - rewrite Forall_cons, orb_false_iff. by rewrite IH.
Qed.

Lemma locate_skip (pre segs : list RichTextSegment) (pos i0 start : Z)
    (found : option (Z * TextSegment)) :
  no_text_segment pre ->
  locate (pre ++ segs) pos i0 start found = locate segs pos (i0 + len pre) start found.
Proof.
  intros Hpre. revert i0. induction Hpre as [|sg pre Hsg _ IH]; intros i0; simpl.
  - by rewrite Z.add_0_r.
  - destruct sg as [?|il x]; [done|]. rewrite IH. f_equal. unfold len. simpl. lia.
Qed.

(** The lookup stops at the first text segment when the position is
    inside it, and at the only text segment in any case. *)
Lemma locate_first (pre post : list RichTextSegment) (ts : TextSegment) (pos : Z) :
  no_text_segment pre ->
  pos < len (runes_of_string (Text ts))
  \/ no_text_segment post ->
  locate (pre ++ TextSeg ts :: post) pos 0 0 None = Some (len pre, ts).
Proof.
  intros Hpre Hpos. rewrite locate_skip by done. simpl. rewrite !Z.add_0_l.
  destruct (Z.gtb_spec (len (runes_of_string (Text ts))) pos) as [Hgt|Hle]; [done|].
  destruct Hpos as [Hlt|Hpost]; [lia|]. by apply locate_no_text.
Qed.

Lemma insert_middle {A} (pre post : list A) (x y : A) :
  <[Z.to_nat (len pre) := y]> (pre ++ x :: post) = pre ++ y :: post.
Proof.
  unfold len. rewrite Nat2Z.id.
  induction pre as [|a pre IH]; simpl; [done|]. by rewrite IH.
Qed.

Lemma len_fold_shift (segs : list RichTextSegment) (a : Z) :
  fold_left (fun ret sg => ret + len (runes_of_string (Textual sg))) segs a
  = a + fold_left (fun ret sg => ret + len (runes_of_string (Textual sg))) segs 0.
Proof.
  revert a. induction segs as [|sg rest IH]; intros a; simpl; [lia|].
  rewrite IH, (IH (0 + _)). lia.
Qed.

Lemma len_fold_insert (segs : list RichTextSegment) (i : nat)
    (old new : RichTextSegment) (a : Z) :
  segs !! i = Some old ->
  fold_left (fun ret sg => ret + len (runes_of_string (Textual sg)))
            (<[i := new]> segs) a
  = fold_left (fun ret sg => ret + len (runes_of_string (Textual sg))) segs a
    - len (runes_of_string (Textual old)) + len (runes_of_string (Textual new)).
Proof.
  revert i a. induction segs as [|sg rest IH]; intros i a Hl; [done|].
  destruct i as [|i]; simpl in *.
  - injection Hl as ->.
    rewrite len_fold_shift, (len_fold_shift rest (a + _)). lia.
  - by apply IH.
Qed.

Lemma runes_roundtrip_parts (a b c : string) (i j : nat) :
  runes_of_string (string_of_runes
    (take i (runes_of_string a) ++ runes_of_string b ++ drop j (runes_of_string c)))
  = take i (runes_of_string a) ++ runes_of_string b ++ drop j (runes_of_string c).
Proof.
  apply runes_of_string_of_runes. rewrite !Forall_app. repeat split.
  - apply Forall_take, runes_of_string_valid.
  - apply runes_of_string_valid.
  - apply Forall_drop, runes_of_string_valid.
Qed.

Section Editing.
Context `{Float32 F} `{Toolkit F} `{GoRuntime}.

Lemma RichText_len_store (t : RichText F) (i : Z) (old new : TextSegment) :
  Segments t !! Z.to_nat i = Some (TextSeg old) ->
  RichText_len (Refresh (store_segment t i new))
  = RichText_len t - len (runes_of_string (Text old))
    + len (runes_of_string (Text new)).
Proof.
  intros Hl. unfold RichText_len. rewrite store_segment_Segments.
  by rewrite (len_fold_insert _ _ _ _ _ Hl).
Qed.

(** [deleteFromTo] with the upper bound beyond the runes of the segment
    found: inside the capacity the spare zeros are copied out. *)
Lemma deleteFromTo_spare (t : RichText F) (lowBound highBound : Z)
    (i : Z) (from : TextSegment) :
  locate (Segments t) lowBound 0 0 None = Some (i, from) ->
  0 <= lowBound -> lowBound <= len (runes_of_string (Text from)) ->
  len (runes_of_string (Text from)) < highBound ->
  deleteFromTo t lowBound highBound
  = if highBound <=? cap (stringtoslicerune (Text from))
    then Returns
      (string_of_runes
         (drop (Z.to_nat lowBound) (runes_of_string (Text from))
          ++ replicate (Z.to_nat (highBound - len (runes_of_string (Text from)))) 0),
       Refresh (store_segment t i
         (with_Text from (string_of_runes
            (take (Z.to_nat lowBound) (runes_of_string (Text from)))))))
    else Panics.
Proof.
  intros Hloc Hlow Hle Hlt. unfold deleteFromTo. rewrite Hloc.
  unfold make_runes. rewrite (proj2 (Z.ltb_ge _ _)) by lia.
  cbn [mbind run_bind].
  destruct (Z.leb_spec highBound (cap (stringtoslicerune (Text from)))) as [Hcap|Hcap].
  - destruct (stringtoslicerune_reslice_spare (Text from) lowBound highBound)
      as (src & Hs & Hse); try done.
    rewrite Hs. cbn [mbind run_bind]. rewrite stringtoslicerune_slen.
    rewrite Z.gtb_ltb, (proj2 (Z.ltb_lt _ _)) by lia.
    destruct (stringtoslicerune_reslice (Text from) 0 lowBound)
      as (front & Hf & Hfe); try lia.
    destruct (stringtoslicerune_reslice (Text from)
                (len (runes_of_string (Text from)))
                (len (runes_of_string (Text from)))) as (back & Hb & Hbe);
      try lia.
    unfold slice_to, slice_from. rewrite Hf. cbn [mbind run_bind].
    rewrite stringtoslicerune_slen, Hb. cbn [mbind run_bind].
    unfold append_runes. rewrite Hfe, Hbe, Hse, subslice_empty, app_nil_r.
    rewrite subslice_prefix. rewrite copy_runes_all; [done|].
    rewrite length_app, length_drop, !length_replicate. unfold len in *. lia.
  - rewrite reslice_Panics; [done|]. lia.
Qed.

Lemma deleteFromTo_out_of_range (t : RichText F) (lowBound highBound : Z)
    (i : Z) (from : TextSegment) :
  locate (Segments t) lowBound 0 0 None = Some (i, from) ->
  lowBound < 0 \/ highBound < lowBound ->
  deleteFromTo t lowBound highBound = Panics.
Proof.
  intros Hloc Hbad. unfold deleteFromTo. rewrite Hloc. unfold make_runes.
  destruct (Z.ltb_spec (highBound - lowBound) 0) as [|Hge]; [done|].
  cbn [mbind run_bind]. rewrite reslice_Panics; [done|lia].
Qed.

(** A slice expression that begins beyond the length reads zeros only. *)
Lemma stringtoslicerune_reslice_beyond (str : string) (lo hi : Z) :
  len (runes_of_string str) < lo -> lo <= hi ->
  hi <= cap (stringtoslicerune str) ->
  exists sl,
    reslice (stringtoslicerune str) lo hi = Returns sl
    /\ elems sl = replicate (Z.to_nat (hi - lo)) 0.
Proof.
  intros Hlt Hle Hhi. pose proof (len_nonneg (runes_of_string str)) as Hn.
  eexists. split.
  - apply reslice_Returns; [lia|done|done].
  - rewrite stringtoslicerune_cap in Hhi.
    unfold elems, stringtoslicerune. cbn [arr slen]. unfold len in *.
    rewrite drop_app_ge by lia. rewrite drop_replicate, take_replicate.
    f_equal. lia.
Qed.

(** [deleteFromTo] with the lower bound beyond the runes of the segment
    found: inside the capacity nothing is removed, the zeros read from
    the spare capacity are returned and as many as lie below the lower
    bound are added to the text. *)
Lemma deleteFromTo_beyond (t : RichText F) (lowBound highBound : Z)
    (i : Z) (from : TextSegment) :
  locate (Segments t) lowBound 0 0 None = Some (i, from) ->
  len (runes_of_string (Text from)) < lowBound -> lowBound <= highBound ->
  deleteFromTo t lowBound highBound
  = if highBound <=? cap (stringtoslicerune (Text from))
    then Returns
      (string_of_runes (replicate (Z.to_nat (highBound - lowBound)) 0),
       Refresh (store_segment t i
         (with_Text from (string_of_runes
            (runes_of_string (Text from)
             ++ replicate (Z.to_nat (lowBound - len (runes_of_string (Text from))))
                          0)))))
    else Panics.
Proof.
  intros Hloc Hlt Hle. pose proof (len_nonneg (runes_of_string (Text from))) as Hn.
  unfold deleteFromTo. rewrite Hloc.
  unfold make_runes. rewrite (proj2 (Z.ltb_ge _ _)) by lia.
  cbn [mbind run_bind].
  destruct (Z.leb_spec highBound (cap (stringtoslicerune (Text from)))) as [Hcap|Hcap].
  - destruct (stringtoslicerune_reslice_beyond (Text from) lowBound highBound)
      as (src & Hs & Hse); try done.
    rewrite Hs. cbn [mbind run_bind]. rewrite stringtoslicerune_slen.
    rewrite Z.gtb_ltb, (proj2 (Z.ltb_lt _ _)) by lia.
    destruct (stringtoslicerune_reslice_spare (Text from) 0 lowBound)
      as (front & Hf & Hfe); try lia.
    destruct (stringtoslicerune_reslice (Text from)
                (len (runes_of_string (Text from)))
                (len (runes_of_string (Text from)))) as (back & Hb & Hbe);
      try lia.
    unfold slice_to, slice_from. rewrite Hf. cbn [mbind run_bind].
    rewrite stringtoslicerune_slen, Hb. cbn [mbind run_bind].
    unfold append_runes. rewrite Hfe, Hbe, Hse, subslice_empty, app_nil_r.
    change (Z.to_nat 0) with 0%nat. rewrite drop_0.
    rewrite copy_runes_all; [done|]. by rewrite !length_replicate.
  - rewrite reslice_Panics; [done|]. lia.
Qed.

End Editing.

Lemma len_fold_ge (segs : list RichTextSegment) (i : nat) (sg : RichTextSegment) :
  segs !! i = Some sg ->
  len (runes_of_string (Textual sg))
  <= fold_left (fun ret sg => ret + len (runes_of_string (Textual sg))) segs 0.
Proof.
  revert i. induction segs as [|sg' rest IH]; intros i Hl; [done|].
  simpl. rewrite len_fold_shift.
  pose proof (len_nonneg (runes_of_string (Textual sg'))).
  destruct i as [|i]; simpl in Hl.
  - injection Hl as ->.
    assert (0 <= fold_left (fun ret sg => ret + len (runes_of_string (Textual sg)))
                           rest 0); [|lia].
    clear. induction rest as [|a rest IH]; simpl; [lia|].
    rewrite len_fold_shift. pose proof (len_nonneg (runes_of_string (Textual a))). lia.
  - specialize (IH _ Hl). lia.
Qed.

Lemma valid_rune_zero : valid_rune 0.
Proof. unfold valid_rune, MaxRune, surrogateMin, surrogateMax. lia. Qed.

Lemma subslice_join {A} (text : list A) (low high : Z) :
  0 <= low -> low <= high -> high <= len text ->
  take (Z.to_nat low) text ++ subslice text low high ++ drop (Z.to_nat high) text
  = text.
Proof.
  intros Hlow Hle Hhigh. unfold subslice.
  rewrite <- (take_drop (Z.to_nat low) text) at 4. f_equal.
  rewrite <- (take_drop (Z.to_nat (high - low)) (drop (Z.to_nat low) text)) at 2.
  f_equal. rewrite drop_drop. f_equal. lia.
Qed.

Section EditingClaims.
Context `{Float32 F} `{Toolkit F} `{GoRuntime}.

(** X10: [insertAt] at a position inside the first text segment, or at
    the end of the only one, when no later entry of the list holds that
    segment again: the runes go into that segment at the position, the
    other segments stay as they are. *)
Theorem insertAt_first_text (t : RichText F) (pre post : list RichTextSegment)
    (ts : TextSegment) (pos : Z) (s : string) :
  Segments t = pre ++ TextSeg ts :: post ->
  no_text_segment pre ->
  TextSeg ts ∉ post ->
  0 <= pos ->
  pos < len (runes_of_string (Text ts))
  \/ (pos = len (runes_of_string (Text ts)) /\ no_text_segment post) ->
  exists t',
    insertAt t pos s = Returns t'
    /\ Segments t'
       = pre ++ TextSeg (with_Text ts (string_of_runes
                  (take (Z.to_nat pos) (runes_of_string (Text ts))
                   ++ runes_of_string s
                   ++ drop (Z.to_nat pos) (runes_of_string (Text ts))))) :: post.
Proof.
  intros Hsegs Hpre _ Hpos Hin.
  assert (locate (Segments t) pos 0 0 None = Some (len pre, ts)) as Hloc.
  { rewrite Hsegs. apply locate_first; [done|]. destruct Hin as [?|[_ ?]]; auto. }
  eexists. split.
  - apply (insertAt_located t pos s _ _ Hloc); lia.
  - rewrite store_segment_Segments, Hsegs. apply insert_middle.
Qed.

(** X11: on a widget whose segments are text segments, at least one and
    no two of them the same, whenever [insertAt] returns the rune count
    [len] of the widget has grown by the number of runes of the inserted
    string, and the number of segments is the same. *)
Theorem insertAt_len (t t' : RichText F) (pos : Z) (s : string) :
  Segments t <> [] ->
  Forall (fun sg => is_text sg = true) (Segments t) ->
  NoDup (Segments t) ->
  insertAt t pos s = Returns t' ->
  RichText_len t' = RichText_len t + len (runes_of_string s)
  /\ length (Segments t') = length (Segments t).
Proof.
  intros Hne Hall _ Hrun.
  assert (existsb is_text (Segments t) = true) as Htext.
  { destruct (Segments t) as [|sg segs]; [done|].
    apply Forall_cons in Hall as [Hsg _]. simpl. by rewrite Hsg. }
  pose proof (locate_text (Segments t) pos 0 0 None) as Hloc.
  rewrite Htext in Hloc. destruct Hloc as (i & into & Hloc).
  pose proof (locate_lookup _ _ _ _ Hloc) as Hl.
  destruct (Z.ltb_spec pos 0) as [Hneg|Hpos].
  { rewrite (insertAt_out_of_range t pos s _ _ Hloc) in Hrun by lia. done. }
  destruct (Z.ltb_spec (len (runes_of_string (Text into))) pos) as [Hbig|Hle].
  { rewrite (insertAt_out_of_range t pos s _ _ Hloc) in Hrun by lia. done. }
  rewrite (insertAt_located t pos s _ _ Hloc) in Hrun by lia.
  injection Hrun as <-. split.
  - rewrite (RichText_len_store t i into _ Hl). simpl.
    rewrite runes_roundtrip_parts. unfold len.
    rewrite !length_app, length_take, length_drop. unfold len in Hle. lia.
  - by rewrite store_segment_Segments, length_insert.
Qed.

(** X12: [deleteFromTo] with both bounds inside the first text segment,
    or inside the only one, when no later entry of the list holds that
    segment again: the runes between the bounds are returned and removed
    from that segment, the other segments stay as they are, and when
    all segments are text segments [len] drops by
    [highBound - lowBound]. *)
Theorem deleteFromTo_first_text (t : RichText F) (pre post : list RichTextSegment)
    (ts : TextSegment) (lowBound highBound : Z) :
  Segments t = pre ++ TextSeg ts :: post ->
  no_text_segment pre ->
  TextSeg ts ∉ post ->
  0 <= lowBound -> lowBound <= highBound ->
  highBound <= len (runes_of_string (Text ts)) ->
  lowBound < len (runes_of_string (Text ts)) \/ no_text_segment post ->
  exists t',
    deleteFromTo t lowBound highBound
    = Returns (string_of_runes
                 (subslice (runes_of_string (Text ts)) lowBound highBound), t')
    /\ Segments t'
       = pre ++ TextSeg (with_Text ts (string_of_runes
                  (take (Z.to_nat lowBound) (runes_of_string (Text ts))
                   ++ drop (Z.to_nat highBound) (runes_of_string (Text ts)))))
             :: post
    /\ (Forall (fun sg => is_text sg = true) (Segments t) ->
        RichText_len t' = RichText_len t - (highBound - lowBound)).
Proof.
  intros Hsegs Hpre _ Hlow Hle Hhigh Hin.
  assert (locate (Segments t) lowBound 0 0 None = Some (len pre, ts)) as Hloc.
  { rewrite Hsegs. by apply locate_first. }
  eexists. split; [|split].
  - by apply (deleteFromTo_located t lowBound highBound _ _ Hloc).
  - rewrite store_segment_Segments, Hsegs. apply insert_middle.
  - intros _.
    rewrite (RichText_len_store t (len pre) ts _ (locate_lookup _ _ _ _ Hloc)).
    simpl. rewrite runes_of_string_of_runes.
    + unfold len in *. rewrite length_app, length_take, length_drop. lia.
    + rewrite Forall_app. split.
      * apply Forall_take, runes_of_string_valid.
      * apply Forall_drop, runes_of_string_valid.
Qed.

(** X13: whenever [deleteFromTo] returns on a widget with a text segment,
    the bounds satisfy [0 <= lowBound <= highBound], the string returned
    has exactly [highBound - lowBound] runes, and the number of segments
    is the same. *)
Theorem deleteFromTo_returns (t t' : RichText F) (lowBound highBound : Z)
    (deleted : string) :
  existsb is_text (Segments t) = true ->
  deleteFromTo t lowBound highBound = Returns (deleted, t') ->
  0 <= lowBound /\ lowBound <= highBound
  /\ len (runes_of_string deleted) = highBound - lowBound
  /\ length (Segments t') = length (Segments t).
Proof.
  intros Htext Hrun.
  pose proof (locate_text (Segments t) lowBound 0 0 None) as Hloc.
  rewrite Htext in Hloc. destruct Hloc as (i & from & Hloc).
  assert (0 <= lowBound /\ lowBound <= highBound) as [Hlow Hle].
  { destruct (Z.ltb_spec lowBound 0) as [Hneg|Hpos].
    { rewrite (deleteFromTo_out_of_range t _ _ _ _ Hloc) in Hrun by lia. done. }
    destruct (Z.ltb_spec highBound lowBound) as [Hinv|Hord]; [|lia].
    rewrite (deleteFromTo_out_of_range t _ _ _ _ Hloc) in Hrun by lia. done. }
  split; [done|]. split; [done|].
  pose proof (runes_of_string_valid (Text from)) as Hvalid.
  destruct (Z.leb_spec highBound (len (runes_of_string (Text from)))) as [Hin|Hout].
  - rewrite (deleteFromTo_located t _ _ _ _ Hloc) in Hrun by lia.
    injection Hrun as <- <-. split.
    + rewrite runes_of_string_of_runes.
      * apply subslice_length; lia.
      * unfold subslice. by apply Forall_take, Forall_drop.
    + by rewrite store_segment_Segments, length_insert.
  - destruct (Z.leb_spec lowBound (len (runes_of_string (Text from)))) as [Hlo|Hlo].
    + rewrite (deleteFromTo_spare t _ _ _ _ Hloc) in Hrun by lia.
      destruct (_ <=? _); [|done]. injection Hrun as <- <-. split.
      * rewrite runes_of_string_of_runes.
        -- unfold len in *. rewrite length_app, length_drop, length_replicate. lia.
        -- rewrite Forall_app. split; [by apply Forall_drop|].
           apply Forall_replicate, valid_rune_zero.
      * by rewrite store_segment_Segments, length_insert.
    + rewrite (deleteFromTo_beyond t _ _ _ _ Hloc) in Hrun by lia.
      destruct (_ <=? _); [|done]. injection Hrun as <- <-. split.
      * rewrite runes_of_string_of_runes.
        -- unfold len. rewrite length_replicate. lia.
        -- apply Forall_replicate, valid_rune_zero.
      * by rewrite store_segment_Segments, length_insert.
Qed.

(** X14: on a widget with a text segment, [insertAt] panics at a negative
    position and at a position beyond the rune count [len] of the widget,
    and [deleteFromTo] panics when the lower bound is negative or above
    the upper bound. *)
Theorem edit_out_of_range_panics (t : RichText F) (pos : Z) (s : string)
    (lowBound highBound : Z) :
  existsb is_text (Segments t) = true ->
  (pos < 0 \/ RichText_len t < pos -> insertAt t pos s = Panics)
  /\ (lowBound < 0 \/ highBound < lowBound ->
      deleteFromTo t lowBound highBound = Panics).
Proof.
  intros Htext. split.
  - intros Hbad.
    pose proof (locate_text (Segments t) pos 0 0 None) as Hloc.
    rewrite Htext in Hloc. destruct Hloc as (i & into & Hloc).
    apply (insertAt_out_of_range t pos s _ _ Hloc).
    pose proof (len_fold_ge _ _ _ (locate_lookup _ _ _ _ Hloc)) as Hge.
    simpl in Hge. unfold RichText_len in Hbad. lia.
  - intros Hbad.
    pose proof (locate_text (Segments t) lowBound 0 0 None) as Hloc.
    rewrite Htext in Hloc. destruct Hloc as (i & from & Hloc).
    by apply (deleteFromTo_out_of_range t _ _ _ _ Hloc).
Qed.

(** X15: [deleteFromTo] with the lower bound beyond the runes of the only
    text segment: beyond the capacity of the rune slice it panics; inside
    it nothing is removed, the string returned holds [highBound -
    lowBound] zero runes, and the text gains [lowBound - n] zero runes. *)
Theorem deleteFromTo_beyond_text (t : RichText F) (pre post : list RichTextSegment)
    (ts : TextSegment) (lowBound highBound : Z) :
  Segments t = pre ++ TextSeg ts :: post ->
  no_text_segment pre -> no_text_segment post ->
  len (runes_of_string (Text ts)) < lowBound -> lowBound <= highBound ->
  let n := len (runes_of_string (Text ts)) in
  (Z.max n (runecap n) < highBound -> deleteFromTo t lowBound highBound = Panics)
  /\ (highBound <= Z.max n (runecap n) ->
      exists t',
        deleteFromTo t lowBound highBound
        = Returns (string_of_runes (replicate (Z.to_nat (highBound - lowBound)) 0), t')
        /\ Segments t'
           = pre ++ TextSeg (with_Text ts (string_of_runes
                      (runes_of_string (Text ts)
                       ++ replicate (Z.to_nat (lowBound - n)) 0))) :: post).
Proof.
  intros Hsegs Hpre Hpost Hlt Hle n.
  assert (locate (Segments t) lowBound 0 0 None = Some (len pre, ts)) as Hloc.
  { rewrite Hsegs. apply locate_first; auto. }
  rewrite (deleteFromTo_beyond t _ _ _ _ Hloc) by done.
  rewrite stringtoslicerune_cap. fold n. split.
  - intros Hcap. destruct (Z.leb_spec highBound (Z.max n (runecap n))); [lia|done].
  - intros Hcap. destruct (Z.leb_spec highBound (Z.max n (runecap n))); [|lia].
    eexists. split; [reflexivity|].
    rewrite store_segment_Segments, Hsegs. apply insert_middle.
Qed.

(** X16: on a widget whose only text segment holds [T], deleting the
    runes between two bounds inside [T] and inserting the returned string
    at the lower bound gives the text [string([]rune(T))] again, which is
    [T] when [T] is valid UTF-8; the other segments stay as they are. *)
Theorem delete_then_insert (t : RichText F) (pre post : list RichTextSegment)
    (ts : TextSegment) (lowBound highBound : Z) :
  Segments t = pre ++ TextSeg ts :: post ->
  no_text_segment pre -> no_text_segment post ->
  0 <= lowBound -> lowBound <= highBound ->
  highBound <= len (runes_of_string (Text ts)) ->
  exists deleted t1 t2,
    deleteFromTo t lowBound highBound = Returns (deleted, t1)
    /\ insertAt t1 lowBound deleted = Returns t2
    /\ Segments t2
       = pre ++ TextSeg (with_Text ts (string_of_runes (runes_of_string (Text ts))))
             :: post
    /\ (valid_utf8 (Text ts) -> Segments t2 = Segments t).
Proof.
  intros Hsegs Hpre Hpost Hlow Hle Hhigh.
  pose proof (runes_of_string_valid (Text ts)) as Hvalid.
  assert (locate (Segments t) lowBound 0 0 None = Some (len pre, ts)) as Hloc.
  { rewrite Hsegs. apply locate_first; auto. }
  pose proof (deleteFromTo_located t lowBound highBound _ _ Hloc Hlow Hle Hhigh)
    as Hdel.
  set (ts1 := with_Text ts (string_of_runes
                (take (Z.to_nat lowBound) (runes_of_string (Text ts))
                 ++ drop (Z.to_nat highBound) (runes_of_string (Text ts))))) in *.
  set (t1 := Refresh (store_segment t (len pre) ts1)) in *.
  assert (Segments t1 = pre ++ TextSeg ts1 :: post) as Hsegs1.
  { unfold t1. rewrite store_segment_Segments, Hsegs. apply insert_middle. }
  assert (runes_of_string (Text ts1)
          = take (Z.to_nat lowBound) (runes_of_string (Text ts))
            ++ drop (Z.to_nat highBound) (runes_of_string (Text ts))) as Htext1.
  { unfold ts1. simpl. apply runes_of_string_of_runes.
    rewrite Forall_app. split; [by apply Forall_take|by apply Forall_drop]. }
  assert (locate (Segments t1) lowBound 0 0 None = Some (len pre, ts1)) as Hloc1.
  { rewrite Hsegs1. apply locate_first; auto. }
  assert (lowBound <= len (runes_of_string (Text ts1))) as Hlen1.
  { rewrite Htext1. unfold len in *. rewrite length_app, length_take, length_drop. lia. }
  pose proof (insertAt_located t1 lowBound
                (string_of_runes (subslice (runes_of_string (Text ts))
                                           lowBound highBound))
                _ _ Hloc1 Hlow Hlen1) as Hins.
  assert (Segments (Refresh (store_segment t1 (len pre)
            (with_Text ts1 (string_of_runes
               (take (Z.to_nat lowBound) (runes_of_string (Text ts1))
                ++ runes_of_string (string_of_runes
                     (subslice (runes_of_string (Text ts)) lowBound highBound))
                ++ drop (Z.to_nat lowBound) (runes_of_string (Text ts1)))))))
          = pre ++ TextSeg (with_Text ts (string_of_runes (runes_of_string (Text ts))))
                :: post) as Hsegs2.
  { rewrite store_segment_Segments, Hsegs1, insert_middle. do 3 f_equal.
    rewrite Htext1.
    rewrite runes_of_string_of_runes
      by (unfold subslice; by apply Forall_take, Forall_drop).
    unfold len in Hhigh.
    rewrite take_app_le, drop_app_ge by (rewrite length_take; lia).
    rewrite take_take, length_take.
    replace (Z.to_nat lowBound `min` Z.to_nat lowBound)%nat
      with (Z.to_nat lowBound) by lia.
    replace (Z.to_nat lowBound - Z.to_nat lowBound `min` length (runes_of_string (Text ts)))%nat
      with 0%nat by lia.
    rewrite drop_0. unfold with_Text. simpl. do 2 f_equal.
    apply subslice_join; unfold len; lia. }
  do 3 eexists. split; [exact Hdel|]. split; [exact Hins|]. split; [exact Hsegs2|].
  intros Hv. rewrite Hsegs2, Hsegs. unfold valid_utf8 in Hv.
  by rewrite Hv, with_Text_same.
Qed.

End EditingClaims.

(** ** The minimum size *)

Section MinSizeFacts.
Context `{Float32 F} `{Toolkit F}.

Lemma MinSize_loop_wrapped (t : RichText F) (charMin concealedMin : Size F)
    (count : Z) (todo : nat) (i : Z) (width height : F) (acc : F * F) :
  is_off (Wrapping t) = false ->
  MinSize_loop t charMin concealedMin count todo i (width, height) = Returns acc ->
  fst acc = width.
Proof.
  intros Hoff. revert i height.
  induction todo as [|todo IH]; intros i height Hrun; simpl in Hrun.
  - by injection Hrun as <-.
  - unfold MinSize_step in Hrun.
    destruct (RichText_rowBoundary t i) as [bound|]; [|done].
    rewrite Hoff in Hrun. cbn [mbind run_bind] in Hrun. by apply IH in Hrun.
Qed.

(** X17: when wrapping is not off, the width [MinSize] returns does not
    depend on the segments or the rows: it is zero plus four paddings less
    twice the inset width. *)
Theorem MinSize_wrapped_width (t : RichText F) (v : Size F) :
  is_off (Wrapping t) = false ->
  MinSize t = Returns v ->
  Width v = f_add f_zero
              (f_sub (f_sub (f_mul theme_Padding (f_of_int 4)) (Width (inset t)))
                     (Width (inset t))).
Proof.
  intros Hoff Hrun. unfold MinSize in Hrun.
  destruct (charMinSize t false) as [charMin|]; [|done].
  destruct (charMinSize t true) as [concealedMin|]; [|done].
  cbn [mbind run_bind] in Hrun.
  destruct (MinSize_loop t charMin concealedMin (rows t) (Z.to_nat (rows t)) 0
              (f_zero, f_zero)) as [[width height]|] eqn:Hloop; [|done].
  apply (MinSize_loop_wrapped _ _ _ _ _ _ _ _ _ Hoff) in Hloop.
  cbn [mbind run_bind] in Hrun. injection Hrun as <-. simpl in *. by subst.
Qed.

End MinSizeFacts.

(** ** The text and the rune count of a widget *)

Lemma decode_runes_fuel (fuel : nat) (s : list ascii) :
  (length s <= fuel)%nat -> decode_runes fuel s = decode_runes (length s) s.
Proof.
  revert s. induction fuel as [fuel IH] using lt_wf_ind. intros s Hfuel.
  destruct s as [|c t]; [by destruct fuel|].
  simpl in Hfuel. destruct fuel as [|fuel]; [lia|].
  cbn [length decode_runes].
  pose proof (DecodeRune_valid (c :: t)) as [_ Hw].
  destruct (DecodeRune (c :: t)) as [r w]. simpl in Hw.
  specialize (Hw ltac:(done)). f_equal.
  assert (length (drop w (c :: t)) <= length t)%nat as Hd.
  { rewrite length_drop. simpl. lia. }
  rewrite (IH fuel) by lia. symmetry. apply IH; simpl; lia.
Qed.

Lemma decode_runes_encode_app (l : list rune) (b : list ascii) (fuel : nat) :
  Forall valid_rune l ->
  (length (concat (map EncodeRune l) ++ b) <= fuel)%nat ->
  decode_runes fuel (concat (map EncodeRune l) ++ b)
  = l ++ decode_runes (length b) b.
Proof.
  intros Hl. revert fuel. induction Hl as [|v l Hv _ IH]; intros fuel Hfuel.
  - simpl in *. by apply decode_runes_fuel.
  - simpl in *. rewrite <- app_assoc in *. rewrite length_app in Hfuel.
    destruct (DecodeRune_encode v (concat (map EncodeRune l) ++ b) Hv)
      as [Hdec Hlen].
    destruct fuel as [|fuel]; [lia|]. simpl.
    destruct (EncodeRune v ++ concat (map EncodeRune l) ++ b) as [|c t] eqn:E.
    { apply (f_equal length) in E. rewrite length_app in E. simpl in E. lia. }
    rewrite Hdec. rewrite <- E, drop_app_length. f_equal. apply IH. lia.
Qed.

Lemma list_ascii_of_string_app (a b : string) :
  list_ascii_of_string (a ++ b)
  = list_ascii_of_string a ++ list_ascii_of_string b.
Proof. induction a as [|c a IH]; simpl; [done|]. by rewrite IH. Qed.

Lemma string_of_list_ascii_app (a b : list ascii) :
  string_of_list_ascii (a ++ b)
  = (string_of_list_ascii a ++ string_of_list_ascii b)%string.
Proof. induction a as [|c a IH]; simpl; [done|]. by rewrite IH. Qed.

(** The runes of a string that begins with valid UTF-8 are the runes of
    that part followed by the runes of the rest. *)
Lemma runes_of_string_app (a b : string) :
  valid_utf8 a ->
  runes_of_string (a ++ b) = runes_of_string a ++ runes_of_string b.
Proof.
  intros Ha. unfold valid_utf8 in Ha. rewrite <- Ha at 1.
  unfold runes_of_string at 1, string_of_runes. cbv zeta.
  rewrite list_ascii_of_string_app, list_ascii_of_string_of_list_ascii.
  apply decode_runes_encode_app; [apply runes_of_string_valid|done].
Qed.

Lemma valid_utf8_app (a b : string) :
  valid_utf8 a -> valid_utf8 b -> valid_utf8 (a ++ b).
Proof.
  intros Ha Hb. unfold valid_utf8. rewrite runes_of_string_app by done.
  unfold string_of_runes. rewrite map_app, concat_app, string_of_list_ascii_app.
  unfold valid_utf8, string_of_runes in Ha, Hb. by rewrite Ha, Hb.
Qed.

Lemma String_len_fold (segs : list RichTextSegment) (ret : string) :
  valid_utf8 ret ->
  Forall (fun sg => valid_utf8 (Textual sg)) segs ->
  len (runes_of_string
         (fold_left (fun ret sg => String.append ret (Textual sg)) segs ret))
  = fold_left (fun ret sg => ret + len (runes_of_string (Textual sg))) segs
              (len (runes_of_string ret))
  /\ valid_utf8 (fold_left (fun ret sg => String.append ret (Textual sg)) segs ret).
Proof.
  intros Hret Hall. revert ret Hret.
  induction Hall as [|sg segs Hsg _ IH]; intros ret Hret; simpl; [done|].
  destruct (IH (ret ++ Textual sg)%string) as [Hlen Hvalid];
    [by apply valid_utf8_app|].
  split; [|done]. rewrite Hlen. f_equal.
  rewrite runes_of_string_app by done. unfold len. rewrite length_app. lia.
Qed.

(** X18: when the text of every segment is valid UTF-8, [len] is the
    number of runes of [String], and [String] is valid UTF-8. *)
Theorem len_counts_String {F} (t : RichText F) :
  Forall (fun sg => valid_utf8 (Textual sg)) (Segments t) ->
  RichText_len t = len (runes_of_string (RichText_String t))
  /\ valid_utf8 (RichText_String t).
Proof.
  intros Hall. unfold RichText_len, RichText_String.
  destruct (String_len_fold (Segments t) EmptyString) as [Hlen Hvalid];
    [done|done|].
  split; [|done]. by rewrite Hlen.
Qed.

(** ** The objects of the renderer *)

Lemma length_list_ascii_of_string (s : string) :
  length (list_ascii_of_string s) = String.length s.
Proof. induction s as [|c s IH]; simpl; [done|]. by rewrite IH. Qed.

Lemma decode_runes_length (fuel : nat) (s : list ascii) :
  (length (decode_runes fuel s) <= length s)%nat.
Proof.
  revert s. induction fuel as [|fuel IH]; intros s; simpl; [lia|].
  destruct s as [|c t]; [done|].
  pose proof (DecodeRune_valid (c :: t)) as [_ Hw].
  destruct (DecodeRune (c :: t)) as [r w]. simpl in Hw.
  specialize (Hw ltac:(done)). cbn [length].
  specialize (IH (drop w (c :: t))). rewrite length_drop in IH. simpl in IH. lia.
Qed.

(** A string has no more runes than bytes. *)
Lemma runes_of_string_length (s : string) :
  len (runes_of_string s) <= Z.of_nat (String.length s).
Proof.
  unfold runes_of_string, len. cbv zeta.
  pose proof (decode_runes_length (length (list_ascii_of_string s))
                (list_ascii_of_string s)) as Hl.
  rewrite <- (length_list_ascii_of_string s). lia.
Qed.

Lemma byte_of_byte_val (c : ascii) : byte_of (byte_val c) = c.
Proof.
  unfold byte_of. rewrite Z.mod_small by apply byte_val_range.
  unfold byte_val. rewrite N2Z.id. apply ascii_N_embedding.
Qed.

Lemma decode_runes_ascii (fuel : nat) (s : list ascii) :
  Forall (fun c => byte_val c < 0x80) s -> (length s <= fuel)%nat ->
  decode_runes fuel s = map byte_val s.
Proof.
  intros Hs. revert fuel. induction Hs as [|c s Hc _ IH]; intros fuel Hfuel.
  - by destruct fuel.
  - simpl in Hfuel. destruct fuel as [|fuel]; [lia|].
    cbn [decode_runes DecodeRune].
    destruct (Z.ltb_spec (byte_val c) 0x80) as [_|]; [|lia].
    simpl. f_equal. apply IH. lia.
Qed.

Lemma encode_runes_ascii (s : list ascii) :
  Forall (fun c => byte_val c < 0x80) s ->
  concat (map EncodeRune (map byte_val s)) = s.
Proof.
  induction 1 as [|c s Hc _ IH]; [done|]. simpl. rewrite IH.
  unfold EncodeRune. cbv zeta. pose proof (byte_val_range c).
  rewrite Z.mod_small by lia.
  destruct (Z.leb_spec (byte_val c) 0x7F); [|lia].
  by rewrite byte_of_byte_val.
Qed.

Lemma runes_of_string_ascii (s : string) :
  ascii_only s -> runes_of_string s = map byte_val (list_ascii_of_string s).
Proof. intros Hs. by apply decode_runes_ascii. Qed.

Lemma list_ascii_of_substring (s : string) (n m : nat) :
  list_ascii_of_string (substring n m s)
  = take m (drop n (list_ascii_of_string s)).
Proof.
  revert n m. induction s as [|c s IH]; intros n m.
  - destruct n, m; done.
  - destruct n as [|n]; simpl.
    + destruct m as [|m]; simpl; [done|]. rewrite IH. by rewrite drop_0.
    + apply IH.
Qed.

(** On ASCII text the bytes between two rune indices are the runes
    between them. *)
Lemma byte_slice_ascii (s : string) (lo hi : Z) :
  ascii_only s -> 0 <= lo -> lo <= hi -> hi <= len (runes_of_string s) ->
  byte_slice s lo hi
  = Returns (string_of_runes (subslice (runes_of_string s) lo hi))
  /\ len (runes_of_string (string_of_runes (subslice (runes_of_string s) lo hi)))
     = hi - lo.
Proof.
  intros Hs Hlo Hle Hhi. pose proof (runes_of_string_length s) as Hlen.
  split.
  - unfold byte_slice.
    destruct (Z.leb_spec 0 lo); [|lia]. destruct (Z.leb_spec lo hi); [|lia].
    destruct (Z.leb_spec hi (Z.of_nat (String.length s))); [|lia].
    simpl. f_equal.
    rewrite <- (string_of_list_ascii_of_string (substring _ _ s)).
    rewrite list_ascii_of_substring. unfold string_of_runes. f_equal.
    rewrite runes_of_string_ascii by done. unfold subslice.
    rewrite skipn_map, firstn_map, encode_runes_ascii; [done|].
    by apply Forall_take, Forall_drop.
  - rewrite runes_of_string_of_runes.
    + by apply subslice_length.
    + unfold subslice. apply Forall_take, Forall_drop, runes_of_string_valid.
Qed.

Lemma ascii_only_valid (s : string) : ascii_only s -> valid_utf8 s.
Proof.
  intros Hs. unfold valid_utf8, string_of_runes.
  rewrite runes_of_string_ascii, encode_runes_ascii by done.
  apply string_of_list_ascii_of_string.
Qed.

(** The text of the object of a row inside its segment: the slice is in
    range for any text, and on ASCII text it is the runes of the row. *)
Lemma row_object_text_returns (b : rowBoundary) :
  in_bounds (runes_of_string (Text (seg b))) b ->
  exists txt,
    row_object_text b = Returns txt
    /\ (ascii_only (Text (seg b)) ->
        txt = if concealed (seg b)
              then repeat_string passwordChar (Z.to_nat (end_ b - begin b))
              else string_of_runes (row_text (runes_of_string (Text (seg b))) b)).
Proof.
  intros (Hb0 & Hbe & Hlen). unfold row_object_text. cbv zeta.
  pose proof (runes_of_string_length (Text (seg b))) as Hbytes.
  destruct (negb (begin b =? 0)
            || negb (end_ b =? len (runes_of_string (Text (seg b))))) eqn:Hcut.
  - assert (byte_slice (Text (seg b)) (begin b) (end_ b)
            = Returns (substring (Z.to_nat (begin b)) (Z.to_nat (end_ b - begin b))
                         (Text (seg b)))) as Hslice.
    { unfold byte_slice.
      destruct (Z.leb_spec 0 (begin b)); [|lia].
      destruct (Z.leb_spec (begin b) (end_ b)); [|lia].
      destruct (Z.leb_spec (end_ b) (Z.of_nat (String.length (Text (seg b)))));
        [done|lia]. }
    rewrite Hslice. cbn [mbind run_bind].
    pose proof (len_nonneg (runes_of_string
                  (substring (Z.to_nat (begin b)) (Z.to_nat (end_ b - begin b))
                     (Text (seg b))))) as Hn.
    unfold strings_Repeat. rewrite (proj2 (Z.ltb_ge _ _)) by lia.
    destruct (concealed (seg b)); eexists; (split; [reflexivity|]); intros Hs;
      destruct (byte_slice_ascii _ _ _ Hs Hb0 Hbe Hlen) as [Hsl Hcount];
      rewrite Hslice in Hsl; injection Hsl as Hsl; rewrite Hsl.
    + by rewrite Hcount.
    + done.
  - apply orb_false_iff in Hcut as [H0 Hend].
    apply negb_false_iff, Z.eqb_eq in H0, Hend.
    cbn [mbind run_bind]. pose proof (len_nonneg (runes_of_string (Text (seg b)))).
    unfold strings_Repeat. rewrite (proj2 (Z.ltb_ge _ _)) by lia.
    destruct (concealed (seg b)); eexists; (split; [reflexivity|]); intros Hs.
    + by rewrite Hend, H0, Z.sub_0_r.
    + unfold row_text. rewrite H0, Hend, subslice_full.
      symmetry. by apply ascii_only_valid.
Qed.

Section RendererObjects.
Context `{Float32 F} `{Toolkit F}.

Lemma Refresh_objects_loop_spec (t : RichText F) (done rest : list rowBoundary)
    (objs : list string) :
  rowBounds t = done ++ rest ->
  Forall (fun b => in_bounds (runes_of_string (Text (seg b))) b) rest ->
  exists texts,
    Refresh_objects_loop t (length rest) (len done) objs = Returns (objs ++ texts)
    /\ Forall2 (fun b txt => row_object_text b = Returns txt) rest texts.
Proof.
  revert done objs. induction rest as [|b rest IH]; intros done objs Hrows Hall.
  - exists []. simpl. by rewrite app_nil_r.
  - apply Forall_cons in Hall as [Hb Hrest].
    destruct (row_object_text_returns b Hb) as (txt & Htxt & _).
    destruct (IH (done ++ [b]) (objs ++ [txt])) as (texts & Hrun & Htexts);
      [by rewrite <- app_assoc|done|].
    exists (txt :: texts). split; [|by constructor].
    cbn [length Refresh_objects_loop].
    assert (rowBounds t !! length done = Some b) as Hl.
    { rewrite Hrows. by apply list_lookup_middle. }
    unfold len. rewrite (rowBoundary_lookup t _ _ Hl), Htxt.
    cbn [mbind run_bind].
    replace (Z.of_nat (length done) + 1) with (len (done ++ [b]))
      by (unfold len; rewrite length_app; simpl; lia).
    rewrite Hrun. by rewrite <- app_assoc.
Qed.

(** X19: after [Refresh] of the widget, the loop of the renderer's
    [Refresh] does not panic, whatever the text: the byte slice it takes
    with the rune indices of a row is in range, and it makes one object
    for each row. When the text of every segment is ASCII, the text of
    the object of a row is the runes of that row, or as many password
    characters as the row has runes when the segment is concealed. *)
Theorem Refresh_objects_rows (t : RichText F) :
  exists texts,
    Refresh_objects (Refresh t) = Returns texts
    /\ len texts = rows (Refresh t)
    /\ (Forall (fun sg => ascii_only (Textual sg)) (Segments t) ->
        Forall2 (fun b txt =>
                   txt = if concealed (seg b)
                         then repeat_string passwordChar
                                (Z.to_nat (end_ b - begin b))
                         else string_of_runes
                                (row_text (runes_of_string (Text (seg b))) b))
                (rowBounds (Refresh t)) texts).
Proof.
  assert (Forall (fun b => TextSeg (seg b) ∈ Segments t
                           /\ in_bounds (runes_of_string (Text (seg b))) b)
                 (rowBounds (Refresh t))) as Hall.
  { unfold Refresh, updateRowBounds.
    destruct (updateRowBounds_loop_segments t (Segments t) (Segments t) [])
      as (bounds & -> & Hb); [done|constructor|]. exact Hb. }
  destruct (Refresh_objects_loop_spec (Refresh t) [] (rowBounds (Refresh t)) [])
    as (texts & Hrun & Htexts); [done| |].
  { eapply Forall_impl; [exact Hall|]. by intros b [_ ?]. }
  exists texts. split; [|split].
  - unfold Refresh_objects, rows, len. by rewrite Nat2Z.id.
  - unfold rows, len. by rewrite (Forall2_length _ _ _ Htexts).
  - intros Hascii. clear Hrun.
    induction Htexts as [|b txt rest texts Hb _ IH]; [constructor|].
    apply Forall_cons in Hall as [[Hseg Hin] Hall].
    constructor; [|by apply IH].
    destruct (row_object_text_returns b Hin) as (txt' & Htxt & Hval).
    rewrite Hb in Htxt. injection Htxt as <-. apply Hval.
    rewrite Forall_forall in Hascii. apply (Hascii _ Hseg).
Qed.

End RendererObjects.

(** ** The rows of the layout *)

Section LayoutRows.
Context {A : Type} `{Float32 F}.
Variable bounds : list rowBoundary.
Variable n : Z.
Variables left lineWidth lineHeight : F.

Lemma Layout_loop_spec (objs : list A) (i : Z) (rowTexts : list A)
    (rowAlign : TextAlign) (yPos : F) (calls : list (layoutRow_call A F)) :
  n = i + len objs -> 0 <= i ->
  (objs = [] -> rowTexts = []) ->
  exists new,
    Layout_loop bounds n left lineWidth lineHeight objs i rowTexts rowAlign yPos calls
    = calls ++ new
    /\ concat (map call_texts new) = rowTexts ++ objs
    /\ Forall (fun c => call_texts c <> [] /\ call_lineHeight c = lineHeight) new
    /\ (forall k c, new !! k = Some c -> call_yPos c = add_times yPos lineHeight k)
    /\ (len bounds = n -> objs <> [] ->
        length new
        = S (count_occ bool_dec
               (map inline (take (Z.to_nat (n - 1 - i)) (drop (Z.to_nat i) bounds)))
               false)).
Proof.
  revert i rowTexts rowAlign yPos calls.
  induction objs as [|obj rest IH]; intros i rowTexts rowAlign yPos calls Hn Hi Hempty.
  - exists []. rewrite (Hempty eq_refl). simpl. rewrite app_nil_r.
    repeat split; done.
  - cbn [Layout_loop]. cbv zeta.
    assert (len (obj :: rest) = len rest + 1) as Hlen
      by (unfold len; simpl; lia).
    pose proof (len_nonneg rest) as Hrest.
    set (bound := if i <? len bounds then bounds !! Z.to_nat i else None).
    set (rowAlign' := match bound with
                      | Some b => if len (rowTexts ++ [obj]) =? 1
                                  then Alignment (Style (seg b)) else rowAlign
                      | None => rowAlign
                      end).
    assert (len bounds = n ->
            exists b, bound = Some b /\ bounds !! Z.to_nat i = Some b
                      /\ drop (Z.to_nat i) bounds
                         = b :: drop (Z.to_nat (i + 1)) bounds) as Hbound.
    { intros Hb. unfold bound.
      destruct (Z.ltb_spec i (len bounds)); [|lia].
      destruct (lookup_lt_is_Some_2 bounds (Z.to_nat i)) as [b Hl];
        [unfold len in *; lia|].
      exists b. split; [done|]. split; [done|].
      rewrite (drop_S _ _ _ Hl). do 2 f_equal. lia. }
    destruct ((i <? n - 1)
              && match bound with None => true | Some b => inline b end) eqn:Hcont.
    + apply andb_true_iff in Hcont as [Hlt Hinl]. apply Z.ltb_lt in Hlt.
      assert (rest <> []) as Hne.
      { intros ->. unfold len in *. simpl in *. lia. }
      destruct (IH (i + 1) (rowTexts ++ [obj]) rowAlign' yPos calls)
        as (new & Hrun & Hcat & Hall & Hy & Hcount); [lia|lia|done|].
      exists new. split; [done|]. split; [by rewrite Hcat, <- app_assoc|].
      split; [done|]. split; [done|].
      intros Hb _. rewrite (Hcount Hb Hne).
      destruct (Hbound Hb) as (b & Heq & _ & Hdrop).
      rewrite Heq in Hinl. rewrite Hdrop.
      replace (Z.to_nat (n - 1 - i)) with (S (Z.to_nat (n - 1 - (i + 1)))) by lia.
      cbn [take map count_occ]. rewrite Hinl.
      destruct (bool_dec true false); done.
    + destruct (IH (i + 1) [] rowAlign' (f_add yPos lineHeight)
                  (calls ++ [mkCall (rowTexts ++ [obj]) rowAlign' left yPos
                                    lineWidth lineHeight]))
        as (new & Hrun & Hcat & Hall & Hy & Hcount); [lia|lia|done|].
      exists (mkCall (rowTexts ++ [obj]) rowAlign' left yPos lineWidth lineHeight
              :: new).
      split; [by rewrite Hrun, <- app_assoc|].
      split; [simpl; by rewrite Hcat, <- app_assoc|].
      split; [constructor; [simpl; by destruct rowTexts|done]|].
      split.
      * intros [|k] c Hl; simpl in Hl; [by injection Hl as <-|].
        by rewrite (Hy _ _ Hl).
      * intros Hb _. destruct (Hbound Hb) as (b & Heq & _ & Hdrop).
        rewrite Heq in Hcont.
        destruct rest as [|obj' rest'].
        -- simpl in Hrun. apply (f_equal (@length _)) in Hrun.
           rewrite !length_app in Hrun.
           replace (Z.to_nat (n - 1 - i)) with 0%nat
             by (unfold len in *; simpl in *; lia).
           simpl. destruct new; [done|simpl in Hrun; lia].
        -- cbn [length]. rewrite (Hcount Hb ltac:(done)). rewrite Hdrop.
           assert (i < n - 1) as Hlt by (unfold len in *; simpl in *; lia).
           replace (Z.to_nat (n - 1 - i)) with (S (Z.to_nat (n - 1 - (i + 1))))
             by lia.
           cbn [take map count_occ length].
           destruct (Z.ltb_spec i (n - 1)); [|lia]. simpl in Hcont. rewrite Hcont.
           destruct (bool_dec false false); done.
Qed.

End LayoutRows.

Section LayoutClaims.
Context {A : Type} `{Float32 F} `{Toolkit F}.

(** X20: [Layout] hands every object to exactly one call of [layoutRow],
    in order, and no call is without an object; the vertical position of
    the k-th call is the first one plus k line heights; with one object
    for each row boundary, the number of calls is one more than the
    number of boundaries before the last that are not inline. *)
Theorem Layout_rows (t : RichText F) (size : Size F) (objs : list A)
    (calls : list (layoutRow_call A F)) :
  Layout t size objs = Returns calls ->
  concat (map call_texts calls) = objs
  /\ Forall (fun c => call_texts c <> []) calls
  /\ (forall k c, calls !! k = Some c ->
        call_yPos c
        = add_times (f_sub (f_mul theme_Padding (f_of_int 2)) (Height (inset t)))
                    (call_lineHeight c) k)
  /\ (len (rowBounds t) = len objs -> objs <> [] ->
      length calls
      = S (count_occ bool_dec
             (map inline (take (Z.to_nat (len objs - 1)) (rowBounds t))) false)).
Proof.
  unfold Layout. cbv zeta.
  destruct (charMinSize t false) as [charMin|]; [|done].
  cbn [mbind run_bind]. intros Hrun. injection Hrun as <-.
  set (yPos := f_sub (f_mul theme_Padding (f_of_int 2)) (Height (inset t))).
  destruct (Layout_loop_spec (rowBounds t) (len objs)
              (f_sub (f_mul theme_Padding (f_of_int 2)) (Width (inset t)))
              (f_sub (Width size) (f_mul yPos (f_of_int 2)))
              (Height charMin) objs 0 [] TextAlignLeading yPos [])
    as (new & Hrun & Hcat & Hall & Hy & Hcount); [lia|lia|done|].
  rewrite Hrun. simpl. split; [done|].
  split; [eapply Forall_impl; [exact Hall|]; by intros c [? _]|]. split.
  - intros k c Hl. rewrite (Hy _ _ Hl).
    by destruct (Forall_lookup_1 _ _ _ _ Hall Hl) as [_ ->].
  - intros Hb Hne. rewrite (Hcount Hb Hne).
    change (Z.to_nat 0) with 0%nat. rewrite drop_0.
    by rewrite Z.sub_0_r.
Qed.

End LayoutClaims.

(** ** The size of a line up to a column *)

Lemma RichText_row_nil_row {F} (t : RichText F) (row : Z) :
  RichText_row t row = default [] (RichText_row_nil t row).
Proof.
  unfold RichText_row, RichText_row_nil, RichText_rowBoundary.
  destruct ((row <? 0) || (row >=? rows t)); [done|].
  destruct (rowBounds t !! Z.to_nat row) as [b|]; [|done].
  destruct ((begin b <? 0) || (end_ b >? len (runes_of_string (Text (seg b)))));
    [done|].
  by destruct (end_ b <? begin b).
Qed.

Lemma take_subslice {A} (text : list A) (lo hi k : Z) :
  0 <= k -> k <= hi - lo ->
  take (Z.to_nat k) (subslice text lo hi) = subslice text lo (lo + k).
Proof.
  intros Hk Hle. unfold subslice. rewrite take_take. f_equal. lia.
Qed.

Section LineSize.
Context `{Float32 F} `{Toolkit F} `{Canvas F}.

(** X21: after [Refresh], [lineSizeToColumn] gives the zero size for a row
    outside [0 .. rows-1]; for a row inside it panics on a negative
    column, and otherwise measures the first [min(col, end - begin)] runes
    of the row, or as many password characters for a concealed segment,
    and adds the padding less the inset width. *)
Theorem lineSizeToColumn_after_Refresh (t : RichText F) (col row : Z) :
  (row < 0 \/ rows (Refresh t) <= row ->
   lineSizeToColumn (Refresh t) col row = Returns (NewSize f_zero f_zero))
  /\ (0 <= row < rows (Refresh t) ->
      (col < 0 -> lineSizeToColumn (Refresh t) col row = Panics)
      /\ (0 <= col ->
          exists b,
            RichText_rowBoundary (Refresh t) row = Some b
            /\ lineSizeToColumn (Refresh t) col row
               = Returns
                   (Size_Add
                      (Text_MinSize
                         (if concealed (seg b)
                          then repeat_string passwordChar
                                 (Z.to_nat (Z.min col (end_ b - begin b)))
                          else string_of_runes
                                 (subslice (runes_of_string (Text (seg b)))
                                    (begin b)
                                    (begin b + Z.min col (end_ b - begin b))))
                         (TextSegment_size (seg b))
                         (Style_TextStyle (Style (seg b))))
                      (NewSize (f_sub theme_Padding (Width (inset (Refresh t))))
                               f_zero)))).
Proof.
  split.
  - intros Hout. unfold lineSizeToColumn, RichText_row_nil.
    destruct (Z.ltb_spec row 0); [done|].
    destruct (Z.geb_spec row (rows (Refresh t))); [done|lia].
  - intros Hin.
    assert (Forall (fun b => TextSeg (seg b) ∈ Segments t
                             /\ in_bounds (runes_of_string (Text (seg b))) b)
                   (rowBounds (Refresh t))) as Hall.
    { unfold Refresh, updateRowBounds.
      destruct (updateRowBounds_loop_segments t (Segments t) (Segments t) [])
        as (bounds & -> & Hb); [done|constructor|]. exact Hb. }
    pose proof Hin as Hin'. unfold rows, len in Hin'.
    destruct (lookup_lt_is_Some_2 (rowBounds (Refresh t)) (Z.to_nat row))
      as [b Hb]; [lia|].
    destruct (Forall_lookup_1 _ _ _ _ Hall Hb) as [_ (Hb0 & Hbe & Hlen)].
    assert (RichText_rowBoundary (Refresh t) row = Some b) as Hbound.
    { rewrite <- (Z2Nat.id row) by lia. by apply rowBoundary_lookup. }
    assert (RichText_row_nil (Refresh t) row
            = Some (subslice (runes_of_string (Text (seg b))) (begin b) (end_ b)))
      as Hrow.
    { unfold RichText_row_nil.
      destruct (Z.ltb_spec row 0); [lia|].
      destruct (Z.geb_spec row (rows (Refresh t))); [lia|]. simpl. rewrite Hb.
      destruct (Z.ltb_spec (begin b) 0); [lia|].
      destruct (Z.gtb_spec (end_ b) (len (runes_of_string (Text (seg b)))));
        [lia|]. simpl.
      destruct (Z.ltb_spec (end_ b) (begin b)); [lia|done]. }
    unfold lineSizeToColumn. rewrite Hrow. cbv zeta.
    rewrite subslice_length by lia. split.
    + intros Hneg. destruct (Z.geb_spec col (end_ b - begin b)); [lia|].
      destruct (Z.ltb_spec col 0); [done|lia].
    + intros Hcol. exists b. split; [done|]. rewrite Hbound.
      assert ((if col >=? end_ b - begin b then end_ b - begin b else col)
              = Z.min col (end_ b - begin b)) as ->.
      { destruct (Z.geb_spec col (end_ b - begin b)); lia. }
      destruct (Z.ltb_spec (Z.min col (end_ b - begin b)) 0); [lia|].
      rewrite take_subslice by lia.
      unfold strings_Repeat.
      destruct (Z.ltb_spec (Z.min col (end_ b - begin b)) 0); [lia|].
      by destruct (concealed (seg b)).
Qed.

End LineSize.

(** ** The table segment *)

Section TableResize.
Context `{Float32 F} `{Toolkit F} `{Float32Lt F}.
Hypothesis lt_irrefl : forall x : F, f_lt x x = false.
Hypothesis lt_trans :
  forall x y z : F, f_lt x y = true -> f_lt y z = true -> f_lt x z = true.

Lemma bounds_all_iff (seen seen' : nat -> F -> Prop) (xs : list F) :
  (forall k x, seen k x <-> seen' k x) -> bounds_all seen xs -> bounds_all seen' xs.
Proof.
  intros Hiff [Hb Ha]. split.
  - intros k x Hs. apply Hb. by apply Hiff.
  - intros k w Hl. apply Hiff. by apply Ha.
Qed.

Lemma raise_at_total (xs : list F) (i : Z) (v : F) :
  0 <= i -> exists xs', raise_at xs i v = Returns xs'.
Proof.
  intros Hi. unfold raise_at.
  destruct (Z.ltb_spec (len xs) (i + 1)) as [|Hge]; [by eexists|].
  destruct (lookup_lt_is_Some_2 xs (Z.to_nat i)) as [x ->];
    [unfold len in Hge; lia|]. by eexists.
Qed.

Lemma raise_at_spec (seen : nat -> F -> Prop) (xs xs' : list F) (i : Z) (v : F) :
  raise_at xs i v = Returns xs' ->
  0 <= i -> i <= len xs -> bounds_all seen xs ->
  bounds_all (fun k x => seen k x \/ (k = Z.to_nat i /\ x = v)) xs'
  /\ len xs' = Z.max (len xs) (i + 1).
Proof.
  intros Hrun Hi Hle [Hb Ha]. unfold raise_at in Hrun.
  destruct (Z.ltb_spec (len xs) (i + 1)) as [Hlt|Hge].
  - injection Hrun as <-.
    assert (length xs = Z.to_nat i) as Hlen by (unfold len in *; lia).
    split; [split|].
    + intros k x [Hs|[-> ->]].
      * destruct (Hb k x Hs) as (w & Hl & Hw). exists w. split; [|done].
        rewrite lookup_app_l; [done|]. by apply lookup_lt_Some in Hl.
      * exists v. split; [|apply lt_irrefl]. by apply list_lookup_middle.
    + intros k w Hl. apply lookup_snoc_Some in Hl as [[_ Hl]|[-> <-]].
      * left. by apply Ha.
      * right. by rewrite Hlen.
    + unfold len in *. rewrite length_app. simpl. lia.
  - destruct (xs !! Z.to_nat i) as [x0|] eqn:Hx0; [|done].
    injection Hrun as <-.
    destruct (f_lt x0 v) eqn:Hcmp.
    + split; [split|].
      * intros k x [Hs|[-> ->]].
        -- destruct (Hb k x Hs) as (w & Hl & Hw).
           destruct (decide (Z.to_nat i = k)) as [<-|Hne].
           ++ exists v. split.
              ** rewrite list_lookup_insert.
                 apply lookup_lt_Some in Hl. by rewrite decide_True.
              ** rewrite Hx0 in Hl. injection Hl as <-.
                 destruct (f_lt v x) eqn:Hvx; [|done].
                 by rewrite (lt_trans _ _ _ Hcmp Hvx) in Hw.
           ++ exists w. split; [|done]. by rewrite list_lookup_insert_ne.
        -- exists v. split; [|apply lt_irrefl].
           rewrite list_lookup_insert.
           apply lookup_lt_Some in Hx0. by rewrite decide_True.
      * intros k w Hl.
        apply list_lookup_insert_Some in Hl as [(<- & <- & _)|[_ Hl]].
        -- by right.
        -- left. by apply Ha.
      * unfold len in *. rewrite length_insert. lia.
    + split; [split|].
      * intros k x [Hs|[-> ->]]; [by apply Hb|]. by exists x0.
      * intros k w Hl. left. by apply Ha.
      * lia.
Qed.

(** The widths after the cells of a row. *)
Lemma resize_cells_widths (cells : list (RichText F)) (i j : Z)
    (ws hs ws' hs' : list F) (seen : nat -> F -> Prop) :
  resize_cells cells i j (ws, hs) = Returns (ws', hs') ->
  0 <= j -> j <= len ws -> bounds_all seen ws ->
  bounds_all (fun k x => seen k x
                \/ exists c v, (Z.to_nat j <= k)%nat
                     /\ cells !! (k - Z.to_nat j)%nat = Some c
                     /\ MinSize c = Returns v /\ Width v = x) ws'.
Proof.
  revert j ws hs seen.
  induction cells as [|c rest IH]; intros j ws hs seen Hrun Hj Hle Hall.
  - simpl in Hrun. injection Hrun as <- <-.
    eapply bounds_all_iff; [|exact Hall].
    intros k x. split; [by left|]. intros [?|(c & v & _ & Hl & _)]; done.
  - simpl in Hrun.
    destruct (MinSize c) as [v|] eqn:Hv; [|done]. cbn [mbind run_bind] in Hrun.
    destruct (raise_at hs i (Height v)) as [hs1|]; [|done].
    cbn [mbind run_bind] in Hrun.
    destruct (raise_at ws j (Width v)) as [ws1|] eqn:Hws; [|done].
    cbn [mbind run_bind] in Hrun.
    destruct (raise_at_spec seen _ _ _ _ Hws Hj Hle Hall) as [Hall1 Hlen1].
    specialize (IH _ _ _ _ Hrun ltac:(lia) ltac:(lia) Hall1).
    eapply bounds_all_iff; [|exact IH].
    intros k x. split.
    + intros [[Hs|[-> ->]]|(c' & v' & Hk & Hl & Hc' & Hx)].
      * by left.
      * right. exists c, v. rewrite Nat.sub_diag. done.
      * right. exists c', v'. split; [lia|]. split; [|done].
        replace (k - Z.to_nat j)%nat with (S (k - Z.to_nat (j + 1))) by lia.
        done.
    + intros [Hs|(c' & v' & Hk & Hl & Hc' & Hx)]; [by left; left|].
      destruct (decide (k = Z.to_nat j)) as [->|Hne].
      * rewrite Nat.sub_diag in Hl. injection Hl as <-.
        rewrite Hv in Hc'. injection Hc' as <-. left. by right.
      * right. exists c', v'. split; [lia|]. split; [|done].
        replace (k - Z.to_nat j)%nat with (S (k - Z.to_nat (j + 1))) in Hl by lia.
        done.
Qed.

(** The heights after the cells of a row. *)
Lemma resize_cells_heights (cells : list (RichText F)) (i j : Z)
    (ws hs ws' hs' : list F) (seen : nat -> F -> Prop) :
  resize_cells cells i j (ws, hs) = Returns (ws', hs') ->
  0 <= i -> i <= len hs -> bounds_all seen hs ->
  bounds_all (fun k x => seen k x
                \/ (k = Z.to_nat i
                    /\ exists c v, c ∈ cells /\ MinSize c = Returns v
                                   /\ Height v = x)) hs'
  /\ len hs' = match cells with [] => len hs | _ => Z.max (len hs) (i + 1) end.
Proof.
  revert j ws hs seen.
  induction cells as [|c rest IH]; intros j ws hs seen Hrun Hi Hle Hall.
  - simpl in Hrun. injection Hrun as <- <-. split; [|done].
    eapply bounds_all_iff; [|exact Hall].
    intros k x. split; [by left|].
    intros [?|(_ & c & v & Hin & _)]; [done|]. by apply elem_of_nil in Hin.
  - simpl in Hrun.
    destruct (MinSize c) as [v|] eqn:Hv; [|done]. cbn [mbind run_bind] in Hrun.
    destruct (raise_at hs i (Height v)) as [hs1|] eqn:Hhs; [|done].
    cbn [mbind run_bind] in Hrun.
    destruct (raise_at ws j (Width v)) as [ws1|]; [|done].
    cbn [mbind run_bind] in Hrun.
    destruct (raise_at_spec seen _ _ _ _ Hhs Hi Hle Hall) as [Hall1 Hlen1].
    destruct (IH _ _ _ _ Hrun Hi ltac:(lia) Hall1) as [Hall' Hlen'].
    split.
    + eapply bounds_all_iff; [|exact Hall'].
      intros k x. split.
      * intros [[Hs|[-> ->]]|(-> & c' & v' & Hin & Hc' & Hx)].
        -- by left.
        -- right. split; [done|]. exists c, v. split; [by left|done].
        -- right. split; [done|]. exists c', v'. split; [by right|done].
      * intros [Hs|(-> & c' & v' & Hin & Hc' & Hx)]; [by left; left|].
        apply elem_of_cons in Hin as [->|Hin].
        -- rewrite Hv in Hc'. injection Hc' as <-. left. by right.
        -- right. split; [done|]. by exists c', v'.
    + rewrite Hlen'. destruct rest; lia.
Qed.

Lemma resize_rows_widths (rows : list (list (RichText F))) (i : Z)
    (ws hs ws' hs' : list F) (seen : nat -> F -> Prop) :
  resize_rows rows i (ws, hs) = Returns (ws', hs') ->
  bounds_all seen ws ->
  bounds_all (fun k x => seen k x \/ column_width_of rows k x) ws'.
Proof.
  revert i ws hs seen.
  induction rows as [|row rest IH]; intros i ws hs seen Hrun Hall.
  - simpl in Hrun. injection Hrun as <- <-.
    eapply bounds_all_iff; [|exact Hall].
    intros k x. split; [by left|].
    intros [?|(row & c & v & Hin & _)]; [done|]. by apply elem_of_nil in Hin.
  - simpl in Hrun.
    destruct (resize_cells row i 0 (ws, hs)) as [[ws1 hs1]|] eqn:Hcells; [|done].
    cbn [mbind run_bind] in Hrun.
    pose proof (resize_cells_widths _ _ _ _ _ _ _ seen Hcells ltac:(lia)
                  (len_nonneg ws) Hall) as Hall1.
    specialize (IH _ _ _ _ Hrun Hall1).
    eapply bounds_all_iff; [|exact IH].
    change (Z.to_nat 0) with 0%nat.
    intros k x. split.
    + intros [[Hs|(c & v & _ & Hl & Hc & Hx)]|(row' & c & v & Hin & Hl & Hc & Hx)].
      * by left.
      * right. exists row, c, v. rewrite Nat.sub_0_r in Hl. split; [by left|done].
      * right. exists row', c, v. split; [by right|done].
    + intros [Hs|(row' & c & v & Hin & Hl & Hc & Hx)]; [by left; left|].
      apply elem_of_cons in Hin as [->|Hin].
      * left. right. exists c, v. rewrite Nat.sub_0_r. split; [lia|done].
      * right. by exists row', c, v.
Qed.

Lemma resize_rows_heights (rows : list (list (RichText F))) (i : Z)
    (ws hs ws' hs' : list F) (seen : nat -> F -> Prop) :
  resize_rows rows i (ws, hs) = Returns (ws', hs') ->
  0 <= i -> len hs = i -> bounds_all seen hs ->
  Forall (fun row => row <> []) rows ->
  bounds_all (fun k x => seen k x
                \/ ((Z.to_nat i <= k)%nat
                    /\ row_height_of rows (k - Z.to_nat i) x)) hs'
  /\ len hs' = i + len rows.
Proof.
  revert i ws hs seen.
  induction rows as [|row rest IH]; intros i ws hs seen Hrun Hi Hlen Hall Hne.
  - simpl in Hrun. injection Hrun as <- <-. split; [|unfold len in *; simpl; lia].
    eapply bounds_all_iff; [|exact Hall].
    intros k x. split; [by left|].
    intros [?|(_ & row & c & v & Hl & _)]; done.
  - simpl in Hrun. apply Forall_cons in Hne as [Hrow Hne].
    destruct (resize_cells row i 0 (ws, hs)) as [[ws1 hs1]|] eqn:Hcells; [|done].
    cbn [mbind run_bind] in Hrun.
    destruct (resize_cells_heights _ _ _ _ _ _ _ seen Hcells Hi ltac:(lia) Hall)
      as [Hall1 Hlen1].
    assert (len hs1 = i + 1) as Hlen1' by (destruct row; [done|lia]).
    destruct (IH _ _ _ _ Hrun ltac:(lia) Hlen1' Hall1 Hne) as [Hall' Hlen'].
    split; [|unfold len in *; simpl; lia].
    eapply bounds_all_iff; [|exact Hall'].
    intros k x. split.
    + intros [[Hs|(-> & c & v & Hin & Hc & Hx)]
             |(Hk & row' & c & v & Hl & Hin & Hc & Hx)].
      * by left.
      * right. split; [lia|]. exists row, c, v. by rewrite Nat.sub_diag.
      * right. split; [lia|]. exists row', c, v. split; [|done].
        replace (k - Z.to_nat i)%nat with (S (k - Z.to_nat (i + 1))) by lia.
        done.
    + intros [Hs|(Hk & row' & c & v & Hl & Hin & Hc & Hx)]; [by left; left|].
      destruct (decide (k = Z.to_nat i)) as [->|Hnek].
      * rewrite Nat.sub_diag in Hl. injection Hl as <-.
        left. right. split; [done|]. by exists c, v.
      * right. split; [lia|]. exists row', c, v. split; [|done].
        replace (k - Z.to_nat i)%nat with (S (k - Z.to_nat (i + 1))) in Hl by lia.
        done.
Qed.

(** X22: when the comparison of [float32] is irreflexive and transitive,
    [resize] gives every column a width: each is the width of one of the
    cells of the column and none of them is above it, and 8 is added for
    [SetColumnWidth]; when no row is empty it gives every row a height in
    the same way, one for each row. *)
Theorem resize_maxima (rows : list (list (RichText F))) (lay : table_layout F) :
  TableSegment_resize rows = Returns lay ->
  exists widths,
    column_widths lay = map (fun w => f_add w (f_of_int 8)) widths
    /\ bounds_all (column_width_of rows) widths
    /\ (Forall (fun row => row <> []) rows ->
        length (row_heights lay) = length rows
        /\ bounds_all (row_height_of rows) (row_heights lay)).
Proof.
  unfold TableSegment_resize. intros Hrun.
  destruct (resize_rows rows 0 ([], [])) as [[widths heights]|] eqn:Hrows; [|done].
  cbn [mbind run_bind] in Hrun. injection Hrun as <-. simpl.
  assert (bounds_all (fun (_ : nat) (_ : F) => False) []) as Hnil.
  { split; [done|]. intros k w Hl. done. }
  exists widths. split; [done|]. split.
  - pose proof (resize_rows_widths _ _ _ _ _ _ _ Hrows Hnil) as Hw.
    eapply bounds_all_iff; [|exact Hw]. intros k x. split; [|by right].
    by intros [?|?].
  - intros Hne.
    destruct (resize_rows_heights _ _ _ _ _ _ _ Hrows ltac:(lia) eq_refl Hnil Hne)
      as [Hh Hlen].
    split; [unfold len in Hlen; simpl in Hlen; lia|].
    eapply bounds_all_iff; [|exact Hh].
    change (Z.to_nat 0) with 0%nat. intros k x. cbv beta.
    rewrite Nat.sub_0_r. split.
    + by intros [?|[_ ?]].
    + intros Hr. right. split; [lia|done].
Qed.

End TableResize.

Section TablePanics.
Context `{Float32 F} `{Toolkit F} `{Float32Lt F}.

Lemma resize_cells_returns (cells : list (RichText F)) (i j : Z)
    (acc : list F * list F) :
  0 <= i -> 0 <= j ->
  (exists acc', resize_cells cells i j acc = Returns acc')
  <-> Forall (fun c => exists v, MinSize c = Returns v) cells.
Proof.
  intros Hi. revert j acc.
  induction cells as [|c rest IH]; intros j [ws hs] Hj.
  - simpl. split; [constructor|by eexists].
  - simpl. rewrite Forall_cons.
    destruct (MinSize c) as [v|]; cbn [mbind run_bind].
    + destruct (raise_at_total hs i (Height v) Hi) as [hs1 ->].
      destruct (raise_at_total ws j (Width v) Hj) as [ws1 ->].
      cbn [mbind run_bind]. rewrite (IH (j + 1) (ws1, hs1)) by lia.
      split; [|by intros [_ ?]]. intros Hrest. split; [by eexists|done].
    + split; [by intros [? ?]|]. by intros [[? ?] _].
Qed.

Lemma resize_rows_returns (rows : list (list (RichText F))) (i : Z)
    (acc : list F * list F) :
  0 <= i ->
  (exists acc', resize_rows rows i acc = Returns acc')
  <-> Forall (Forall (fun c => exists v, MinSize c = Returns v)) rows.
Proof.
  revert i acc. induction rows as [|row rest IH]; intros i acc Hi.
  - simpl. split; [constructor|by eexists].
  - simpl. rewrite Forall_cons.
    rewrite <- (resize_cells_returns row i 0 acc) by lia.
    destruct (resize_cells row i 0 acc) as [acc1|]; cbn [mbind run_bind].
    + rewrite (IH (i + 1) acc1) by lia.
      split; [|by intros [_ ?]]. intros Hrest. split; [by eexists|done].
    + split; [by intros [? ?]|]. by intros [[? ?] _].
Qed.

Lemma cells_return_or_panic (row : list (RichText F)) :
  Forall (fun c => exists v, MinSize c = Returns v) row
  \/ Exists (fun c => MinSize c = Panics) row.
Proof.
  induction row as [|c row [IH|IH]].
  - left. constructor.
  - destruct (MinSize c) as [v|] eqn:E.
    + left. constructor; [by eexists|done].
    + right. by left.
  - right. by right.
Qed.

Lemma cells_not_both (row : list (RichText F)) :
  Forall (fun c => exists v, MinSize c = Returns v) row ->
  ~ Exists (fun c => MinSize c = Panics) row.
Proof.
  intros Hall Hex. apply Exists_exists in Hex as (c & Hin & Hc).
  rewrite Forall_forall in Hall. destruct (Hall c Hin) as [v Hv].
  by rewrite Hc in Hv.
Qed.

Lemma rows_return_or_panic (rows : list (list (RichText F))) :
  Forall (Forall (fun c => exists v, MinSize c = Returns v)) rows
  \/ Exists (Exists (fun c => MinSize c = Panics)) rows.
Proof.
  induction rows as [|row rows [IH|IH]].
  - left. constructor.
  - destruct (cells_return_or_panic row) as [Hrow|Hrow].
    + left. by constructor.
    + right. by left.
  - right. by right.
Qed.

Lemma rows_not_both (rows : list (list (RichText F))) :
  Forall (Forall (fun c => exists v, MinSize c = Returns v)) rows ->
  ~ Exists (Exists (fun c => MinSize c = Panics)) rows.
Proof.
  intros Hall Hex. apply Exists_exists in Hex as (row & Hin & Hrow).
  rewrite Forall_forall in Hall. by apply (cells_not_both row (Hall row Hin)).
Qed.

(** X23: [resize] returns exactly when [MinSize] returns for the content
    of every cell, and panics exactly when it panics for one of them. Its
    own slice accesses are always in range, also for a table with empty
    or ragged rows. *)
Theorem resize_returns (rows : list (list (RichText F))) :
  ((exists lay, TableSegment_resize rows = Returns lay)
   <-> Forall (Forall (fun c => exists v, MinSize c = Returns v)) rows)
  /\ (TableSegment_resize rows = Panics
      <-> Exists (Exists (fun c => MinSize c = Panics)) rows).
Proof.
  assert ((exists lay, TableSegment_resize rows = Returns lay)
          <-> Forall (Forall (fun c => exists v, MinSize c = Returns v)) rows)
    as Hret.
  { rewrite <- (resize_rows_returns rows 0 ([], [])) by lia.
    unfold TableSegment_resize.
    destruct (resize_rows rows 0 ([], [])) as [[ws hs]|]; cbn [mbind run_bind].
    - split; by eexists.
    - split; by intros [? ?]. }
  split; [exact Hret|]. split.
  - intros Hpanic. destruct (rows_return_or_panic rows) as [Hall|Hex]; [|done].
    apply Hret in Hall as [lay Hlay]. by rewrite Hpanic in Hlay.
  - intros Hex. destruct (TableSegment_resize rows) as [lay|] eqn:E; [|done].
    destruct (rows_not_both rows); [|done]. apply Hret. by eexists.
Qed.

End TablePanics.

(** ** Instances of the properties *)

#[local] Existing Instance Z_Float32Lt.

Lemma truncate_rows_witness :
  f_le (30 : Z) f_zero = false
  /\ exists rows,
       lineBounds (plain "hello world") TextTruncate 30 ten_per_rune = Some rows
       /\ Forall2 (fun l b =>
            seg b = plain "hello world" /\ begin b = begin l
            /\ begin l <= end_ b /\ end_ b <= end_ l
            /\ (end_ b = begin b
                \/ checker (plain "hello world") 30 ten_per_rune (begin b) (end_ b)
                   = true)
            /\ (end_ b < end_ l ->
                checker (plain "hello world") 30 ten_per_rune (begin b) (end_ b + 1)
                = false))
            (splitLines (plain "hello world")) rows.
Proof.
  split; [reflexivity|].
  exact (truncate_rows (plain "hello world") 30 ten_per_rune eq_refl).
Defined.

Lemma break_rows_witness :
  f_le (30 : Z) f_zero = false
  /\ exists groups,
       lineBounds (plain "hello world") TextWrapBreak 30 ten_per_rune
       = Some (concat groups)
       /\ Forall2 (fun l g =>
            (exists e, begin l <= e /\ e <= end_ l
               /\ concat (map (row_text (runes_of_string "hello world")) g)
                  = subslice (runes_of_string "hello world") (begin l) e)
            /\ Forall (fun b =>
                 begin b = end_ b
                 \/ checker (plain "hello world") 30 ten_per_rune (begin b) (end_ b)
                    = true) g
            /\ Forall (fun b =>
                 end_ b = end_ l
                 \/ checker (plain "hello world") 30 ten_per_rune
                      (begin b) (end_ b + 1) = false) g
            /\ ((forall i, begin l <= i < end_ l ->
                   checker (plain "hello world") 30 ten_per_rune i (i + 1) = true) ->
                concat (map (row_text (runes_of_string "hello world")) g)
                = row_text (runes_of_string "hello world") l))
            (splitLines (plain "hello world")) groups.
Proof.
  split; [reflexivity|].
  exact (break_rows (plain "hello world") 30 ten_per_rune eq_refl).
Defined.

Lemma word_rows_break_at_whitespace_witness :
  f_le (90 : Z) f_zero = false
  /\ exists groups,
       lineBounds (plain "The quick brown fox") TextWrapWord 90 ten_per_rune
       = Some (concat groups)
       /\ Forall2 (fun l g =>
            Forall (fun b =>
              end_ b = end_ l
              \/ IsSpace (index (runes_of_string "The quick brown fox") (end_ b))
                 = true
              \/ Forall (fun r => IsSpace r = false)
                        (row_text (runes_of_string "The quick brown fox") b)) g)
            (splitLines (plain "The quick brown fox")) groups.
Proof.
  split; [reflexivity|].
  exact (word_rows_break_at_whitespace (plain "The quick brown fox") 90
           ten_per_rune eq_refl).
Defined.

Lemma unwrapped_rows_witness :
  let t := test_text [TextSeg (plain "ab"); OtherSeg true "--"; TextSeg (plain "cd")] in
  effective_wrap (Wrapping t) (RichText_maxWidth t) = TextWrapOff
  /\ rowBounds (Refresh t)
     = concat (map (fun ts => set_last_inline (splitLines ts) (Inline (Style ts)))
                   (text_segments (Segments t)))
  /\ rows (Refresh t)
     = foldr (fun ts n => 1 + Z.of_nat (count_occ Z.eq_dec
                                          (runes_of_string (Text ts)) 10) + n)
             0 (text_segments (Segments t)).
Proof.
  intros t. split; [reflexivity|].
  exact (unwrapped_rows t eq_refl).
Defined.

Lemma insertAt_first_text_witness :
  let pre := [OtherSeg true "--"] in
  let post := [TextSeg (plain "world")] in
  let t := test_text (pre ++ TextSeg (plain "hello") :: post) in
  Segments t = pre ++ TextSeg (plain "hello") :: post
  /\ no_text_segment pre
  /\ (TextSeg (plain "hello") ∉ post)
  /\ 0 <= 2
  /\ (2 < len (runes_of_string "hello")
      \/ (2 = len (runes_of_string "hello") /\ no_text_segment post))
  /\ exists t',
       insertAt t 2 "XY" = Returns t'
       /\ Segments t'
          = pre ++ TextSeg (with_Text (plain "hello") (string_of_runes
                     (take (Z.to_nat 2) (runes_of_string "hello")
                      ++ runes_of_string "XY"
                      ++ drop (Z.to_nat 2) (runes_of_string "hello")))) :: post.
Proof.
  intros pre post t.
  assert (no_text_segment pre) as Hpre by (repeat constructor).
  assert (TextSeg (plain "hello") ∉ post) as Hfresh.
  { intros Hel. apply list_elem_of_singleton in Hel. discriminate. }
  assert (2 < len (runes_of_string "hello")
          \/ (2 = len (runes_of_string "hello") /\ no_text_segment post)) as Hin
    by (left; vm_compute; reflexivity).
  split; [reflexivity|]. split; [exact Hpre|]. split; [exact Hfresh|].
  split; [lia|]. split; [exact Hin|].
  exact (insertAt_first_text t pre post (plain "hello") 2 "XY" eq_refl Hpre
           Hfresh ltac:(lia) Hin).
Defined.

Lemma insertAt_len_witness :
  let t := test_text [TextSeg (plain "ab")] in
  let t' := mkRichText [TextSeg (plain "aXb")] TextWrapOff (NewSize 200 100)
              (NewSize 0 0) [mkRow (plain "aXb") 0 3 true] in
  Segments t <> []
  /\ Forall (fun sg => is_text sg = true) (Segments t)
  /\ NoDup (Segments t)
  /\ insertAt t 1 "X" = Returns t'
  /\ RichText_len t' = RichText_len t + len (runes_of_string "X")
  /\ length (Segments t') = length (Segments t).
Proof.
  intros t t'.
  assert (Segments t <> []) as Hne by discriminate.
  assert (Forall (fun sg => is_text sg = true) (Segments t)) as Hall
    by (repeat constructor).
  assert (NoDup (Segments t)) as Hnodup by apply NoDup_singleton.
  assert (insertAt t 1 "X" = Returns t') as Hrun by (vm_compute; reflexivity).
  split; [exact Hne|]. split; [exact Hall|]. split; [exact Hnodup|].
  split; [exact Hrun|].
  exact (insertAt_len t t' 1 "X" Hne Hall Hnodup Hrun).
Defined.

Lemma deleteFromTo_first_text_witness :
  let pre := [OtherSeg true "--"] in
  let post := [TextSeg (plain "world")] in
  let t := test_text (pre ++ TextSeg (plain "hello") :: post) in
  Segments t = pre ++ TextSeg (plain "hello") :: post
  /\ no_text_segment pre
  /\ (TextSeg (plain "hello") ∉ post)
  /\ 0 <= 1 /\ 1 <= 3 /\ 3 <= len (runes_of_string "hello")
  /\ (1 < len (runes_of_string "hello") \/ no_text_segment post)
  /\ exists t',
       deleteFromTo t 1 3
       = Returns (string_of_runes (subslice (runes_of_string "hello") 1 3), t')
       /\ Segments t'
          = pre ++ TextSeg (with_Text (plain "hello") (string_of_runes
                     (take (Z.to_nat 1) (runes_of_string "hello")
                      ++ drop (Z.to_nat 3) (runes_of_string "hello")))) :: post
       /\ (Forall (fun sg => is_text sg = true) (Segments t) ->
           RichText_len t' = RichText_len t - (3 - 1)).
Proof.
  intros pre post t.
  assert (no_text_segment pre) as Hpre by (repeat constructor).
  assert (3 <= len (runes_of_string "hello")) as Hhigh
    by (vm_compute; discriminate).
  assert (TextSeg (plain "hello") ∉ post) as Hfresh.
  { intros Hel. apply list_elem_of_singleton in Hel. discriminate. }
  assert (1 < len (runes_of_string "hello") \/ no_text_segment post) as Hin
    by (left; vm_compute; reflexivity).
  split; [reflexivity|]. split; [exact Hpre|]. split; [exact Hfresh|].
  split; [lia|]. split; [lia|]. split; [exact Hhigh|]. split; [exact Hin|].
  exact (deleteFromTo_first_text t pre post (plain "hello") 1 3 eq_refl Hpre
           Hfresh ltac:(lia) ltac:(lia) Hhigh Hin).
Defined.

Lemma deleteFromTo_returns_witness :
  let t := test_text [TextSeg (plain "abcd")] in
  let t' := mkRichText [TextSeg (plain "ad")] TextWrapOff (NewSize 200 100)
              (NewSize 0 0) [mkRow (plain "ad") 0 2 true] in
  existsb is_text (Segments t) = true
  /\ deleteFromTo t 1 3 = Returns ("bc"%string, t')
  /\ 0 <= 1 /\ 1 <= 3
  /\ len (runes_of_string "bc") = 3 - 1
  /\ length (Segments t') = length (Segments t).
Proof.
  intros t t'.
  assert (deleteFromTo t 1 3 = Returns ("bc"%string, t')) as Hrun
    by (vm_compute; reflexivity).
  split; [reflexivity|]. split; [exact Hrun|].
  exact (deleteFromTo_returns t t' 1 3 "bc" eq_refl Hrun).
Defined.

Lemma edit_out_of_range_panics_witness :
  let t := test_text [TextSeg (plain "ab"); OtherSeg true "--"] in
  existsb is_text (Segments t) = true
  /\ (5 < 0 \/ RichText_len t < 5 -> insertAt t 5 "X" = Panics)
  /\ (-1 < 0 \/ 2 < -1 -> deleteFromTo t (-1) 2 = Panics).
Proof.
  intros t. split; [reflexivity|].
  exact (edit_out_of_range_panics t 5 "X" (-1) 2 eq_refl).
Defined.

Lemma deleteFromTo_beyond_text_witness :
  let pre := [OtherSeg true "--"] in
  let t := test_text (pre ++ [TextSeg (plain "ab")]) in
  let n := len (runes_of_string "ab") in
  Segments t = pre ++ TextSeg (plain "ab") :: []
  /\ no_text_segment pre /\ no_text_segment []
  /\ n < 3 /\ 3 <= 4
  /\ (Z.max n (runecap n) < 4 -> deleteFromTo t 3 4 = Panics)
  /\ (4 <= Z.max n (runecap n) ->
      exists t',
        deleteFromTo t 3 4
        = Returns (string_of_runes (replicate (Z.to_nat (4 - 3)) 0), t')
        /\ Segments t'
           = pre ++ TextSeg (with_Text (plain "ab") (string_of_runes
                      (runes_of_string "ab" ++ replicate (Z.to_nat (3 - n)) 0)))
                 :: []).
Proof.
  intros pre t n.
  assert (no_text_segment pre) as Hpre by (repeat constructor).
  assert (no_text_segment []) as Hpost by constructor.
  assert (n < 3) as Hlt by (vm_compute; reflexivity).
  split; [reflexivity|]. split; [exact Hpre|]. split; [exact Hpost|].
  split; [exact Hlt|]. split; [lia|].
  exact (deleteFromTo_beyond_text t pre [] (plain "ab") 3 4 eq_refl Hpre Hpost
           Hlt ltac:(lia)).
Defined.

Lemma delete_then_insert_witness :
  let pre := [OtherSeg true "--"] in
  let post := [OtherSeg false "=="] in
  let t := test_text (pre ++ TextSeg (plain "héllo") :: post) in
  Segments t = pre ++ TextSeg (plain "héllo") :: post
  /\ no_text_segment pre /\ no_text_segment post
  /\ 0 <= 1 /\ 1 <= 3 /\ 3 <= len (runes_of_string "héllo")
  /\ exists deleted t1 t2,
       deleteFromTo t 1 3 = Returns (deleted, t1)
       /\ insertAt t1 1 deleted = Returns t2
       /\ Segments t2
          = pre ++ TextSeg (with_Text (plain "héllo")
                     (string_of_runes (runes_of_string "héllo"))) :: post
       /\ (valid_utf8 "héllo" -> Segments t2 = Segments t).
Proof.
  intros pre post t.
  assert (no_text_segment pre) as Hpre by (repeat constructor).
  assert (no_text_segment post) as Hpost by (repeat constructor).
  assert (3 <= len (runes_of_string "héllo")) as Hhigh
    by (vm_compute; discriminate).
  split; [reflexivity|]. split; [exact Hpre|]. split; [exact Hpost|].
  split; [lia|]. split; [lia|]. split; [exact Hhigh|].
  exact (delete_then_insert t pre post (plain "héllo") 1 3 eq_refl Hpre Hpost
           ltac:(lia) ltac:(lia) Hhigh).
Defined.

Lemma MinSize_wrapped_width_witness :
  let t := mkRichText [TextSeg (plain "ab")] TextWrapWord (NewSize 200 100)
             (NewSize 0 0) [mkRow (plain "ab") 0 2 true] in
  is_off (Wrapping t) = false
  /\ MinSize t = Returns (NewSize 16 36)
  /\ Width (NewSize 16 36)
     = f_add f_zero
         (f_sub (f_sub (f_mul theme_Padding (f_of_int 4)) (Width (inset t)))
                (Width (inset t))).
Proof.
  intros t.
  assert (MinSize t = Returns (NewSize 16 36)) as Hrun by (vm_compute; reflexivity).
  split; [reflexivity|]. split; [exact Hrun|].
  exact (MinSize_wrapped_width t (NewSize 16 36) eq_refl Hrun).
Defined.

Lemma len_counts_String_witness :
  let t := test_text [TextSeg (plain "héllo"); OtherSeg true "--"] in
  Forall (fun sg => valid_utf8 (Textual sg)) (Segments t)
  /\ RichText_len t = len (runes_of_string (RichText_String t))
  /\ valid_utf8 (RichText_String t).
Proof.
  intros t.
  assert (Forall (fun sg => valid_utf8 (Textual sg)) (Segments t)) as Hall
    by (repeat constructor; vm_compute; reflexivity).
  split; [exact Hall|].
  exact (len_counts_String t Hall).
Defined.

Lemma Layout_rows_witness :
  let t := mkRichText [TextSeg (plain "ab")] TextWrapBreak (NewSize 200 100)
             (NewSize 0 0)
             [mkRow (plain "ab") 0 1 false; mkRow (plain "ab") 1 2 true] in
  let objs := [1%nat; 2%nat] in
  let calls := [mkCall [1%nat] TextAlignLeading 8 8 184 20;
                mkCall [2%nat] TextAlignLeading 8 28 184 20] in
  Layout t (NewSize 200 100) objs = Returns calls
  /\ concat (map call_texts calls) = objs
  /\ Forall (fun c => call_texts c <> []) calls
  /\ (forall k c, calls !! k = Some c ->
        call_yPos c
        = add_times (f_sub (f_mul theme_Padding (f_of_int 2)) (Height (inset t)))
                    (call_lineHeight c) k)
  /\ (len (rowBounds t) = len objs -> objs <> [] ->
      length calls
      = S (count_occ bool_dec
             (map inline (take (Z.to_nat (len objs - 1)) (rowBounds t))) false)).
Proof.
  intros t objs calls.
  assert (Layout t (NewSize 200 100) objs = Returns calls) as Hrun
    by (vm_compute; reflexivity).
  split; [exact Hrun|].
  exact (Layout_rows t (NewSize 200 100) objs calls Hrun).
Defined.

Lemma resize_maxima_witness :
  let rows := [[NewRichText [TextSeg (plain "ab")];
                NewRichText [TextSeg (plain "abcd")]];
               [NewRichText [TextSeg (plain "x")]]] in
  let lay := mkTableLayout [36; 36] [44; 64] (NewSize 124 80) in
  (forall x : Z, f_lt x x = false)
  /\ (forall x y z : Z, f_lt x y = true -> f_lt y z = true -> f_lt x z = true)
  /\ TableSegment_resize rows = Returns lay
  /\ exists widths,
       column_widths lay = map (fun w => f_add w (f_of_int 8)) widths
       /\ bounds_all (column_width_of rows) widths
       /\ (Forall (fun row => row <> []) rows ->
           length (row_heights lay) = length rows
           /\ bounds_all (row_height_of rows) (row_heights lay)).
Proof.
  intros rows lay.
  assert (forall x : Z, f_lt x x = false) as Hirr by (intros x; apply Z.ltb_irrefl).
  assert (forall x y z : Z, f_lt x y = true -> f_lt y z = true -> f_lt x z = true)
    as Htrans.
  { intros x y z Hxy Hyz. simpl in *. lia. }
  assert (TableSegment_resize rows = Returns lay) as Hrun
    by (vm_compute; reflexivity).
  split; [exact Hirr|]. split; [exact Htrans|]. split; [exact Hrun|].
  exact (resize_maxima Hirr Htrans rows lay Hrun).
Defined.
